(** * The relay engine of [s.js]: a shallow embedding and its properties

    [s.js] is a WebSocket relay: every client streams its position, the
    server filters out insignificant changes, batches the rest per recipient,
    relays chat and emotes at once, and evicts connections that stop answering
    pings.  The program is single-threaded: every listener and timer callback
    runs to completion.  The embedding therefore is a state record [Server]
    that holds the module's globals and the socket objects, one function per
    listener or callback, and a [step] function over the events the runtime
    can deliver.

    - Numbers are JavaScript numbers: IEEE binary64, here Rocq's primitive
      [float] with the same subtraction, absolute value and comparisons.
    - A JavaScript [Map] is an association list in insertion order, the order
      [forEach] visits; [wss.clients] is a list without repetition.
    - A socket object is named by a number; what the program reads from it
      ([readyState], [isAlive]) and whether [send] throws on it is kept in
      [sockets].  The transport changes these under the program
      ([ev_transport]).
    - Every frame handed to the transport is appended to the wire trace
      [sent], every console line to [console].
    - Time does not pass in the model: [Date.now()] is an argument of the
      event, and the two intervals only decide when [ev_flush] and
      [ev_heartbeat] happen.
    - The HTTP responder shares nothing with the relay: it is a function of
      its own, [requestListener], the listener and the callback of the read
      it starts taken together.  The [listen] call is not part of the model. *)

From Stdlib Require Import Floats.
From stdpp Require Import gmap strings list.

Set Default Proof Using "Type".
Set Warnings "-inexact-float,-register-all".

Open Scope float_scope.

(** ** Constants (lines 8 to 13) *)

Definition MAX_CHAT_HISTORY : nat := 25.
Definition POSITION_THRESHOLD : float := 0.001.
Definition ROTATION_THRESHOLD : float := 0.001.

(** [a > b] of JavaScript: false as soon as one side is NaN. *)
Definition js_gt (a b : float) : bool := PrimFloat.ltb b a.

(** A number in a boolean position ([||]): [0], [-0] and [NaN] are falsy. *)
Definition js_truthy (a : float) : bool :=
  negb (PrimFloat.eqb a 0) && PrimFloat.eqb a a.

(** ** Data model *)

Module Vec3.
Record t : Type := mk { x : float; y : float; z : float }.
End Vec3.

(** The state object a client streams.  [timestamp] may be missing from a
    frame; [serverTimestamp] and [clientTimestamp] are the two properties the
    server adds when it accepts an update (lines 213 and 214). *)
Module State.
Record t : Type := mk {
  position : Vec3.t;
  rotationY : float;
  isMoving : bool;
  isGrounded : bool;
  velocityY : float;
  velocity : Vec3.t;
  timestamp : option float;
  serverTimestamp : option float;
  clientTimestamp : option float
}.
End State.

(** The value kept for a socket in the [clients] map (lines 162 to 167). *)
Module ClientData.
Record t : Type := mk {
  id : string;
  state : State.t;
  lastUpdate : float;
  lastHeartbeat : float
}.
End ClientData.

Module ChatEntry.
Record t : Type := mk {
  senderId : string;
  message : string;
  timestamp : float
}.
End ChatEntry.

(** Server to client messages, as the objects handed to [JSON.stringify]. *)
Inductive OutMsg : Type :=
| assign_id (id : string) (initialState : State.t) (serverTime : float)
| existing_players (playersData : list (string * State.t))
| chat_history (history : list ChatEntry.t)
| player_joined (id : string) (state : State.t)
| player_left (id : string)
| player_update (id : string) (state : State.t)
| batch_update (updates : list OutMsg)
| chat_message (senderId : string) (message : string) (timestamp : float)
| emote_start (playerId : string) (emote : string) (timestamp : float)
| pong (clientTimestamp : option float) (serverTimestamp : float).

(** Client to server messages after [JSON.parse], by their [type] field, with
    the fields the listener reads at the types the protocol gives them.
    [in_other] is a message of any other type, or of none. *)
Inductive InMsg : Type :=
| in_player_update (state : State.t)
| in_chat_message (message : string)
| in_emote_command (emote : string)
| in_ping (timestamp : option float)
| in_other (type : string).

(** ** ChangeFilter (lines 107 to 120) *)

Definition hasSignificantChange (oldState : option State.t) (newState : State.t) : bool :=
  match oldState with
  | None => true
  | Some oldState =>
    let posChanged :=
      js_gt (abs (Vec3.x (State.position oldState) - Vec3.x (State.position newState)))
            POSITION_THRESHOLD
      || js_gt (abs (Vec3.y (State.position oldState) - Vec3.y (State.position newState)))
               POSITION_THRESHOLD
      || js_gt (abs (Vec3.z (State.position oldState) - Vec3.z (State.position newState)))
               POSITION_THRESHOLD in
    let rotChanged :=
      js_gt (abs (State.rotationY oldState - State.rotationY newState)) ROTATION_THRESHOLD in
    let stateChanged :=
      negb (Bool.eqb (State.isMoving oldState) (State.isMoving newState))
      || negb (Bool.eqb (State.isGrounded oldState) (State.isGrounded newState)) in
    posChanged || rotChanged || stateChanged
  end.

(** ** Sockets and the wire *)

(** A socket object of the [ws] library, named by its identity. *)
Abbreviation Ws := nat.

Inductive ReadyState : Type := CONNECTING | OPEN | CLOSING | CLOSED.

#[global] Instance ReadyState_eq_dec : EqDecision ReadyState.
Proof. solve_decision. Defined.

(** What the program reads from a socket object: [readyState], the
    [isAlive] property it adds (line 169), and whether the transport
    currently refuses writes, in which case [ws.send] throws. *)
Module Socket.
Record t : Type := mk {
  readyState : ReadyState;
  isAlive : bool;
  sendThrows : bool
}.
End Socket.

(** A frame put on the wire for a socket: a text frame ([ws.send]) or a
    ping ([ws.ping]). *)
Inductive Frame : Type :=
| Text (data : OutMsg)
| PingFrame.

(** Lines written by [console.log] and [console.error]. *)
Inductive ConsoleLine : Type :=
| log_connected (id : string) (total : nat)
| log_disconnected (id : string)
| err_broadcast (id : string)
| err_batch
| err_process
| err_socket (id : string).

(** ** JavaScript [Map] keyed by socket, in insertion order *)

Section JsMap.
Context {V : Type}.

Fixpoint Map_get (k : Ws) (m : list (Ws * V)) : option V :=
  match m with
  | [] => None
  | (k', v) :: m' => if decide (k' = k) then Some v else Map_get k m'
  end.

Definition Map_has (k : Ws) (m : list (Ws * V)) : bool :=
  match Map_get k m with Some _ => true | None => false end.

(** [set] keeps the position of a key that is present and appends a new one. *)
Fixpoint Map_set (k : Ws) (v : V) (m : list (Ws * V)) : list (Ws * V) :=
  match m with
  | [] => [(k, v)]
  | (k', v') :: m' =>
    if decide (k' = k) then (k, v) :: m' else (k', v') :: Map_set k v m'
  end.

Fixpoint Map_delete (k : Ws) (m : list (Ws * V)) : list (Ws * V) :=
  match m with
  | [] => []
  | (k', v') :: m' =>
    if decide (k' = k) then Map_delete k m' else (k', v') :: Map_delete k m'
  end.

Definition Map_keys (m : list (Ws * V)) : list Ws := m.*1.
End JsMap.

(** ** The server: module globals, socket objects, and what was output *)

Record Server : Type := mkServer {
  sockets : gmap nat Socket.t;                 (* the socket objects *)
  wss_clients : list Ws;                       (* wss.clients *)
  clients : list (Ws * ClientData.t);          (* line 44 *)
  chatHistory : list ChatEntry.t;              (* line 45 *)
  pendingUpdates : list (Ws * list OutMsg);    (* line 46 *)
  updateBatchTimer : option nat;               (* line 47 *)
  timers : list nat;       (* timeouts set for flushBatchedUpdates, not yet fired *)
  nextTimer : nat;         (* the handle the next setTimeout returns *)
  sent : list (Ws * Frame);                    (* wire trace, oldest first *)
  console : list ConsoleLine                   (* console output, oldest first *)
}.

Definition initial : Server :=
  mkServer ∅ [] [] [] [] None [] 0 [] [].

Definition set_sockets (f : gmap nat Socket.t → gmap nat Socket.t) (σ : Server) : Server :=
  mkServer (f (sockets σ)) (wss_clients σ) (clients σ) (chatHistory σ) (pendingUpdates σ)
           (updateBatchTimer σ) (timers σ) (nextTimer σ) (sent σ) (console σ).
Definition set_wss_clients (f : list Ws → list Ws) (σ : Server) : Server :=
  mkServer (sockets σ) (f (wss_clients σ)) (clients σ) (chatHistory σ) (pendingUpdates σ)
           (updateBatchTimer σ) (timers σ) (nextTimer σ) (sent σ) (console σ).
Definition set_clients (f : list (Ws * ClientData.t) → list (Ws * ClientData.t))
    (σ : Server) : Server :=
  mkServer (sockets σ) (wss_clients σ) (f (clients σ)) (chatHistory σ) (pendingUpdates σ)
           (updateBatchTimer σ) (timers σ) (nextTimer σ) (sent σ) (console σ).
Definition set_chatHistory (f : list ChatEntry.t → list ChatEntry.t) (σ : Server) : Server :=
  mkServer (sockets σ) (wss_clients σ) (clients σ) (f (chatHistory σ)) (pendingUpdates σ)
           (updateBatchTimer σ) (timers σ) (nextTimer σ) (sent σ) (console σ).
Definition set_pendingUpdates (f : list (Ws * list OutMsg) → list (Ws * list OutMsg))
    (σ : Server) : Server :=
  mkServer (sockets σ) (wss_clients σ) (clients σ) (chatHistory σ) (f (pendingUpdates σ))
           (updateBatchTimer σ) (timers σ) (nextTimer σ) (sent σ) (console σ).
Definition set_updateBatchTimer (t : option nat) (σ : Server) : Server :=
  mkServer (sockets σ) (wss_clients σ) (clients σ) (chatHistory σ) (pendingUpdates σ)
           t (timers σ) (nextTimer σ) (sent σ) (console σ).
Definition set_timers (f : list nat → list nat) (σ : Server) : Server :=
  mkServer (sockets σ) (wss_clients σ) (clients σ) (chatHistory σ) (pendingUpdates σ)
           (updateBatchTimer σ) (f (timers σ)) (nextTimer σ) (sent σ) (console σ).
Definition set_nextTimer (n : nat) (σ : Server) : Server :=
  mkServer (sockets σ) (wss_clients σ) (clients σ) (chatHistory σ) (pendingUpdates σ)
           (updateBatchTimer σ) (timers σ) n (sent σ) (console σ).
Definition put_frame (ws : Ws) (f : Frame) (σ : Server) : Server :=
  mkServer (sockets σ) (wss_clients σ) (clients σ) (chatHistory σ) (pendingUpdates σ)
           (updateBatchTimer σ) (timers σ) (nextTimer σ) (sent σ ++ [(ws, f)]) (console σ).
Definition console_write (l : ConsoleLine) (σ : Server) : Server :=
  mkServer (sockets σ) (wss_clients σ) (clients σ) (chatHistory σ) (pendingUpdates σ)
           (updateBatchTimer σ) (timers σ) (nextTimer σ) (sent σ) (console σ ++ [l]).

(** [ws.readyState === WebSocket.OPEN] *)
Definition is_OPEN (ws : Ws) (σ : Server) : bool :=
  match sockets σ !! ws with
  | Some s => bool_decide (Socket.readyState s = OPEN)
  | None => false
  end.

(** [ws.send(data)]: [None] when the call throws.  A frame for a socket that
    is not open never reaches the wire. *)
Definition ws_send (ws : Ws) (data : OutMsg) (σ : Server) : option Server :=
  match sockets σ !! ws with
  | Some s =>
    if Socket.sendThrows s then None
    else Some (if bool_decide (Socket.readyState s = OPEN)
               then put_frame ws (Text data) σ else σ)
  | None => Some σ
  end.

(** ** Immediate broadcast and disconnect handling (lines 73 to 85, 122 to 130)

    [broadcastImmediate] calls [handleClientDisconnect] when a send throws, and
    [handleClientDisconnect] broadcasts in turn.  Every nested call has removed
    one more entry of [clients], so the number of entries bounds the nesting;
    it is the fuel of the recursion, and [handleClientDisconnect_eq] and
    [broadcastImmediate_eq] below show that the functions obtained satisfy the
    equations of the source, with no fuel left in them. *)

Section Broadcast.
Variable disconnect : Ws → Server → Server.

(** One turn of the callback of [clients.forEach] (lines 76 to 83). *)
Definition broadcast_visit (messageStr : OutMsg) (excludeWs : option Ws)
    (ws : Ws) (clientData : ClientData.t) (σ : Server) : Server :=
  if bool_decide (Some ws ≠ excludeWs) && is_OPEN ws σ then
    match ws_send ws messageStr σ with
    | Some σ' => σ'
    | None => disconnect ws (console_write (err_broadcast (ClientData.id clientData)) σ)
    end
  else σ.

(** [clients.forEach]: the entries present when the loop starts, in insertion
    order; one that was deleted before its turn is not visited. *)
Fixpoint broadcast_loop (messageStr : OutMsg) (excludeWs : option Ws)
    (todo : list Ws) (σ : Server) : Server :=
  match todo with
  | [] => σ
  | ws :: rest =>
    broadcast_loop messageStr excludeWs rest
      match Map_get ws (clients σ) with
      | Some clientData => broadcast_visit messageStr excludeWs ws clientData σ
      | None => σ
      end
  end.
End Broadcast.

(** Lines 125 to 127: the two deletions and the log line. *)
Definition forget_client (ws : Ws) (clientData : ClientData.t) (σ : Server) : Server :=
  console_write (log_disconnected (ClientData.id clientData))
    (set_pendingUpdates (Map_delete ws) (set_clients (Map_delete ws) σ)).

Fixpoint handleClientDisconnect_fuel (fuel : nat) (ws : Ws) (σ : Server) : Server :=
  match Map_get ws (clients σ) with
  | Some clientData =>
    match fuel with
    | S fuel' =>
      let σ' := forget_client ws clientData σ in
      broadcast_loop (handleClientDisconnect_fuel fuel')
        (player_left (ClientData.id clientData)) None (Map_keys (clients σ')) σ'
    | 0 => σ
    end
  | None => σ
  end.

Definition handleClientDisconnect (ws : Ws) (σ : Server) : Server :=
  handleClientDisconnect_fuel (length (clients σ)) ws σ.

Definition broadcastImmediate (message : OutMsg) (excludeWs : option Ws) (σ : Server) : Server :=
  broadcast_loop handleClientDisconnect message excludeWs (Map_keys (clients σ)) σ.

(** ** BatchScheduler (lines 53 to 71 and 87 to 105) *)

(** One turn of the callback of [clients.forEach] in [batchBroadcast]
    (lines 60 to 65). *)
Definition enqueue_visit (message : OutMsg) (excludeWs : option Ws) (ws : Ws)
    (σ : Server) : Server :=
  if bool_decide (Some ws ≠ excludeWs) && is_OPEN ws σ then
    let σ' :=
      if Map_has ws (pendingUpdates σ) then σ
      else set_pendingUpdates (Map_set ws []) σ in
    match Map_get ws (pendingUpdates σ') with
    | Some queue => set_pendingUpdates (Map_set ws (queue ++ [message])) σ'
    | None => σ'
    end
  else σ.

(** [setTimeout(flushBatchedUpdates, BATCH_INTERVAL)] *)
Definition setTimeout_flush (σ : Server) : Server :=
  set_updateBatchTimer (Some (nextTimer σ))
    (set_timers (λ ts, ts ++ [nextTimer σ]) (set_nextTimer (S (nextTimer σ)) σ)).

Definition batchBroadcast (message : OutMsg) (excludeWs : option Ws) (priority : bool)
    (σ : Server) : Server :=
  if priority then broadcastImmediate message excludeWs σ
  else
    let σ' := foldl (λ σ ws, enqueue_visit message excludeWs ws σ) σ (Map_keys (clients σ)) in
    match updateBatchTimer σ' with
    | None => setTimeout_flush σ'
    | Some _ => σ'
    end.

(** What [flushBatchedUpdates] hands to [ws.send] for one queue: the message
    itself, an envelope, or nothing for an empty queue. *)
Definition flush_payload (messages : list OutMsg) : option OutMsg :=
  match messages with
  | [] => None
  | [m] => Some m
  | _ :: _ :: _ => Some (batch_update messages)
  end.

(** One turn of the callback of [pendingUpdates.forEach] (lines 89 to 100). *)
Definition flush_visit (ws : Ws) (messages : list OutMsg) (σ : Server) : Server :=
  if is_OPEN ws σ then
    match flush_payload messages with
    | Some data =>
      match ws_send ws data σ with
      | Some σ' => σ'
      | None => handleClientDisconnect ws (console_write err_batch σ)
      end
    | None => σ
    end
  else σ.

(** [pendingUpdates.forEach]; an entry deleted by a disconnect before its
    turn is not visited. *)
Fixpoint flush_loop (todo : list Ws) (σ : Server) : Server :=
  match todo with
  | [] => σ
  | ws :: rest =>
    flush_loop rest
      match Map_get ws (pendingUpdates σ) with
      | Some messages => flush_visit ws messages σ
      | None => σ
      end
  end.

Definition flushBatchedUpdates (σ : Server) : Server :=
  let σ' := flush_loop (Map_keys (pendingUpdates σ)) σ in
  set_updateBatchTimer None (set_pendingUpdates (λ _, []) σ').

(** ** LivenessMonitor (lines 132 to 148) *)

(** [ws.isAlive = b] *)
Definition set_isAlive (ws : Ws) (b : bool) (σ : Server) : Server :=
  set_sockets (alter (λ s, Socket.mk (Socket.readyState s) b (Socket.sendThrows s)) ws) σ.

(** [heartbeat], the [pong] listener: [this.isAlive = true]. *)
Definition heartbeat (this : Ws) (σ : Server) : Server := set_isAlive this true σ.

(** [ws.terminate()]: the library destroys the connection; the socket is
    CLOSING until its [close] event is delivered. *)
Definition ws_terminate (ws : Ws) (σ : Server) : Server :=
  set_sockets
    (alter (λ s, Socket.mk (if bool_decide (Socket.readyState s = CLOSED) then CLOSED else CLOSING)
                           (Socket.isAlive s) (Socket.sendThrows s)) ws) σ.

(** One turn of the callback of [wss.clients.forEach] (lines 138 to 146).
    [ws.ping()] on an open socket puts a ping frame on the wire. *)
Definition sweep_visit (ws : Ws) (σ : Server) : Server :=
  match sockets σ !! ws with
  | Some s =>
    if negb (Socket.isAlive s) then ws_terminate ws (handleClientDisconnect ws σ)
    else
      let σ' := set_isAlive ws false σ in
      if is_OPEN ws σ' then put_frame ws PingFrame σ' else σ'
  | None => σ
  end.

Definition heartbeatInterval (σ : Server) : Server :=
  foldl (λ σ ws, sweep_visit ws σ) σ (wss_clients σ).

(** ** ConnectionRegistry: the [connection] listener (lines 150 to 199) *)

Definition initialState (now : float) : State.t :=
  State.mk (Vec3.mk 0 0 0) 0 false true 0 (Vec3.mk 0 0 0) (Some now) None None.

(** Lines 181 to 186. *)
Definition existingPlayersData (ws : Ws) (σ : Server) : list (string * State.t) :=
  omap (λ '(clientWs, clientData),
          if bool_decide (clientWs ≠ ws)
          then Some (ClientData.id clientData, ClientData.state clientData)
          else None)
       (clients σ).

(** A statement that may throw outside any [try]: the rest of the listener
    does not run. *)
Definition or_abort (r : option Server) (σ : Server) (rest : Server → Server) : Server :=
  match r with
  | Some σ' => rest σ'
  | None => σ
  end.

(** The four arguments [t_state], [t_update], [t_heartbeat] and [t_server] are
    the values of the four calls of [Date.now()], in program order. *)
Definition on_connection (ws : Ws) (clientId : string)
    (t_state t_update t_heartbeat t_server : float) (σ : Server) : Server :=
  let initialState := initialState t_state in
  let σ := set_clients (Map_set ws (ClientData.mk clientId initialState t_update t_heartbeat)) σ in
  let σ := set_isAlive ws true σ in
  let σ := console_write (log_connected clientId (length (clients σ))) σ in
  or_abort (ws_send ws (assign_id clientId initialState t_server) σ) σ (λ σ,
  let existingPlayersData := existingPlayersData ws σ in
  or_abort (if bool_decide (0 < length existingPlayersData)%nat
            then ws_send ws (existing_players existingPlayersData) σ else Some σ) σ (λ σ,
  or_abort (if bool_decide (0 < length (chatHistory σ))%nat
            then ws_send ws (chat_history (chatHistory σ)) σ else Some σ) σ (λ σ,
  broadcastImmediate (player_joined clientId initialState) (Some ws) σ))).

(** ** MessageRouter: the [message] listener (lines 201 to 264) *)

Definition set_lastHeartbeat (now : float) (d : ClientData.t) : ClientData.t :=
  ClientData.mk (ClientData.id d) (ClientData.state d) (ClientData.lastUpdate d) now.

(** Lines 213 and 214: the two properties stamped on [message.state]. *)
Definition stamp (now : float) (s : State.t) : State.t :=
  State.mk (State.position s) (State.rotationY s) (State.isMoving s) (State.isGrounded s)
           (State.velocityY s) (State.velocity s) (State.timestamp s)
           (Some now)
           (Some match State.timestamp s with
                 | Some t => if js_truthy t then t else now
                 | None => now
                 end).

(** Lines 232 to 236. *)
Definition chat_append (chatEntry : ChatEntry.t) (chatHistory : list ChatEntry.t)
    : list ChatEntry.t :=
  let chatHistory := chatHistory ++ [chatEntry] in
  if bool_decide (MAX_CHAT_HISTORY < length chatHistory)%nat then tail chatHistory
  else chatHistory.

Definition validEmotes : list string := ["wave"; "dance"]%string.

(** [messageString] is [None] when [JSON.parse] throws. *)
Definition on_message (ws : Ws) (messageString : option InMsg) (now : float)
    (σ : Server) : Server :=
  match messageString with
  | None => console_write err_process σ
  | Some message =>
    match Map_get ws (clients σ) with
    | None => σ
    | Some senderData =>
      let senderData := set_lastHeartbeat now senderData in
      let σ := set_clients (Map_set ws senderData) σ in
      match message with
      | in_player_update state =>
        if hasSignificantChange (Some (ClientData.state senderData)) state then
          let state := stamp now state in
          let senderData :=
            ClientData.mk (ClientData.id senderData) state now
                          (ClientData.lastHeartbeat senderData) in
          let σ := set_clients (Map_set ws senderData) σ in
          batchBroadcast (player_update (ClientData.id senderData) state) (Some ws) false σ
        else σ
      | in_chat_message message =>
        let chatEntry := ChatEntry.mk (ClientData.id senderData) message now in
        let σ := set_chatHistory (chat_append chatEntry) σ in
        broadcastImmediate (chat_message (ClientData.id senderData) message now) None σ
      | in_emote_command emote =>
        if bool_decide (emote ∈ validEmotes) then
          broadcastImmediate (emote_start (ClientData.id senderData) emote now) None σ
        else σ
      | in_ping timestamp =>
        match ws_send ws (pong timestamp now) σ with
        | Some σ' => σ'
        | None => console_write err_process σ
        end
      | in_other _ => σ
      end
    end
  end.

(** ** The [close] and [error] listeners (lines 266 to 273) *)

Definition on_close (ws : Ws) (σ : Server) : Server := handleClientDisconnect ws σ.

Definition on_error (ws : Ws) (σ : Server) : Server :=
  let name :=
    match Map_get ws (clients σ) with
    | Some clientData =>
      if bool_decide (ClientData.id clientData = ""%string) then "unknown"%string
      else ClientData.id clientData
    | None => "unknown"%string
    end in
  handleClientDisconnect ws (console_write (err_socket name) σ).

(** ** Events and the event loop *)

(** What the runtime can deliver to the program.  [ev_transport] is not a
    listener: it is the transport changing under the program (the peer starts
    the closing handshake, writes begin to fail). *)
Inductive Event : Type :=
| ev_connection (ws : Ws) (clientId : string) (t_state t_update t_heartbeat t_server : float)
| ev_message (ws : Ws) (messageString : option InMsg) (now : float)
| ev_pong (ws : Ws)
| ev_close (ws : Ws)
| ev_error (ws : Ws)
| ev_heartbeat
| ev_flush (timer : nat)
| ev_transport (ws : Ws) (readyState : ReadyState) (sendThrows : bool).

(** The library's part of a new connection: a new open socket object, added
    to [wss.clients].  [isAlive] is not yet set; line 169 sets it before
    anything reads it. *)
Definition accept (ws : Ws) (σ : Server) : Server :=
  set_wss_clients (λ l, l ++ [ws]) (set_sockets (<[ws := Socket.mk OPEN false false]>) σ).

(** The library's part of a [close] event: the socket is CLOSED and leaves
    [wss.clients]. *)
Definition closed (ws : Ws) (σ : Server) : Server :=
  set_wss_clients (filter (λ w, w ≠ ws))
    (set_sockets (alter (λ s, Socket.mk CLOSED (Socket.isAlive s) (Socket.sendThrows s)) ws) σ).

Definition step (e : Event) (σ : Server) : Server :=
  match e with
  | ev_connection ws clientId t_state t_update t_heartbeat t_server =>
    on_connection ws clientId t_state t_update t_heartbeat t_server (accept ws σ)
  | ev_message ws messageString now => on_message ws messageString now σ
  | ev_pong ws => heartbeat ws σ
  | ev_close ws => on_close ws (closed ws σ)
  | ev_error ws => on_error ws σ
  | ev_heartbeat => heartbeatInterval σ
  | ev_flush timer => flushBatchedUpdates (set_timers (filter (λ t, t ≠ timer)) σ)
  | ev_transport ws readyState sendThrows =>
    set_sockets (alter (λ s, Socket.mk readyState (Socket.isAlive s) sendThrows) ws) σ
  end.

(** When an event can happen: a connection brings a new socket object, the
    listeners of a socket exist once it has connected, and a timeout fires
    only if it was set and has not fired. *)
Definition enabled (e : Event) (σ : Server) : Prop :=
  match e with
  | ev_connection ws _ _ _ _ _ => sockets σ !! ws = None
  | ev_message ws _ _ | ev_pong ws | ev_close ws | ev_error ws | ev_transport ws _ _ =>
    is_Some (sockets σ !! ws)
  | ev_heartbeat => True
  | ev_flush timer => timer ∈ timers σ
  end.

Definition run (es : list Event) (σ : Server) : Server := foldl (λ σ e, step e σ) σ es.

Fixpoint enabled_all (es : list Event) (σ : Server) : Prop :=
  match es with
  | [] => True
  | e :: es' => enabled e σ ∧ enabled_all es' (step e σ)
  end.

Inductive reachable : Server → Prop :=
| reachable_initial : reachable initial
| reachable_step e σ : reachable σ → enabled e σ → reachable (step e σ).

(** ** Ids (lines 49 to 51) *)

(** [Math.random().toString(36).substr(2, 6)]: the argument is the base 36
    expansion of the random number, a string such as [0.4fzyo82mvyr]; the id
    is what [substr] finds from position 2 on, six characters at most. *)
Definition generateUniqueId (random36 : string) : string := String.substring 2 6 random36.

(** ** The HTTP responder (lines 15 to 32) *)

(** What the responder hands to [res]: the status of [writeHead], the
    [Content-Type] header when it sets one, and the body given to [end]. *)
Module Response.
Record t : Type := mk {
  statusCode : nat;
  contentType : option string;
  body : string
}.
End Response.

(** The callback of [fs.readFile] (lines 19 to 26); [data] is [None] when the
    read fails.  The boolean tells whether [console.error] was called. *)
Definition on_readFile (data : option string) : Response.t * bool :=
  match data with
  | None => (Response.mk 500 None "Error loading roadblocks.html", true)
  | Some data => (Response.mk 200 (Some "text/html"%string) data, false)
  end.

(** The request listener.  [filePath] is [path.join(__dirname,
    'roadblocks.html')] and [readFile] the file system: what reading a path
    gives, if it succeeds. *)
Definition requestListener (filePath : string) (readFile : string → option string)
    (url : string) : Response.t * bool :=
  if bool_decide (url = "/"%string) || bool_decide (url = "/roadblocks.html"%string)
  then on_readFile (readFile filePath)
  else (Response.mk 404 None "Not Found", false).

(** * Notions used to state the properties *)

(** ** Sockets *)

(** [ws.send] on this socket throws. *)
Definition throws (ws : Ws) (σ : Server) : bool :=
  match sockets σ !! ws with
  | Some s => Socket.sendThrows s
  | None => false
  end.

(** A socket a broadcast disconnects: it is open and its [send] throws. *)
Definition failing (ws : Ws) (σ : Server) : Prop :=
  is_OPEN ws σ = true ∧ throws ws σ = true.

(** A socket that is registered, open and takes writes. *)
Definition survivor (ws : Ws) (σ : Server) : Prop :=
  is_Some (Map_get ws (clients σ)) ∧ is_OPEN ws σ = true ∧ throws ws σ = false.

(** The sockets a broadcast reaches: registered, not the excluded one, open,
    and taking the write. *)
Definition recipient (excludeWs : option Ws) (ws : Ws) (σ : Server) : Prop :=
  Some ws ≠ excludeWs ∧ is_Some (Map_get ws (clients σ))
  ∧ is_OPEN ws σ = true ∧ throws ws σ = false.

(** The last ping of a socket has not been answered: [isAlive] is false. *)
Definition marked (ws : Ws) (σ : Server) : Prop :=
  ∃ s, sockets σ !! ws = Some s ∧ Socket.isAlive s = false.

(** A socket object that is no longer registered, or is marked. *)
Definition unanswered (ws : Ws) (σ : Server) : Prop :=
  ws ∈ dom (sockets σ) ∧ (Map_get ws (clients σ) = None ∨ marked ws σ).

(** ** The wire *)

(** The frames of a trace that went to one socket, in order. *)
Definition frames_to (ws : Ws) (trace : list (Ws * Frame)) : list Frame :=
  omap (λ '(w, f), if decide (w = ws) then Some f else None) trace.

(** The [player_left] notices, and the frames that carry one. *)
Definition is_notice (m : OutMsg) : Prop := ∃ id, m = player_left id.

Definition notice_frame (f : Frame) : Prop := ∃ id, f = Text (player_left id).

(** Among the frames a socket got there is one with [message]; whatever else
    it got are notices of the disconnects the broadcast set off. *)
Definition delivered (message : OutMsg) (frames : list Frame) : Prop :=
  ∃ pre post, frames = pre ++ Text message :: post
              ∧ Forall notice_frame pre ∧ Forall notice_frame post.

(** What a new socket is to be sent first, in order: [assign_id], then
    [existing_players] unless there are none, then [chat_history] unless it is
    empty. *)
Definition greeting (ws : Ws) (clientId : string) (initialState : State.t) (serverTime : float)
    (playersData : list (string * State.t)) (history : list ChatEntry.t) : list (Ws * Frame) :=
  [(ws, Text (assign_id clientId initialState serverTime))]
  ++ (match playersData with [] => [] | _ :: _ => [(ws, Text (existing_players playersData))] end)
  ++ (match history with [] => [] | _ :: _ => [(ws, Text (chat_history history))] end).

(** [{id, state}] of every entry of a registry, in its order. *)
Definition playersData_of (registry : list (Ws * ClientData.t)) : list (string * State.t) :=
  (λ p, (ClientData.id p.2, ClientData.state p.2)) <$> registry.

(** What a flush owes a socket: the payload of its queue, if it has one and
    the socket is open and takes the write. *)
Definition due (ws : Ws) (σ : Server) : option OutMsg :=
  match Map_get ws (pendingUpdates σ) with
  | Some messages =>
    if is_OPEN ws σ && negb (throws ws σ) then flush_payload messages else None
  | None => None
  end.

(** ** Broadcasts and the disconnects they set off *)

(** The three things a broadcast and the disconnects it sets off do to the
    server, one at a time: a frame goes to a registered, open socket whose
    [send] works ([M] says which messages may go to which socket), a line is
    written to the console, a registered socket is forgotten ([V] says which
    may be). *)
Inductive cascade_step (V : Ws → Prop) (M : Ws → OutMsg → Prop) : Server → Server → Prop :=
| cascade_send ws m σ clientData :
    M ws m → Map_get ws (clients σ) = Some clientData →
    is_OPEN ws σ = true → throws ws σ = false →
    cascade_step V M σ (put_frame ws (Text m) σ)
| cascade_console l σ :
    cascade_step V M σ (console_write l σ)
| cascade_forget ws clientData σ :
    V ws → Map_get ws (clients σ) = Some clientData →
    cascade_step V M σ (forget_client ws clientData σ).

(** What broadcasts, flushes, sweeps and disconnects leave alone: the chat
    history, the flush timer, [wss.clients] and the set of socket objects; and
    they add no entry to the registry or to the queues. *)
Definition settled (σ σ' : Server) : Prop :=
  chatHistory σ' = chatHistory σ
  ∧ updateBatchTimer σ' = updateBatchTimer σ
  ∧ timers σ' = timers σ
  ∧ nextTimer σ' = nextTimer σ
  ∧ (∀ ws d, Map_get ws (clients σ') = Some d → Map_get ws (clients σ) = Some d)
  ∧ (∀ ws q, Map_get ws (pendingUpdates σ') = Some q → Map_get ws (pendingUpdates σ) = Some q)
  ∧ wss_clients σ' = wss_clients σ
  ∧ dom (sockets σ') = dom (sockets σ)
  ∧ sublist (Map_keys (clients σ')) (Map_keys (clients σ))
  ∧ sublist (Map_keys (pendingUpdates σ')) (Map_keys (pendingUpdates σ)).

(** From [σ] to [σ'] no entry of the registry was added or changed, the
    sockets that stayed registered are open and take writes as before, and
    every socket that left the registry was announced: each survivor was sent
    [player_left] with its id. *)
Definition announces (σ σ' : Server) : Prop :=
  (∀ w d, Map_get w (clients σ') = Some d →
          Map_get w (clients σ) = Some d
          ∧ is_OPEN w σ = is_OPEN w σ' ∧ throws w σ = throws w σ')
  ∧ ∃ rest, sent σ' = sent σ ++ rest
      ∧ ∀ r d w, Map_get r (clients σ) = Some d → Map_get r (clients σ') = None →
                 survivor w σ' → Text (player_left (ClientData.id d)) ∈ frames_to w rest.

(** The three places that call [handleClientDisconnect] for a socket: the
    [close] listener, the [error] listener, and the liveness sweep (lines 139
    and 140), which terminates the socket as well. *)
Inductive Trigger : Type := by_close | by_error | by_timeout.

Definition trigger (t : Trigger) (ws : Ws) (σ : Server) : Server :=
  match t with
  | by_close => step (ev_close ws) σ
  | by_error => step (ev_error ws) σ
  | by_timeout => ws_terminate ws (handleClientDisconnect ws σ)
  end.

(** How many events of a run take a socket out of the registry. *)
Fixpoint departures (ws : Ws) (es : list Event) (σ : Server) : nat :=
  match es with
  | [] => 0
  | e :: es' =>
    (if Map_has ws (clients σ) && negb (Map_has ws (clients (step e σ))) then 1 else 0)
    + departures ws es' (step e σ)
  end.

(** ** States the server can be in *)

(** What holds of the maps and of [wss.clients] in every state the server
    can be in: keys are not repeated (they are keys of a [Map], members of a
    [Set]), a registered socket is one the library still lists, and a listed
    socket is a socket object. *)
Definition well_formed (σ : Server) : Prop :=
  NoDup (Map_keys (clients σ))
  ∧ NoDup (Map_keys (pendingUpdates σ))
  ∧ NoDup (wss_clients σ)
  ∧ (∀ ws, is_Some (Map_get ws (clients σ)) → ws ∈ wss_clients σ)
  ∧ (∀ ws, ws ∈ wss_clients σ → ws ∈ dom (sockets σ)).

(** The timeouts that are set, as [updateBatchTimer] tells. *)
Definition scheduled (σ : Server) : list nat :=
  match updateBatchTimer σ with
  | Some t => [t]
  | None => []
  end.

(** Whether an event is an update that [hasSignificantChange] lets through:
    the only place that calls [batchBroadcast]. *)
Definition enqueues (e : Event) (σ : Server) : bool :=
  match e with
  | ev_message ws (Some (in_player_update state)) now =>
    match Map_get ws (clients σ) with
    | Some senderData => hasSignificantChange (Some (ClientData.state senderData)) state
    | None => false
    end
  | _ => false
  end.

(** ** ChangeFilter, in the words of its description *)

(** No prior state, or some position axis differs by more than 0.001, or the
    rotation does, or one of the two flags differs.  Differences and
    comparisons are those of JavaScript numbers. *)
Inductive Axis : Type := X | Y | Z.

Definition coord (a : Axis) (v : Vec3.t) : float :=
  match a with
  | X => Vec3.x v
  | Y => Vec3.y v
  | Z => Vec3.z v
  end.

Definition significant_spec (old : option State.t) (new : State.t) : Prop :=
  old = None ∨
  ∃ o, old = Some o ∧
    ((∃ a, js_gt (abs (coord a (State.position o) - coord a (State.position new))) 0.001 = true)
     ∨ js_gt (abs (State.rotationY o - State.rotationY new)) 0.001 = true
     ∨ State.isMoving o ≠ State.isMoving new
     ∨ State.isGrounded o ≠ State.isGrounded new).

(** ** Three concrete states *)

(** A state at position [(px, 0, 0)], otherwise at rest, as a client sends it. *)
Definition state_at (px : float) : State.t :=
  State.mk (Vec3.mk px 0 0) 0 false true 0 (Vec3.mk 0 0 0) (Some 5) None None.

(** Two clients have connected. *)
Definition two_clients : Server :=
  run [ev_connection 1 "ia" 100 100 100 100; ev_connection 2 "ib" 200 200 200 200] initial.

(** The first client has moved, the update is queued for the second, whose
    socket has begun to close before the flush. *)
Definition closing_recipient : Server :=
  run [ev_message 1 (Some (in_player_update (state_at 0.01))) 300;
       ev_transport 2 CLOSING false] two_clients.

(** ** The wire protocol *)

(** An update as [batchBroadcast] is handed it: a [player_update] whose state
    carries the two timestamps of lines 213 and 214. *)
Definition is_player_update (m : OutMsg) : Prop :=
  ∃ id now state, m = player_update id (stamp now state).

(** The three messages a new socket is greeted with. *)
Definition is_greeting (m : OutMsg) : Prop :=
  match m with
  | assign_id _ _ _ | existing_players _ | chat_history _ => True
  | _ => False
  end.

(** A frame that carries [assign_id]. *)
Definition is_assign_id (f : Frame) : Prop :=
  ∃ id initialState serverTime, f = Text (assign_id id initialState serverTime).

(** The messages a client has to be prepared for. *)
Inductive wire_message : OutMsg → Prop :=
| wire_assign_id id initialState serverTime :
    wire_message (assign_id id initialState serverTime)
| wire_existing_players playersData :
    playersData ≠ [] → wire_message (existing_players playersData)
| wire_chat_history history :
    history ≠ [] → (length history ≤ MAX_CHAT_HISTORY)%nat → wire_message (chat_history history)
| wire_player_joined id state : wire_message (player_joined id state)
| wire_player_left id : wire_message (player_left id)
| wire_player_update id now state : wire_message (player_update id (stamp now state))
| wire_batch_update updates :
    (2 ≤ length updates)%nat → Forall is_player_update updates →
    wire_message (batch_update updates)
| wire_chat_message senderId message timestamp :
    wire_message (chat_message senderId message timestamp)
| wire_emote_start playerId emote timestamp :
    emote ∈ validEmotes → wire_message (emote_start playerId emote timestamp)
| wire_pong clientTimestamp serverTimestamp :
    wire_message (pong clientTimestamp serverTimestamp).

Definition wire_frame (f : Frame) : Prop :=
  match f with
  | Text m => wire_message m
  | PingFrame => True
  end.

(** A frame that is not part of a greeting. *)
Definition relay_frame (f : Frame) : Prop :=
  match f with
  | Text m => wire_message m ∧ ¬ is_greeting m
  | PingFrame => True
  end.

(** The greeting an event sends: that of the new socket, for a connection. *)
Definition greets (e : Event) (σ : Server) : list (Ws * Frame) :=
  match e with
  | ev_connection ws clientId t_state _ _ t_server =>
    greeting ws clientId (initialState t_state) t_server
             (playersData_of (clients σ)) (chatHistory σ)
  | _ => []
  end.

(** Every queue belongs to a registered socket, is not empty, and holds
    updates only. *)
Definition queues_ok (σ : Server) : Prop :=
  ∀ ws queue, Map_get ws (pendingUpdates σ) = Some queue →
    is_Some (Map_get ws (clients σ)) ∧ queue ≠ [] ∧ Forall is_player_update queue.

(** From [σ] to [σ'] the socket objects are the same, and what went on the
    wire are frames that belong to no greeting, each for a socket object. *)
Definition relays (σ σ' : Server) : Prop :=
  dom (sockets σ') = dom (sockets σ)
  ∧ ∃ rest, sent σ' = sent σ ++ rest
      ∧ Forall (λ p, relay_frame p.2 ∧ p.1 ∈ dom (sockets σ)) rest.

(** ** Notices and departures *)

(** From [σ] to [σ'] no entry of the registry was added or changed, every
    text frame went to a socket registered in [σ], and each carried a message
    of [A] or a [player_left] that is accounted for: its id is that of
    another socket, registered in [σ] and no longer in [σ']. *)
Definition accounts (A : OutMsg → Prop) (σ σ' : Server) : Prop :=
  (∀ w d, Map_get w (clients σ') = Some d → Map_get w (clients σ) = Some d)
  ∧ ∃ rest, sent σ' = sent σ ++ rest
      ∧ Forall (λ p, ∀ m, p.2 = Text m →
                  is_Some (Map_get p.1 (clients σ))
                  ∧ (A m ∨ ∃ r d, m = player_left (ClientData.id d) ∧ r ≠ p.1
                            ∧ Map_get r (clients σ) = Some d
                            ∧ Map_get r (clients σ') = None)) rest.

(** ** The chat transcript *)

(** The chat entry an event appends: that of a chat message from a registered
    sender. *)
Definition says (e : Event) (σ : Server) : list ChatEntry.t :=
  match e with
  | ev_message ws (Some (in_chat_message message)) now =>
    match Map_get ws (clients σ) with
    | Some senderData => [ChatEntry.mk (ClientData.id senderData) message now]
    | None => []
    end
  | _ => []
  end.

(** Everything said in a run, in order. *)
Fixpoint transcript (es : list Event) (σ : Server) : list ChatEntry.t :=
  match es with
  | [] => []
  | e :: es' => says e σ ++ transcript es' (step e σ)
  end.

(** ** Recipients, in the order they are served *)

(** The sockets a broadcast writes to, in the order of the registry. *)
Definition recipients (excludeWs : option Ws) (σ : Server) : list Ws :=
  filter (λ ws, Some ws ≠ excludeWs ∧ is_OPEN ws σ = true) (Map_keys (clients σ)).

(** The frame a flush writes for one queue, if any. *)
Definition flush_frame (σ : Server) (entry : Ws * list OutMsg) : option (Ws * Frame) :=
  if is_OPEN entry.1 σ then (λ data, (entry.1, Text data)) <$> flush_payload entry.2
  else None.

(** ** Sweeps *)

(** The last ping of a socket has been answered, or it has just connected:
    [isAlive] is true. *)
Definition alive (ws : Ws) (σ : Server) : Prop :=
  ∃ s, sockets σ !! ws = Some s ∧ Socket.isAlive s = true.

(** [n] sweeps, each answered by a pong on [ws] before the next. *)
Definition answered_sweeps (ws : Ws) (n : nat) : list Event :=
  concat (replicate n [ev_heartbeat; ev_pong ws]).

#[global] Instance PingFrame_dec (f : Frame) : Decision (f = PingFrame).
Proof. destruct f; [right; discriminate|left; reflexivity]. Defined.

(** How many pings a trace holds for a socket. *)
Definition pings_to (ws : Ws) (trace : list (Ws * Frame)) : nat :=
  length (filter (λ f, f = PingFrame) (frames_to ws trace)).

(** The socket has answered its last ping and is open: a sweep pings it. *)
Definition answering (ws : Ws) (σ : Server) : bool :=
  match sockets σ !! ws with
  | Some s => Socket.isAlive s && bool_decide (Socket.readyState s = OPEN)
  | None => false
  end.

(** A socket object after a sweep's turn at it: marked, and terminated if it
    was marked already. *)
Definition swept (s : Socket.t) : Socket.t :=
  Socket.mk (if Socket.isAlive s then Socket.readyState s
             else if bool_decide (Socket.readyState s = CLOSED) then CLOSED else CLOSING)
            false (Socket.sendThrows s).

(** ** Notices for one id *)

#[global] Instance notice_dec (id : string) (f : Frame) : Decision (f = Text (player_left id)).
Proof.
  destruct f as [m|]; [|right; discriminate].
  destruct m as [| | | |id'| | | | |]; try (right; discriminate).
  destruct (decide (id' = id)) as [->|Hne]; [left; reflexivity|right; congruence].
Defined.

(** How many times a trace tells a socket that the client [id] has left. *)
Definition notices_to (id : string) (ws : Ws) (trace : list (Ws * Frame)) : nat :=
  length (filter (λ f, f = Text (player_left id)) (frames_to ws trace)).

(** No socket but [ws] is registered under [id]. *)
Definition sole_bearer (id : string) (ws : Ws) (σ : Server) : Prop :=
  ∀ w d, Map_get w (clients σ) = Some d → ClientData.id d = id → w = ws.

(** The event is a connection that is given [id]. *)
Definition assigns (id : string) (e : Event) : Prop :=
  match e with
  | ev_connection _ clientId _ _ _ _ => clientId = id
  | _ => False
  end.

(** 1 if the socket is registered in [σ] and no longer in [σ'], 0 otherwise:
    what one event adds to [departures]. *)
Definition departs (ws : Ws) (σ σ' : Server) : nat :=
  if Map_has ws (clients σ) && negb (Map_has ws (clients σ')) then 1 else 0.

(** One message for each socket of a list. *)
Definition one_each (message : OutMsg) (todo : list Ws) : list (Ws * Frame) :=
  (λ ws, (ws, Text message)) <$> todo.

(** From [σ] to [σ'] no entry of the registry was added or changed, and no
    socket was told that [id] has left more often than the trace [allowed]
    tells it, plus once if [r] left the registry. *)
Definition tallies (id : string) (r : Ws) (allowed : list (Ws * Frame)) (σ σ' : Server) : Prop :=
  (∀ w d, Map_get w (clients σ') = Some d → Map_get w (clients σ) = Some d)
  ∧ ∃ rest, sent σ' = sent σ ++ rest
      ∧ ∀ w, (notices_to id w rest ≤ notices_to id w allowed + departs r σ σ')%nat.

Arguments hasSignificantChange : simpl never.
Arguments handleClientDisconnect : simpl never.
Arguments broadcastImmediate : simpl never.
Arguments ws_send : simpl never.
Arguments is_OPEN : simpl never.
Arguments throws : simpl never.
Arguments batchBroadcast : simpl never.
Arguments flushBatchedUpdates : simpl never.
Arguments heartbeatInterval : simpl never.

(** * Properties *)

(** ** Numbers *)

Lemma float_neq (a b : float) : PrimFloat.eqb a a = true → PrimFloat.eqb a b = false → a ≠ b.
Proof. intros Ha Hab ->. congruence. Qed.

(** The difference of a number with itself is never above a threshold: it is
    [0], or NaN when the number is infinite or NaN. *)
Lemma js_gt_abs_sub_diag (a : float) : js_gt (abs (a - a)) POSITION_THRESHOLD = false.
Proof.
  unfold js_gt. rewrite ltb_spec, abs_spec, sub_spec.
  destruct (Prim2SF a) as [s|s| |s m e]; try destruct s; try reflexivity.
  all: unfold SF64sub, SFsub; cbn -[SFltb SFabs binary_normalize Z.sub Z.min].
  all: rewrite Z.sub_diag; reflexivity.
Qed.

(** ** The [Map] operations *)

Section JsMapFacts.
Context {V : Type}.
Implicit Types (m : list (nat * V)) (k : nat) (v : V).

Lemma Map_get_set_eq k v m : Map_get k (Map_set k v m) = Some v.
Proof.
  induction m as [|[k' v'] m IH]; simpl.
  - by rewrite decide_True.
  - destruct (decide (k' = k)) as [->|Hne]; simpl.
    + by rewrite decide_True.
    + by rewrite decide_False.
Qed.

Lemma Map_get_set_ne k k' v m : k ≠ k' → Map_get k' (Map_set k v m) = Map_get k' m.
Proof.
  intros Hne. induction m as [|[k0 v0] m IH]; simpl.
  - by rewrite decide_False.
  - destruct (decide (k0 = k)) as [->|Hne0]; simpl.
    + by rewrite !decide_False.
    + destruct (decide (k0 = k')); done.
Qed.

Lemma Map_get_delete_eq k m : Map_get k (Map_delete k m) = None.
Proof.
  induction m as [|[k' v'] m IH]; simpl; [done|].
  destruct (decide (k' = k)); simpl; [done|]. by rewrite decide_False.
Qed.

Lemma Map_get_delete_ne k k' m : k ≠ k' → Map_get k' (Map_delete k m) = Map_get k' m.
Proof.
  intros Hne. induction m as [|[k0 v0] m IH]; simpl; [done|].
  destruct (decide (k0 = k)) as [->|Hne0]; simpl.
  - by rewrite decide_False.
  - by rewrite IH.
Qed.

Lemma Map_get_delete_Some k k' v m :
  Map_get k' (Map_delete k m) = Some v → k ≠ k' ∧ Map_get k' m = Some v.
Proof.
  destruct (decide (k = k')) as [->|Hne].
  - by rewrite Map_get_delete_eq.
  - by rewrite Map_get_delete_ne.
Qed.

Lemma Map_delete_absent k m : Map_get k m = None → Map_delete k m = m.
Proof.
  induction m as [|[k' v'] m IH]; simpl; [done|].
  destruct (decide (k' = k)); [done|]. intros H. by rewrite IH.
Qed.

Lemma Map_delete_length k m : length (Map_delete k m) ≤ length m.
Proof.
  induction m as [|[k' v'] m IH]; simpl; [done|].
  destruct (decide (k' = k)); simpl; lia.
Qed.

Lemma Map_delete_length_lt k v m : Map_get k m = Some v → length (Map_delete k m) < length m.
Proof.
  induction m as [|[k' v'] m IH]; simpl; [done|].
  destruct (decide (k' = k)); simpl.
  - intros _. pose proof (Map_delete_length k m). lia.
  - intros H. apply IH in H. lia.
Qed.

Lemma Map_get_Some_keys k v m : Map_get k m = Some v → k ∈ Map_keys m.
Proof.
  unfold Map_keys. induction m as [|[k' v'] m IH]; simpl; [done|].
  destruct (decide (k' = k)) as [->|]; [left|right; auto].
Qed.

Lemma Map_get_None_keys k m : Map_get k m = None ↔ k ∉ Map_keys m.
Proof.
  unfold Map_keys. induction m as [|[k' v'] m IH]; simpl.
  - split; [intros _; apply not_elem_of_nil|done].
  - rewrite not_elem_of_cons. destruct (decide (k' = k)) as [->|Hne].
    + split; [done|]. by intros [? _].
    + rewrite IH. split; [by split|by intros [_ ?]].
Qed.

Lemma Map_keys_set_absent k v m : Map_get k m = None → Map_keys (Map_set k v m) = Map_keys m ++ [k].
Proof.
  unfold Map_keys. induction m as [|[k' v'] m IH]; simpl; [done|].
  destruct (decide (k' = k)); [done|]. intros H. rewrite fmap_cons. f_equal. by apply IH.
Qed.

Lemma Map_keys_set_present k v v' m : Map_get k m = Some v' → Map_keys (Map_set k v m) = Map_keys m.
Proof.
  unfold Map_keys. induction m as [|[k0 v0] m IH]; simpl; [done|].
  destruct (decide (k0 = k)) as [->|]; [done|]. intros H. rewrite fmap_cons. f_equal. by apply IH.
Qed.

Lemma Map_keys_delete k m : Map_keys (Map_delete k m) = filter (λ k', k' ≠ k) (Map_keys m).
Proof.
  unfold Map_keys. induction m as [|[k' v'] m IH]; simpl; [done|].
  destruct (decide (k' = k)) as [->|Hne].
  - rewrite filter_cons_False; [done|]. by intros ?.
  - rewrite filter_cons_True by done. rewrite fmap_cons. f_equal. by apply IH.
Qed.

Lemma Map_keys_NoDup_set k v m : NoDup (Map_keys m) → NoDup (Map_keys (Map_set k v m)).
Proof.
  intros Hnd. destruct (Map_get k m) as [v'|] eqn:Hget.
  - by erewrite Map_keys_set_present.
  - rewrite Map_keys_set_absent by done. apply NoDup_app. split_and!; [done| |apply NoDup_singleton].
    intros k' Hin ->%list_elem_of_singleton. by apply Map_get_None_keys in Hget.
Qed.

Lemma Map_keys_NoDup_delete k m : NoDup (Map_keys m) → NoDup (Map_keys (Map_delete k m)).
Proof. intros Hnd. rewrite Map_keys_delete. by apply NoDup_filter. Qed.

Lemma Map_set_length k v m : length m ≤ length (Map_set k v m).
Proof.
  induction m as [|[k' v'] m IH]; simpl; [lia|].
  destruct (decide (k' = k)); simpl; lia.
Qed.
End JsMapFacts.

(** ** Sending *)

Lemma ws_send_None ws m σ : ws_send ws m σ = None ↔ throws ws σ = true.
Proof.
  unfold ws_send, throws. destruct (sockets σ !! ws) as [s|]; [|done].
  destruct (Socket.sendThrows s); done.
Qed.

Lemma ws_send_OPEN ws m σ :
  is_OPEN ws σ = true → throws ws σ = false → ws_send ws m σ = Some (put_frame ws (Text m) σ).
Proof.
  unfold ws_send, throws, is_OPEN. destruct (sockets σ !! ws) as [s|]; [|done].
  intros -> ->. done.
Qed.

Lemma ws_send_not_OPEN ws m σ :
  is_OPEN ws σ = false → throws ws σ = false → ws_send ws m σ = Some σ.
Proof.
  unfold ws_send, throws, is_OPEN. destruct (sockets σ !! ws) as [s|]; [|done].
  intros -> ->. done.
Qed.

Lemma is_OPEN_sockets ws σ σ' : sockets σ' = sockets σ → is_OPEN ws σ' = is_OPEN ws σ.
Proof. unfold is_OPEN. by intros ->. Qed.

Lemma throws_sockets ws σ σ' : sockets σ' = sockets σ → throws ws σ' = throws ws σ.
Proof. unfold throws. by intros ->. Qed.

(** ** Cascades *)

Section Cascade.
Context (V : Ws → Prop) (M : Ws → OutMsg → Prop).
#[local] Abbreviation steps := (rtc (cascade_step V M)).

Lemma cascade_sockets σ σ' : steps σ σ' → sockets σ' = sockets σ.
Proof. induction 1 as [|σ1 σ2 σ3 Hstep _ IH]; [done|]. rewrite IH. by destruct Hstep. Qed.

Lemma cascade_wss_clients σ σ' : steps σ σ' → wss_clients σ' = wss_clients σ.
Proof. induction 1 as [|σ1 σ2 σ3 Hstep _ IH]; [done|]. rewrite IH. by destruct Hstep. Qed.

Lemma cascade_chatHistory σ σ' : steps σ σ' → chatHistory σ' = chatHistory σ.
Proof. induction 1 as [|σ1 σ2 σ3 Hstep _ IH]; [done|]. rewrite IH. by destruct Hstep. Qed.

Lemma cascade_updateBatchTimer σ σ' : steps σ σ' → updateBatchTimer σ' = updateBatchTimer σ.
Proof. induction 1 as [|σ1 σ2 σ3 Hstep _ IH]; [done|]. rewrite IH. by destruct Hstep. Qed.

Lemma cascade_timers σ σ' : steps σ σ' → timers σ' = timers σ.
Proof. induction 1 as [|σ1 σ2 σ3 Hstep _ IH]; [done|]. rewrite IH. by destruct Hstep. Qed.

Lemma cascade_nextTimer σ σ' : steps σ σ' → nextTimer σ' = nextTimer σ.
Proof. induction 1 as [|σ1 σ2 σ3 Hstep _ IH]; [done|]. rewrite IH. by destruct Hstep. Qed.

(** Entries are deleted, never added or changed. *)
Lemma cascade_clients_Some σ σ' ws d :
  steps σ σ' → Map_get ws (clients σ') = Some d → Map_get ws (clients σ) = Some d.
Proof.
  induction 1 as [|σ1 σ2 σ3 Hstep _ IH]; [done|]. intros H%IH.
  destruct Hstep; simpl in *; try done. by apply Map_get_delete_Some in H as [_ ?].
Qed.

Lemma cascade_pending_Some σ σ' ws q :
  steps σ σ' → Map_get ws (pendingUpdates σ') = Some q → Map_get ws (pendingUpdates σ) = Some q.
Proof.
  induction 1 as [|σ1 σ2 σ3 Hstep _ IH]; [done|]. intros H%IH.
  destruct Hstep; simpl in *; try done. by apply Map_get_delete_Some in H as [_ ?].
Qed.

(** Only the sockets of [V] lose their entries. *)
Lemma cascade_clients_keep σ σ' ws :
  steps σ σ' → ¬ V ws → Map_get ws (clients σ') = Map_get ws (clients σ).
Proof.
  induction 1 as [|σ1 σ2 σ3 Hstep _ IH]; [done|]. intros HV. rewrite IH by done.
  destruct Hstep as [| |w ? ? Hw]; simpl; try done. apply Map_get_delete_ne. by intros ->.
Qed.

Lemma cascade_pending_keep σ σ' ws :
  steps σ σ' → ¬ V ws → Map_get ws (pendingUpdates σ') = Map_get ws (pendingUpdates σ).
Proof.
  induction 1 as [|σ1 σ2 σ3 Hstep _ IH]; [done|]. intros HV. rewrite IH by done.
  destruct Hstep as [| |w ? ? Hw]; simpl; try done. apply Map_get_delete_ne. by intros ->.
Qed.

Lemma cascade_clients_length σ σ' : steps σ σ' → length (clients σ') ≤ length (clients σ).
Proof.
  induction 1 as [|σ1 σ2 σ3 Hstep _ IH]; [done|]. etrans; [exact IH|].
  destruct Hstep; simpl; try done. apply Map_delete_length.
Qed.

Lemma cascade_clients_NoDup σ σ' :
  steps σ σ' → NoDup (Map_keys (clients σ)) → NoDup (Map_keys (clients σ')).
Proof.
  induction 1 as [|σ1 σ2 σ3 Hstep _ IH]; [done|]. intros Hnd. apply IH.
  destruct Hstep; simpl; try done. by apply Map_keys_NoDup_delete.
Qed.

(** The wire trace grows, and only by frames the step relation allows, each
    to a socket that was registered and open at the start. *)
Lemma cascade_sent σ σ' :
  steps σ σ' →
  ∃ rest, sent σ' = sent σ ++ rest ∧
    Forall (λ p, ∃ m d, p.2 = Text m ∧ M p.1 m ∧ Map_get p.1 (clients σ) = Some d ∧
                        is_OPEN p.1 σ = true ∧ throws p.1 σ = false) rest.
Proof.
  induction 1 as [σ|σ1 σ2 σ3 Hstep Hsteps IH].
  - exists []. by rewrite app_nil_r.
  - destruct IH as (rest & Heq & Hall).
    assert (∀ ws d, Map_get ws (clients σ2) = Some d → Map_get ws (clients σ1) = Some d) as Hsub.
    { intros ws0 d0. destruct Hstep; simpl; try done. intros Hd. by apply Map_get_delete_Some in Hd as [_ ?]. }
    assert (sockets σ2 = sockets σ1) as Hsock by (by destruct Hstep).
    assert (Forall (λ p, ∃ m d, p.2 = Text m ∧ M p.1 m ∧ Map_get p.1 (clients σ1) = Some d ∧
                        is_OPEN p.1 σ1 = true ∧ throws p.1 σ1 = false) rest) as Hall'.
    { eapply Forall_impl; [exact Hall|]. intros [w f] (m & d & ? & ? & ? & ? & ?).
      exists m, d. rewrite <-(is_OPEN_sockets _ _ _ Hsock), <-(throws_sockets _ _ _ Hsock).
      split_and!; auto. }
    destruct Hstep as [w m σ d HM Hget Hopen Hthr| |].
    + exists ((w, Text m) :: rest). split.
      * rewrite Heq. simpl. by rewrite <-app_assoc.
      * constructor; [|done]. exists m, d. done.
    + exists rest. done.
    + exists rest. done.
Qed.
End Cascade.

Lemma cascade_mono (V V' : Ws → Prop) (M M' : Ws → OutMsg → Prop) σ σ' :
  (∀ ws, V ws → V' ws) → (∀ ws m, M ws m → M' ws m) →
  rtc (cascade_step V M) σ σ' → rtc (cascade_step V' M') σ σ'.
Proof.
  intros HV HM. induction 1 as [|σ1 σ2 σ3 Hstep _ IH]; [done|].
  eapply rtc_l; [|exact IH]. destruct Hstep; econstructor; eauto.
Qed.

(** ** [broadcastImmediate] and [handleClientDisconnect] are cascades *)

Lemma broadcast_loop_cascade (V : Ws → Prop) (M : Ws → OutMsg → Prop)
    (disconnect : Ws → Server → Server) (message : OutMsg) (excludeWs : option Ws) (σ0 : Server) :
  (∀ ws σ, V ws → sockets σ = sockets σ0 → rtc (cascade_step V M) σ (disconnect ws σ)) →
  (∀ ws, Some ws ≠ excludeWs → M ws message) →
  (∀ ws, failing ws σ0 → V ws) →
  ∀ todo σ, sockets σ = sockets σ0 →
    rtc (cascade_step V M) σ (broadcast_loop disconnect message excludeWs todo σ).
Proof.
  intros Hd HM HV todo. induction todo as [|ws todo IH]; intros σ Hsock; simpl; [done|].
  destruct (Map_get ws (clients σ)) as [clientData|] eqn:Hget; [|by apply IH].
  unfold broadcast_visit.
  destruct (bool_decide (Some ws ≠ excludeWs)) eqn:Hex; simpl; [|by apply IH].
  apply bool_decide_eq_true in Hex.
  destruct (is_OPEN ws σ) eqn:Hopen; [|by apply IH].
  destruct (ws_send ws message σ) as [σ'|] eqn:Hsend.
  - assert (throws ws σ = false) as Hthr.
    { destruct (throws ws σ) eqn:E; [|done]. apply ws_send_None with (m := message) in E. congruence. }
    rewrite ws_send_OPEN in Hsend by done. injection Hsend as <-.
    eapply rtc_l; [by eapply cascade_send; eauto|]. by apply IH.
  - apply ws_send_None in Hsend.
    assert (V ws) as HVws.
    { apply HV. split; [by rewrite <-(is_OPEN_sockets _ _ _ Hsock)|by rewrite <-(throws_sockets _ _ _ Hsock)]. }
    set (σ1 := console_write (err_broadcast (ClientData.id clientData)) σ).
    apply (rtc_l _ _ σ1); [apply cascade_console|].
    assert (sockets σ1 = sockets σ0) as Hsock1 by done.
    etrans; [by apply Hd|]. apply IH.
    by rewrite (cascade_sockets V M _ _ (Hd _ _ HVws Hsock1)).
Qed.

Lemma handleClientDisconnect_fuel_cascade (V : Ws → Prop) (M : Ws → OutMsg → Prop) (σ0 : Server) :
  (∀ ws id, M ws (player_left id)) →
  (∀ ws, failing ws σ0 → V ws) →
  ∀ fuel ws σ, V ws → sockets σ = sockets σ0 →
    rtc (cascade_step V M) σ (handleClientDisconnect_fuel fuel ws σ).
Proof.
  intros HM HV fuel. induction fuel as [|fuel IH]; intros ws σ HVws Hsock; simpl.
  - by destruct (Map_get ws (clients σ)).
  - destruct (Map_get ws (clients σ)) as [clientData|] eqn:Hget; [|done].
    eapply rtc_l; [by eapply cascade_forget|].
    apply broadcast_loop_cascade with (σ0 := σ0); auto.
Qed.

Lemma handleClientDisconnect_fuel_length fuel ws σ :
  length (clients (handleClientDisconnect_fuel fuel ws σ)) ≤ length (clients σ).
Proof.
  eapply cascade_clients_length.
  apply handleClientDisconnect_fuel_cascade
    with (V := λ _, True) (M := λ _ _, True) (σ0 := σ); done.
Qed.

(** The loop does not distinguish two disconnect handlers that agree wherever
    it can call them. *)
Lemma broadcast_loop_ext (d1 d2 : Ws → Server → Server) (bound : nat)
    (message : OutMsg) (excludeWs : option Ws) :
  (∀ ws σ, length (clients σ) ≤ bound → d1 ws σ = d2 ws σ) →
  (∀ ws σ, length (clients (d1 ws σ)) ≤ length (clients σ)) →
  ∀ todo σ, length (clients σ) ≤ bound →
    broadcast_loop d1 message excludeWs todo σ = broadcast_loop d2 message excludeWs todo σ.
Proof.
  intros Heq Hlen todo. induction todo as [|ws todo IH]; intros σ Hb; simpl; [done|].
  destruct (Map_get ws (clients σ)) as [clientData|]; [|by apply IH].
  unfold broadcast_visit.
  destruct (bool_decide (Some ws ≠ excludeWs) && is_OPEN ws σ); [|by apply IH].
  destruct (ws_send ws message σ) as [σ'|] eqn:Hsend.
  - apply IH. unfold ws_send in Hsend. destruct (sockets σ !! ws) as [s|].
    + destruct (Socket.sendThrows s); [done|]. injection Hsend as <-. by destruct (bool_decide _).
    + by injection Hsend as <-.
  - rewrite <-Heq by done. apply IH. etrans; [apply Hlen|done].
Qed.

(** Fuel beyond the number of registered clients changes nothing. *)
Lemma handleClientDisconnect_fuel_enough fuel fuel' ws σ :
  length (clients σ) ≤ fuel → length (clients σ) ≤ fuel' →
  handleClientDisconnect_fuel fuel ws σ = handleClientDisconnect_fuel fuel' ws σ.
Proof.
  revert fuel' ws σ. induction fuel as [|fuel IH]; intros fuel' ws σ Hf Hf'.
  - destruct (clients σ) as [|? ?] eqn:Hc; [|simpl in Hf; lia].
    destruct fuel'; simpl; rewrite Hc; done.
  - simpl. destruct (Map_get ws (clients σ)) as [clientData|] eqn:Hget.
    + pose proof (Map_delete_length_lt _ _ _ Hget) as Hlt.
      destruct fuel' as [|fuel']; [lia|]. simpl. rewrite Hget.
      apply broadcast_loop_ext with (bound := length (clients (forget_client ws clientData σ))).
      * intros w s Hs. simpl in Hs. apply IH; lia.
      * intros w s. apply handleClientDisconnect_fuel_length.
      * done.
    + destruct fuel'; simpl; by rewrite Hget.
Qed.

(** The source's definition of [handleClientDisconnect] (lines 122 to 130). *)
Lemma handleClientDisconnect_eq ws σ :
  handleClientDisconnect ws σ =
  match Map_get ws (clients σ) with
  | Some clientData =>
    broadcastImmediate (player_left (ClientData.id clientData)) None
      (forget_client ws clientData σ)
  | None => σ
  end.
Proof.
  unfold handleClientDisconnect, broadcastImmediate.
  destruct (Map_get ws (clients σ)) as [clientData|] eqn:Hget.
  - pose proof (Map_delete_length_lt _ _ _ Hget) as Hlt.
    destruct (length (clients σ)) as [|n] eqn:Hn; [lia|]. simpl. rewrite Hget.
    apply broadcast_loop_ext with (bound := n).
    + intros w s Hs. apply handleClientDisconnect_fuel_enough; lia.
    + intros w s. apply handleClientDisconnect_fuel_length.
    + simpl. lia.
  - destruct (length (clients σ)); simpl; by rewrite Hget.
Qed.

(** The source's definition of [broadcastImmediate] (lines 73 to 85) is the
    definition above as it stands. *)
Lemma broadcastImmediate_eq message excludeWs σ :
  broadcastImmediate message excludeWs σ =
  broadcast_loop handleClientDisconnect message excludeWs (Map_keys (clients σ)) σ.
Proof. reflexivity. Qed.

Lemma handleClientDisconnect_absent ws σ :
  Map_get ws (clients σ) = None → handleClientDisconnect ws σ = σ.
Proof. intros H. by rewrite handleClientDisconnect_eq, H. Qed.

Lemma handleClientDisconnect_cascade ws σ :
  rtc (cascade_step (λ w, w = ws ∨ failing w σ) (λ _ m, is_notice m)) σ
      (handleClientDisconnect ws σ).
Proof.
  apply handleClientDisconnect_fuel_cascade with (σ0 := σ); try done.
  - intros _ id. by exists id.
  - intros w. by right.
  - by left.
Qed.

Lemma handleClientDisconnect_cascade_failing ws σ :
  failing ws σ →
  rtc (cascade_step (λ w, failing w σ) (λ _ m, is_notice m)) σ (handleClientDisconnect ws σ).
Proof.
  intros Hf. apply handleClientDisconnect_fuel_cascade with (σ0 := σ); try done.
  intros _ id. by exists id.
Qed.

Lemma broadcastImmediate_cascade message excludeWs σ :
  rtc (cascade_step (λ w, failing w σ)
                    (λ w m, (m = message ∧ Some w ≠ excludeWs) ∨ is_notice m))
      σ (broadcastImmediate message excludeWs σ).
Proof.
  apply broadcast_loop_cascade with (σ0 := σ); try done.
  - intros ws s Hf Hs. unfold handleClientDisconnect.
    apply handleClientDisconnect_fuel_cascade with (σ0 := σ); try done.
    intros w id. right. by exists id.
  - intros ws Hne. by left.
Qed.

(** ** ChangeFilter *)

Lemma negb_eqb_true_iff (a b : bool) : negb (Bool.eqb a b) = true ↔ a ≠ b.
Proof. destruct a, b; simpl; split; congruence. Qed.

(** C2. [hasSignificantChange] is true exactly when there is no prior state,
    or a position axis or the rotation differs by more than 0.001, or
    [isMoving] or [isGrounded] differs; it is true for every first update;
    and two states that agree on position, rotation and the two flags are
    never told apart, whatever their velocity, vertical velocity and
    timestamps. *)
Theorem hasSignificantChange_spec :
  (∀ old new, hasSignificantChange old new = true ↔ significant_spec old new)
  ∧ (∀ new, hasSignificantChange None new = true)
  ∧ (∀ o n,
       State.position o = State.position n → State.rotationY o = State.rotationY n →
       State.isMoving o = State.isMoving n → State.isGrounded o = State.isGrounded n →
       hasSignificantChange (Some o) n = false).
Proof.
  split_and!.
  - intros [o|] n; unfold significant_spec, hasSignificantChange; [|by split; [left|]].
    cbv zeta.
    rewrite !orb_true_iff, !negb_eqb_true_iff. split.
    + intros H. right. exists o. split; [done|].
      destruct H as [[[[Hx|Hy]|Hz]|Hr]|[Hm|Hg]]; eauto.
      * left. by exists X.
      * left. by exists Y.
      * left. by exists Z.
    + intros [?|(o' & [= <-] & H)]; [done|].
      destruct H as [[[| |] Ha]|[Hr|[Hm|Hg]]]; simpl in *; eauto 6.
  - done.
  - intros o n Hp Hr Hm Hg. unfold hasSignificantChange. rewrite Hp, Hr, Hm, Hg.
    unfold ROTATION_THRESHOLD. rewrite !js_gt_abs_sub_diag, !Bool.eqb_reflx. done.
Qed.

Lemma hasSignificantChange_false o n :
  hasSignificantChange (Some o) n = false ↔
  (∀ a, js_gt (abs (coord a (State.position o) - coord a (State.position n))) 0.001 = false)
  ∧ js_gt (abs (State.rotationY o - State.rotationY n)) 0.001 = false
  ∧ State.isMoving o = State.isMoving n
  ∧ State.isGrounded o = State.isGrounded n.
Proof.
  unfold hasSignificantChange. cbv zeta.
  rewrite !orb_false_iff, !negb_false_iff, !Bool.eqb_true_iff. split.
  - intros [[[[Hx Hy] Hz] Hr] [Hm Hg]]. split_and!; try done. by intros [| |].
  - intros (Ha & Hr & Hm & Hg). split_and!; try done; [apply (Ha X)|apply (Ha Y)|apply (Ha Z)].
Qed.

(** ** MessageRouter *)

(** C10. A well-formed message on a socket that is not in the registry leaves
    the server as it was: registry, chat history, queues, timers, wire and
    console; in particular a ping gets no pong. *)
Theorem on_message_unregistered ws message now σ :
  Map_get ws (clients σ) = None →
  step (ev_message ws (Some message) now) σ = σ.
Proof. intros H. simpl. unfold on_message. by rewrite H. Qed.

Lemma on_message_unregistered_witness :
  let σ := run [ev_close 1] two_clients in
  Map_get 1 (clients σ) = None ∧ step (ev_message 1 (Some (in_ping (Some 7))) 300) σ = σ.
Proof.
  assert (Map_get 1 (clients (run [ev_close 1] two_clients)) = None) as H by (vm_compute; reflexivity).
  exact (conj H (on_message_unregistered 1 _ 300 _ H)).
Defined.

(** C1, as the code has it.  An update that is not significant puts nothing
    on the wire and nothing in any queue, sets no timer, and leaves the
    sender's stored state as it was: of the whole server only the sender's
    [lastHeartbeat] changes. *)
Theorem insignificant_update_keeps_state ws state now σ senderData :
  Map_get ws (clients σ) = Some senderData →
  hasSignificantChange (Some (ClientData.state senderData)) state = false →
  let σ' := step (ev_message ws (Some (in_player_update state)) now) σ in
  σ' = set_clients (Map_set ws (set_lastHeartbeat now senderData)) σ
  ∧ sent σ' = sent σ
  ∧ pendingUpdates σ' = pendingUpdates σ
  ∧ timers σ' = timers σ
  ∧ (∃ d, Map_get ws (clients σ') = Some d ∧ ClientData.state d = ClientData.state senderData
          ∧ ClientData.lastUpdate d = ClientData.lastUpdate senderData
          ∧ ClientData.lastHeartbeat d = now)
  ∧ (∀ w, w ≠ ws → Map_get w (clients σ') = Map_get w (clients σ)).
Proof.
  intros Hget Hsig σ'. subst σ'. unfold step, on_message. rewrite Hget.
  change (ClientData.state (set_lastHeartbeat now senderData)) with (ClientData.state senderData).
  rewrite Hsig. split_and!; try done.
  - eexists. split; [apply Map_get_set_eq|done].
  - intros w Hne. simpl. by apply Map_get_set_ne.
Qed.

Lemma insignificant_update_keeps_state_witness :
  let σ' := step (ev_message 1 (Some (in_player_update (state_at 0.0005))) 300) two_clients in
  sent σ' = sent two_clients ∧ pendingUpdates σ' = pendingUpdates two_clients.
Proof.
  assert (Map_get 1 (clients two_clients) = Some (ClientData.mk "ia" (initialState 100) 100 100))
    as Hget by (vm_compute; reflexivity).
  assert (hasSignificantChange (Some (initialState 100)) (state_at 0.0005) = false)
    as Hsig by (vm_compute; reflexivity).
  destruct (insignificant_update_keeps_state 1 _ 300 _ _ Hget Hsig) as (_ & H1 & H2 & _).
  exact (conj H1 H2).
Defined.

(** C1 as stated fails: the first client's update to (0.0005, 0, 0) is within
    0.001 of its stored position on every axis, with the same rotation and
    flags, and after it the stored position is still the origin, not the
    position sent. *)
Lemma insignificant_update_not_stored :
  let new := state_at 0.0005 in
  let σ' := step (ev_message 1 (Some (in_player_update new)) 300) two_clients in
  (∃ old, ClientData.state <$> Map_get 1 (clients two_clients) = Some old
          ∧ hasSignificantChange (Some old) new = false)
  ∧ sent σ' = sent two_clients
  ∧ ∃ d, Map_get 1 (clients σ') = Some d
         ∧ ClientData.state d = initialState 100
         ∧ ClientData.state d ≠ new
         ∧ ClientData.state d ≠ stamp 300 new.
Proof.
  split_and!.
  - eexists. split; vm_compute; reflexivity.
  - vm_compute; reflexivity.
  - eexists. split; [vm_compute; reflexivity|]. split; [vm_compute; reflexivity|].
    assert (0 ≠ 0.0005) as Hne by (by apply float_neq).
    split; intros Heq; apply Hne;
      exact (f_equal (λ s, Vec3.x (State.position s)) Heq).
Qed.

(** ** Pong *)

(** C8, as the code has it.  A pong sets the socket's [isAlive] to true and
    touches nothing else: the registry, and with it every [lastHeartbeat],
    is as before. *)
Theorem pong_sets_alive_only ws σ s :
  sockets σ !! ws = Some s →
  let σ' := step (ev_pong ws) σ in
  sockets σ' !! ws = Some (Socket.mk (Socket.readyState s) true (Socket.sendThrows s))
  ∧ (∀ w, w ≠ ws → sockets σ' !! w = sockets σ !! w)
  ∧ clients σ' = clients σ
  ∧ σ' = set_sockets (λ _, sockets σ') σ.
Proof.
  intros Hs. simpl. split_and!; try done.
  - rewrite lookup_alter_eq, Hs. done.
  - intros w Hne. by rewrite lookup_alter_ne.
Qed.

Lemma pong_sets_alive_only_witness :
  let σ := step ev_heartbeat two_clients in
  sockets σ !! 1%nat = Some (Socket.mk OPEN false false)
  ∧ sockets (step (ev_pong 1) σ) !! 1%nat = Some (Socket.mk OPEN true false)
  ∧ clients (step (ev_pong 1) σ) = clients σ.
Proof.
  assert (sockets (step ev_heartbeat two_clients) !! 1%nat = Some (Socket.mk OPEN false false))
    as Hs by (vm_compute; reflexivity).
  destruct (pong_sets_alive_only 1 _ _ Hs) as (H1 & _ & H2 & _).
  exact (conj Hs (conj H1 H2)).
Defined.

(** C8 as stated fails: the first client connected at time 100 and has sent
    nothing; after a pong its [lastHeartbeat] is still 100, whatever the time
    of the pong. *)
Lemma pong_keeps_lastHeartbeat :
  let σ := step ev_heartbeat two_clients in
  let σ' := step (ev_pong 1) σ in
  ClientData.lastHeartbeat <$> Map_get 1 (clients σ) = Some 100
  ∧ ClientData.lastHeartbeat <$> Map_get 1 (clients σ') = Some 100
  ∧ Socket.isAlive <$> sockets σ' !! 1%nat = Some true
  ∧ ∀ now, PrimFloat.ltb 100 now = true →
      ClientData.lastHeartbeat <$> Map_get 1 (clients σ') ≠ Some now.
Proof.
  assert (ClientData.lastHeartbeat <$> Map_get 1 (clients (step (ev_pong 1) (step ev_heartbeat two_clients)))
          = Some 100) as Hhb by (vm_compute; reflexivity).
  split_and!; try (vm_compute; reflexivity).
  intros now Hlt. rewrite Hhb. intros [= Heq]. rewrite <-Heq in Hlt. vm_compute in Hlt. done.
Qed.

(** ** What the handlers leave alone *)

Lemma settled_refl σ : settled σ σ.
Proof. unfold settled. split_and!; done. Qed.

Lemma settled_trans σ1 σ2 σ3 : settled σ1 σ2 → settled σ2 σ3 → settled σ1 σ3.
Proof.
  intros (A1 & A2 & A3 & A4 & A5 & A6 & A7 & A8 & A9 & A10)
         (B1 & B2 & B3 & B4 & B5 & B6 & B7 & B8 & B9 & B10).
  unfold settled. split_and!; try congruence; eauto; by etrans.
Qed.

(** A step that touches the sockets' properties, the wire or the console only. *)
Lemma settled_same σ σ' :
  clients σ' = clients σ → pendingUpdates σ' = pendingUpdates σ →
  chatHistory σ' = chatHistory σ → updateBatchTimer σ' = updateBatchTimer σ →
  timers σ' = timers σ → nextTimer σ' = nextTimer σ → wss_clients σ' = wss_clients σ →
  dom (sockets σ') = dom (sockets σ) → settled σ σ'.
Proof. intros Hc Hp. intros. unfold settled. rewrite Hc, Hp. split_and!; done. Qed.

Lemma cascade_keys V M σ σ' :
  rtc (cascade_step V M) σ σ' →
  sublist (Map_keys (clients σ')) (Map_keys (clients σ))
  ∧ sublist (Map_keys (pendingUpdates σ')) (Map_keys (pendingUpdates σ)).
Proof.
  induction 1 as [|σ1 σ2 σ3 Hstep _ [IH1 IH2]]; [done|].
  split; (etrans; [eassumption|]); destruct Hstep; simpl; try done;
    rewrite Map_keys_delete; apply sublist_filter.
Qed.

Lemma cascade_settled V M σ σ' : rtc (cascade_step V M) σ σ' → settled σ σ'.
Proof.
  intros H. unfold settled. split_and!.
  - by eapply cascade_chatHistory.
  - by eapply cascade_updateBatchTimer.
  - by eapply cascade_timers.
  - by eapply cascade_nextTimer.
  - intros ws d. by eapply cascade_clients_Some.
  - intros ws q. by eapply cascade_pending_Some.
  - by eapply cascade_wss_clients.
  - by rewrite (cascade_sockets _ _ _ _ H).
  - by eapply cascade_keys.
  - by eapply cascade_keys.
Qed.

Lemma handleClientDisconnect_settled ws σ : settled σ (handleClientDisconnect ws σ).
Proof. eapply cascade_settled, handleClientDisconnect_cascade. Qed.

Lemma broadcastImmediate_settled message excludeWs σ :
  settled σ (broadcastImmediate message excludeWs σ).
Proof. eapply cascade_settled, broadcastImmediate_cascade. Qed.

Lemma handleClientDisconnect_sockets ws σ : sockets (handleClientDisconnect ws σ) = sockets σ.
Proof. eapply cascade_sockets, handleClientDisconnect_cascade. Qed.

Lemma handleClientDisconnect_wss_clients ws σ :
  wss_clients (handleClientDisconnect ws σ) = wss_clients σ.
Proof. eapply cascade_wss_clients, handleClientDisconnect_cascade. Qed.

Lemma broadcastImmediate_sockets message excludeWs σ :
  sockets (broadcastImmediate message excludeWs σ) = sockets σ.
Proof. eapply cascade_sockets, broadcastImmediate_cascade. Qed.

Lemma broadcastImmediate_wss_clients message excludeWs σ :
  wss_clients (broadcastImmediate message excludeWs σ) = wss_clients σ.
Proof. eapply cascade_wss_clients, broadcastImmediate_cascade. Qed.

(** A send that returns changes the wire trace at most. *)
Lemma ws_send_Some ws m σ σ' :
  ws_send ws m σ = Some σ' → σ' = σ ∨ (is_OPEN ws σ = true ∧ σ' = put_frame ws (Text m) σ).
Proof.
  unfold ws_send, is_OPEN. destruct (sockets σ !! ws) as [s|]; [|intros [= <-]; by left].
  destruct (Socket.sendThrows s); [done|]. intros [= <-].
  destruct (bool_decide (Socket.readyState s = OPEN)); [by right|by left].
Qed.

Lemma ws_send_settled ws m σ σ' : ws_send ws m σ = Some σ' → settled σ σ'.
Proof. intros [->|[_ ->]]%ws_send_Some; by apply settled_same. Qed.

Lemma flush_visit_settled ws messages σ : settled σ (flush_visit ws messages σ).
Proof.
  unfold flush_visit. destruct (is_OPEN ws σ); [|apply settled_refl].
  destruct (flush_payload messages) as [data|]; [|apply settled_refl].
  destruct (ws_send ws data σ) as [σ'|] eqn:Hsend; [by eapply ws_send_settled|].
  eapply settled_trans; [|apply handleClientDisconnect_settled]. by apply settled_same.
Qed.

Lemma flush_loop_settled todo σ : settled σ (flush_loop todo σ).
Proof.
  revert σ. induction todo as [|ws todo IH]; intros σ; simpl; [apply settled_refl|].
  eapply settled_trans; [|apply IH].
  destruct (Map_get ws (pendingUpdates σ)); [apply flush_visit_settled|apply settled_refl].
Qed.

Lemma sweep_visit_settled ws σ : settled σ (sweep_visit ws σ).
Proof.
  unfold sweep_visit. destruct (sockets σ !! ws) as [s|]; [|apply settled_refl].
  destruct (negb (Socket.isAlive s)).
  - eapply settled_trans; [apply handleClientDisconnect_settled|].
    apply settled_same; try done. simpl. by rewrite dom_alter_L.
  - destruct (is_OPEN ws _); apply settled_same; try done; simpl; by rewrite dom_alter_L.
Qed.

Lemma heartbeatInterval_settled σ : settled σ (heartbeatInterval σ).
Proof.
  unfold heartbeatInterval. generalize (wss_clients σ) as todo. intros todo. revert σ.
  induction todo as [|ws todo IH]; intros σ; simpl; [apply settled_refl|].
  eapply settled_trans; [apply sweep_visit_settled|apply IH].
Qed.

(** A new connection adds one entry to the registry and is otherwise settled. *)
Lemma on_connection_settled ws clientId t1 t2 t3 t4 σ :
  let σ' := on_connection ws clientId t1 t2 t3 t4 σ in
  chatHistory σ' = chatHistory σ ∧ updateBatchTimer σ' = updateBatchTimer σ
  ∧ timers σ' = timers σ ∧ nextTimer σ' = nextTimer σ.
Proof.
  unfold on_connection, or_abort.
  repeat match goal with
  | |- context [ws_send ?w ?m ?s] =>
    let H := fresh "Hsend" in
    destruct (ws_send w m s) as [?|] eqn:H;
    [apply ws_send_settled in H; destruct H as (? & ? & ? & ? & _)|]
  | |- context [bool_decide ?P] => destruct (bool_decide P)
  | |- context [broadcastImmediate ?m ?e ?s] =>
    destruct (broadcastImmediate_settled m e s) as (? & ? & ? & ? & _);
    generalize dependent (broadcastImmediate m e s); intros
  end; simpl in *; split_and!; congruence.
Qed.

Lemma enqueue_settled message excludeWs todo σ :
  let σ' := foldl (λ σ ws, enqueue_visit message excludeWs ws σ) σ todo in
  sockets σ' = sockets σ ∧ clients σ' = clients σ ∧ chatHistory σ' = chatHistory σ
  ∧ updateBatchTimer σ' = updateBatchTimer σ ∧ timers σ' = timers σ
  ∧ nextTimer σ' = nextTimer σ ∧ sent σ' = sent σ ∧ console σ' = console σ
  ∧ wss_clients σ' = wss_clients σ.
Proof.
  revert σ. induction todo as [|ws todo IH]; intros σ; simpl; [done|].
  destruct (IH (enqueue_visit message excludeWs ws σ)) as (E1&E2&E3&E4&E5&E6&E7&E8&E9).
  simpl in *. rewrite E1, E2, E3, E4, E5, E6, E7, E8, E9. clear.
  unfold enqueue_visit. destruct (_ && _); [|done].
  destruct (Map_has ws (pendingUpdates σ)); simpl; destruct (Map_get ws _); done.
Qed.

(** Queueing touches the queues and the timer only. *)
Lemma batchBroadcast_frame message excludeWs σ :
  let σ' := batchBroadcast message excludeWs false σ in
  sockets σ' = sockets σ ∧ clients σ' = clients σ ∧ chatHistory σ' = chatHistory σ
  ∧ sent σ' = sent σ ∧ console σ' = console σ ∧ wss_clients σ' = wss_clients σ.
Proof.
  unfold batchBroadcast.
  pose proof (enqueue_settled message excludeWs (Map_keys (clients σ)) σ) as H.
  simpl in H. destruct H as (E1&E2&E3&_&_&_&E7&E8&E9).
  generalize dependent (foldl (λ σ ws, enqueue_visit message excludeWs ws σ) σ (Map_keys (clients σ))).
  intros σ1 E1 E2 E3 E7 E8 E9. by destruct (updateBatchTimer σ1).
Qed.

(** ** ChatHistory *)

(** The only event that changes the chat history is a chat message from a
    registered sender, and it appends one entry. *)
Lemma step_chatHistory e σ :
  chatHistory (step e σ) =
  match e with
  | ev_message ws (Some (in_chat_message message)) now =>
    match Map_get ws (clients σ) with
    | Some senderData =>
      chat_append (ChatEntry.mk (ClientData.id senderData) message now) (chatHistory σ)
    | None => chatHistory σ
    end
  | _ => chatHistory σ
  end.
Proof.
  destruct e as [ws id t1 t2 t3 t4|ws [message|] now|ws|ws|ws| |t|ws rs th]; simpl; try done.
  - by destruct (on_connection_settled ws id t1 t2 t3 t4 (accept ws σ)) as (-> & _).
  - unfold on_message. destruct (Map_get ws (clients σ)) as [d|]; [|by destruct message].
    destruct message as [state|message|emote|ts|ty]; simpl.
    + destruct (hasSignificantChange _ _); [|done].
      match goal with |- context [batchBroadcast ?m ?x false ?s] =>
        by destruct (batchBroadcast_frame m x s) as (_ & _ & -> & _) end.
    + by destruct (broadcastImmediate_settled (chat_message (ClientData.id d) message now) None
        (set_chatHistory (chat_append (ChatEntry.mk (ClientData.id d) message now))
           (set_clients (Map_set ws (set_lastHeartbeat now d)) σ))) as (-> & _).
    + destruct (bool_decide _); [|done].
      by destruct (broadcastImmediate_settled (emote_start (ClientData.id d) emote now) None
        (set_clients (Map_set ws (set_lastHeartbeat now d)) σ)) as (-> & _).
    + destruct (ws_send _ _ _) as [σ'|] eqn:Hsend; [|done].
      by apply ws_send_settled in Hsend as (-> & _).
    + done.
  - unfold on_close. by destruct (handleClientDisconnect_settled ws (closed ws σ)) as (-> & _).
  - unfold on_error. by destruct (handleClientDisconnect_settled ws
      (console_write (err_socket match Map_get ws (clients σ) with
         | Some clientData => if bool_decide (ClientData.id clientData = ""%string)
                              then "unknown"%string else ClientData.id clientData
         | None => "unknown"%string end) σ)) as (-> & _).
  - by destruct (heartbeatInterval_settled σ) as (-> & _).
  - unfold flushBatchedUpdates. simpl.
    by destruct (flush_loop_settled (Map_keys (pendingUpdates σ))
                   (set_timers (filter (λ t0, t0 ≠ t)) σ)) as (-> & _).
Qed.

Lemma chat_append_below entry history :
  length history < MAX_CHAT_HISTORY → chat_append entry history = history ++ [entry].
Proof.
  intros H. unfold chat_append. rewrite bool_decide_eq_false_2; [done|].
  rewrite length_app. simpl. unfold MAX_CHAT_HISTORY in *. lia.
Qed.

Lemma chat_append_full entry history :
  length history = MAX_CHAT_HISTORY → chat_append entry history = tail history ++ [entry].
Proof.
  intros H. unfold chat_append. rewrite bool_decide_eq_true_2.
  - destruct history; [done|]. done.
  - rewrite length_app. simpl. unfold MAX_CHAT_HISTORY in *. lia.
Qed.

Lemma chat_append_length entry history :
  length history ≤ MAX_CHAT_HISTORY → length (chat_append entry history) ≤ MAX_CHAT_HISTORY.
Proof.
  intros H. destruct (decide (length history = MAX_CHAT_HISTORY)) as [Heq|Hne].
  - rewrite chat_append_full by done. rewrite length_app. simpl.
    unfold MAX_CHAT_HISTORY in *. destruct history; simpl in *; lia.
  - rewrite chat_append_below by lia. rewrite length_app. simpl. lia.
Qed.

(** C4. The chat history never holds more than 25 entries in a state the
    server can be in; a chat message from a registered sender appends its
    entry at the back; below capacity nothing is evicted, and at capacity
    exactly the front entry goes, so the second entry becomes the first and
    the others keep their order. *)
Theorem chatHistory_bounded_fifo :
  (∀ σ, reachable σ → (length (chatHistory σ) ≤ 25)%nat)
  ∧ (∀ ws message now σ senderData,
       Map_get ws (clients σ) = Some senderData →
       chatHistory (step (ev_message ws (Some (in_chat_message message)) now) σ) =
       chat_append (ChatEntry.mk (ClientData.id senderData) message now) (chatHistory σ))
  ∧ (∀ entry history, (length history < 25)%nat → chat_append entry history = history ++ [entry])
  ∧ (∀ entry first second rest,
       length (first :: second :: rest) = 25%nat →
       chat_append entry (first :: second :: rest) = second :: rest ++ [entry]).
Proof.
  split_and!.
  - change 25%nat with MAX_CHAT_HISTORY.
    induction 1 as [|e σ Hr IH Hen]; [simpl; unfold MAX_CHAT_HISTORY; lia|].
    rewrite step_chatHistory.
    destruct e as [| ? [[]|] ?| | | | | |]; try done.
    destruct (Map_get _ _); [|done]. by apply chat_append_length.
  - intros ws message now σ d Hget. by rewrite step_chatHistory, Hget.
  - apply chat_append_below.
  - intros entry first second rest Hlen. by rewrite chat_append_full.
Qed.

(** ** BatchScheduler: the flush timer *)

Lemma batchBroadcast_schedule message excludeWs σ :
  let σ' := batchBroadcast message excludeWs false σ in
  match updateBatchTimer σ with
  | None =>
    updateBatchTimer σ' = Some (nextTimer σ) ∧ timers σ' = timers σ ++ [nextTimer σ]
    ∧ nextTimer σ' = S (nextTimer σ)
  | Some t =>
    updateBatchTimer σ' = Some t ∧ timers σ' = timers σ ∧ nextTimer σ' = nextTimer σ
  end.
Proof.
  unfold batchBroadcast.
  pose proof (enqueue_settled message excludeWs (Map_keys (clients σ)) σ) as H.
  simpl in H. destruct H as (_&_&_&Hu&Ht&Hn&_).
  generalize dependent (foldl (λ σ ws, enqueue_visit message excludeWs ws σ) σ (Map_keys (clients σ))).
  intros σ1 Hu Ht Hn. rewrite Hu. destruct (updateBatchTimer σ) as [t|]; simpl.
  - by rewrite Hu.
  - by rewrite Ht, Hn.
Qed.

Lemma flushBatchedUpdates_schedule σ :
  let σ' := flushBatchedUpdates σ in
  updateBatchTimer σ' = None ∧ timers σ' = timers σ ∧ nextTimer σ' = nextTimer σ
  ∧ pendingUpdates σ' = [].
Proof.
  unfold flushBatchedUpdates. simpl.
  destruct (flush_loop_settled (Map_keys (pendingUpdates σ)) σ) as (_ & _ & -> & -> & _). done.
Qed.

(** An event that does not enqueue sets no timer. *)
Lemma step_schedule_other e σ :
  enqueues e σ = false →
  let σ' := step e σ in
  nextTimer σ' = nextTimer σ ∧
  match e with
  | ev_flush t => updateBatchTimer σ' = None ∧ timers σ' = filter (λ t', t' ≠ t) (timers σ)
  | _ => updateBatchTimer σ' = updateBatchTimer σ ∧ timers σ' = timers σ
  end.
Proof.
  intros Hq.
  destruct e as [ws id t1 t2 t3 t4|ws [message|] now|ws|ws|ws| |t|ws rs th]; simpl; try done.
  - by destruct (on_connection_settled ws id t1 t2 t3 t4 (accept ws σ)) as (_ & -> & -> & ->).
  - unfold on_message. simpl in Hq. destruct (Map_get ws (clients σ)) as [d|]; [|by destruct message].
    destruct message as [state|message|emote|ts|ty]; simpl.
    + change (ClientData.state (set_lastHeartbeat now d)) with (ClientData.state d). by rewrite Hq.
    + by destruct (broadcastImmediate_settled (chat_message (ClientData.id d) message now) None
        (set_chatHistory (chat_append (ChatEntry.mk (ClientData.id d) message now))
           (set_clients (Map_set ws (set_lastHeartbeat now d)) σ))) as (_ & -> & -> & -> & _).
    + destruct (bool_decide _); [|done].
      by destruct (broadcastImmediate_settled (emote_start (ClientData.id d) emote now) None
        (set_clients (Map_set ws (set_lastHeartbeat now d)) σ)) as (_ & -> & -> & -> & _).
    + destruct (ws_send _ _ _) as [σ'|] eqn:Hsend; [|done].
      by apply ws_send_settled in Hsend as (_ & -> & -> & -> & _).
    + done.
  - unfold on_close.
    by destruct (handleClientDisconnect_settled ws (closed ws σ)) as (_ & -> & -> & -> & _).
  - unfold on_error. by destruct (handleClientDisconnect_settled ws
      (console_write (err_socket match Map_get ws (clients σ) with
         | Some clientData => if bool_decide (ClientData.id clientData = ""%string)
                              then "unknown"%string else ClientData.id clientData
         | None => "unknown"%string end) σ)) as (_ & -> & -> & -> & _).
  - by destruct (heartbeatInterval_settled σ) as (_ & -> & -> & -> & _).
  - by destruct (flush_loop_settled (Map_keys (pendingUpdates σ))
                   (set_timers (filter (λ t0, t0 ≠ t)) σ)) as (_ & _ & -> & -> & _).
Qed.

(** An event that enqueues is one call of [batchBroadcast]. *)
Lemma step_schedule_enqueue e σ :
  enqueues e σ = true →
  let σ' := step e σ in
  match updateBatchTimer σ with
  | None =>
    updateBatchTimer σ' = Some (nextTimer σ) ∧ timers σ' = timers σ ++ [nextTimer σ]
  | Some t => updateBatchTimer σ' = Some t ∧ timers σ' = timers σ
  end.
Proof.
  destruct e as [| ws [[state| | | |]|] now| | | | | |]; simpl; try done.
  unfold on_message. destruct (Map_get ws (clients σ)) as [d|]; [|done]. intros Hq.
  change (ClientData.state (set_lastHeartbeat now d)) with (ClientData.state d). rewrite Hq.
  match goal with |- context [batchBroadcast ?m ?x false ?s] =>
    pose proof (batchBroadcast_schedule m x s) as H; simpl in H;
    generalize dependent (batchBroadcast m x false s); intros end.
  destruct (updateBatchTimer σ); destruct H as (? & ? & ?); done.
Qed.

Lemma reachable_timers σ : reachable σ → timers σ = scheduled σ.
Proof.
  induction 1 as [|e σ Hr IH Hen]; [done|]. unfold scheduled in *.
  destruct (enqueues e σ) eqn:Hq.
  - pose proof (step_schedule_enqueue e σ Hq) as H. simpl in H.
    destruct (updateBatchTimer σ) as [t|]; destruct H as [-> ->]; by rewrite IH.
  - pose proof (step_schedule_other e σ Hq) as [_ H]. simpl in H.
    destruct e; try (destruct H as [-> ->]; exact IH).
    destruct H as [-> ->]. simpl in Hen. rewrite IH in *.
    destruct (updateBatchTimer σ) as [t|]; [|by apply elem_of_nil in Hen].
    apply list_elem_of_singleton in Hen as ->.
    rewrite filter_cons_False; [done|]. by intros ?.
Qed.

(** C9. In every state the server can be in, the timeouts set for
    [flushBatchedUpdates] are the one [updateBatchTimer] names, or none:
    never two.  [batchBroadcast] sets a timeout exactly when
    [updateBatchTimer] is null, [flushBatchedUpdates] ends with
    [updateBatchTimer] null and sets none, and no event other than an
    enqueueing update sets one. *)
Theorem one_flush_scheduled :
  (∀ σ, reachable σ → timers σ = scheduled σ ∧ (length (timers σ) ≤ 1)%nat)
  ∧ (∀ message excludeWs σ,
       let σ' := batchBroadcast message excludeWs false σ in
       match updateBatchTimer σ with
       | None => updateBatchTimer σ' = Some (nextTimer σ) ∧ timers σ' = timers σ ++ [nextTimer σ]
       | Some t => updateBatchTimer σ' = Some t ∧ timers σ' = timers σ
       end)
  ∧ (∀ σ, updateBatchTimer (flushBatchedUpdates σ) = None
          ∧ timers (flushBatchedUpdates σ) = timers σ
          ∧ pendingUpdates (flushBatchedUpdates σ) = [])
  ∧ (∀ e σ, enqueues e σ = false →
       match e with
       | ev_flush t =>
         updateBatchTimer (step e σ) = None
         ∧ timers (step e σ) = filter (λ t', t' ≠ t) (timers σ)
       | _ => updateBatchTimer (step e σ) = updateBatchTimer σ ∧ timers (step e σ) = timers σ
       end).
Proof.
  split_and!.
  - intros σ Hr. rewrite (reachable_timers σ Hr). split; [done|].
    unfold scheduled. destruct (updateBatchTimer σ); simpl; lia.
  - intros message excludeWs σ. pose proof (batchBroadcast_schedule message excludeWs σ) as H.
    simpl in *. destruct (updateBatchTimer σ); destruct H as (? & ? & ?); done.
  - intros σ. pose proof (flushBatchedUpdates_schedule σ) as H. simpl in H.
    destruct H as (? & ? & ? & ?). done.
  - intros e σ Hq. by destruct (step_schedule_other e σ Hq) as [_ H].
Qed.

(** ** What a broadcast delivers *)

Lemma frames_to_app ws t1 t2 : frames_to ws (t1 ++ t2) = frames_to ws t1 ++ frames_to ws t2.
Proof. apply omap_app. Qed.

Lemma frames_to_notices ws trace :
  Forall (λ p, notice_frame p.2) trace → Forall notice_frame (frames_to ws trace).
Proof.
  induction 1 as [|[w f] trace Hf _ IH]; [constructor|].
  unfold frames_to. simpl. destruct (decide (w = ws)); [by constructor|done].
Qed.

Lemma frames_to_single_eq ws f : frames_to ws [(ws, f)] = [f].
Proof. unfold frames_to. simpl. by rewrite decide_True. Qed.

Lemma frames_to_single_ne ws w f : w ≠ ws → frames_to ws [(w, f)] = [].
Proof. intros H. unfold frames_to. simpl. by rewrite decide_False. Qed.

Lemma frames_to_not_OPEN ws σ rest :
  Forall (λ p : nat * Frame, is_OPEN p.1 σ = true) rest → is_OPEN ws σ = false →
  frames_to ws rest = [].
Proof.
  intros Hall Hclosed. induction Hall as [|[w f] rest Hp _ IH]; [done|].
  unfold frames_to. simpl in *. destruct (decide (w = ws)) as [->|]; [congruence|exact IH].
Qed.

(** A cascade sends to open sockets only. *)
Lemma cascade_sent_OPEN V M σ σ' :
  rtc (cascade_step V M) σ σ' →
  ∃ rest, sent σ' = sent σ ++ rest ∧ Forall (λ p : nat * Frame, is_OPEN p.1 σ = true) rest.
Proof.
  intros (rest & Heq & Hall)%cascade_sent. exists rest. split; [done|].
  eapply Forall_impl; [exact Hall|]. by intros [w f] (m & d & _ & _ & _ & Ho & _).
Qed.

Lemma cascade_notices V σ σ' :
  rtc (cascade_step V (λ _ m, is_notice m)) σ σ' →
  ∃ rest, sent σ' = sent σ ++ rest ∧ Forall (λ p, notice_frame p.2) rest
          ∧ ∀ ws, frames_to ws rest ≠ [] →
                  is_Some (Map_get ws (clients σ)) ∧ is_OPEN ws σ = true ∧ throws ws σ = false.
Proof.
  intros (rest & Heq & Hall)%cascade_sent. exists rest. split_and!; [done| |].
  - eapply Forall_impl; [exact Hall|]. intros [w f] (m & d & Hf & [id ->] & _). by exists id.
  - intros ws Hne. clear Heq. induction Hall as [|[w f] rest Hp _ IH]; [done|].
    unfold frames_to in Hne. simpl in Hne. destruct (decide (w = ws)) as [->|]; [|by apply IH].
    destruct Hp as (m & d & _ & _ & Hd & Ho & Ht). simpl in *. by rewrite Hd.
Qed.

Lemma recipient_sockets excludeWs ws σ σ' :
  sockets σ' = sockets σ → Map_get ws (clients σ') = Map_get ws (clients σ) →
  recipient excludeWs ws σ → recipient excludeWs ws σ'.
Proof.
  intros Hs Hc (? & ? & ? & ?). unfold recipient.
  by rewrite Hc, (is_OPEN_sockets _ _ _ Hs), (throws_sockets _ _ _ Hs).
Qed.

(** One turn of the loop: the socket gets the message, or it is not a
    recipient and at most notices go out. *)
Lemma broadcast_visit_spec message excludeWs ws clientData σ :
  Map_get ws (clients σ) = Some clientData →
  let σ' := broadcast_visit handleClientDisconnect message excludeWs ws clientData σ in
  sockets σ' = sockets σ
  ∧ (∀ w d, Map_get w (clients σ') = Some d → Map_get w (clients σ) = Some d)
  ∧ (∀ w, ¬ failing w σ → Map_get w (clients σ') = Map_get w (clients σ))
  ∧ ∃ rest, sent σ' = sent σ ++ rest
      ∧ ((recipient excludeWs ws σ ∧ rest = [(ws, Text message)])
         ∨ (¬ recipient excludeWs ws σ ∧ Forall (λ p, notice_frame p.2) rest)).
Proof.
  intros Hget. unfold broadcast_visit.
  assert (∀ s : Server, sockets s = sockets s ∧
    (∀ w d, Map_get w (clients s) = Some d → Map_get w (clients s) = Some d)
    ∧ (∀ w, ¬ failing w s → Map_get w (clients s) = Map_get w (clients s))) as Hrefl by done.
  destruct (bool_decide (Some ws ≠ excludeWs)) eqn:Hex; simpl.
  2:{ apply bool_decide_eq_false in Hex. destruct (Hrefl σ) as (? & ? & ?). split_and!; try done.
      exists []. rewrite app_nil_r. split; [done|]. right. split; [|constructor].
      by intros [? _]. }
  apply bool_decide_eq_true in Hex.
  destruct (is_OPEN ws σ) eqn:Hopen.
  2:{ destruct (Hrefl σ) as (? & ? & ?). split_and!; try done.
      exists []. rewrite app_nil_r. split; [done|]. right. split; [|constructor].
      intros (_ & _ & ? & _). congruence. }
  destruct (throws ws σ) eqn:Hthr.
  - assert (ws_send ws message σ = None) as -> by by apply ws_send_None.
    set (σ1 := console_write (err_broadcast (ClientData.id clientData)) σ).
    assert (failing ws σ1) as Hfail by done.
    pose proof (handleClientDisconnect_cascade_failing ws σ1 Hfail) as Hc.
    split_and!.
    + by rewrite (cascade_sockets _ _ _ _ Hc).
    + intros w d Hd. by apply (cascade_clients_Some _ _ _ _ _ _ Hc) in Hd.
    + intros w Hw. by rewrite (cascade_clients_keep _ _ _ _ _ Hc).
    + destruct (cascade_notices _ _ _ Hc) as (rest & Heq & Hall & _).
      exists rest. split; [done|]. right. split; [|done]. intros (_ & _ & _ & ?). congruence.
  - rewrite ws_send_OPEN by done. split_and!; try done.
    exists [(ws, Text message)]. split; [done|]. left. split; [|done].
    unfold recipient. by rewrite Hget.
Qed.

Lemma broadcast_loop_delivery message excludeWs todo σ :
  NoDup todo →
  let σ' := broadcast_loop handleClientDisconnect message excludeWs todo σ in
  ∃ rest, sent σ' = sent σ ++ rest
    ∧ ∀ ws,
        (ws ∈ todo → recipient excludeWs ws σ → delivered message (frames_to ws rest))
        ∧ (¬ (ws ∈ todo ∧ recipient excludeWs ws σ) → Forall notice_frame (frames_to ws rest)).
Proof.
  revert σ. induction todo as [|w0 todo IH]; intros σ Hnd; simpl.
  { exists []. rewrite app_nil_r. split; [done|]. intros ws. split; [by intros ?%elem_of_nil|].
    intros _. constructor. }
  apply NoDup_cons in Hnd as [Hw0 Hnd].
  destruct (Map_get w0 (clients σ)) as [clientData|] eqn:Hget.
  - pose proof (broadcast_visit_spec message excludeWs w0 clientData σ Hget) as Hv. simpl in Hv.
    destruct Hv as (Hs & Hsub & Hkeep & rest1 & Heq1 & Hcase).
    set (σ1 := broadcast_visit handleClientDisconnect message excludeWs w0 clientData σ) in *.
    destruct (IH σ1 Hnd) as (rest & Heq & Hrest). exists (rest1 ++ rest).
    split; [by rewrite Heq, Heq1, app_assoc|].
    assert (∀ ws, recipient excludeWs ws σ → recipient excludeWs ws σ1) as Hfwd.
    { intros ws Hr. assert (¬ failing ws σ) as Hnf by (destruct Hr as (_&_&_&?); intros [_ ?]; congruence).
      eapply recipient_sockets; [done| |done]. by apply Hkeep. }
    assert (∀ ws, recipient excludeWs ws σ1 → recipient excludeWs ws σ) as Hbwd.
    { intros ws (? & [d Hd] & Ho & Ht). split_and!; try done.
      - apply Hsub in Hd. by rewrite Hd.
      - by rewrite <-(is_OPEN_sockets _ _ _ Hs).
      - by rewrite <-(throws_sockets _ _ _ Hs). }
    intros ws. rewrite frames_to_app. split.
    + intros Hin Hr. apply elem_of_cons in Hin as [->|Hin].
      * destruct Hcase as [[_ ->]|[Hn _]]; [|done].
        rewrite frames_to_single_eq.
        exists [], (frames_to w0 rest). split_and!; [done|constructor|].
        apply Hrest. by intros [? _].
      * assert (ws ≠ w0) as Hne by (by intros ->).
        destruct (proj1 (Hrest ws) Hin (Hfwd _ Hr)) as (pre & post & Hf & Hpre & Hpost).
        exists (frames_to ws rest1 ++ pre), post. split_and!; [by rewrite Hf, app_assoc| |done].
        apply Forall_app. split; [|done].
        destruct Hcase as [[_ ->]|[_ Hall]]; [|by apply frames_to_notices].
        rewrite frames_to_single_ne by done. constructor.
    + intros Hn. apply Forall_app. split.
      * destruct Hcase as [[Hr0 ->]|[_ Hall]]; [|by apply frames_to_notices].
        destruct (decide (w0 = ws)) as [->|Hne].
        -- exfalso. apply Hn. split; [left|done].
        -- rewrite frames_to_single_ne by done. constructor.
      * apply Hrest. intros [Hin Hr]. apply Hn. split; [by right|by apply Hbwd].
  - destruct (IH σ Hnd) as (rest & Heq & Hrest). exists rest. split; [done|].
    intros ws. split.
    + intros Hin Hr. apply elem_of_cons in Hin as [->|Hin]; [|by apply Hrest].
      destruct Hr as (_ & [d Hd] & _). congruence.
    + intros Hn. apply Hrest. intros [Hin Hr]. apply Hn. split; [by right|done].
Qed.

(** A broadcast leaves the sockets alone, removes only failing sockets from
    the registry, and delivers its message once to each recipient. *)
Lemma broadcastImmediate_delivery message excludeWs σ :
  NoDup (Map_keys (clients σ)) →
  let σ' := broadcastImmediate message excludeWs σ in
  ∃ rest, sent σ' = sent σ ++ rest
    ∧ ∀ ws,
        (recipient excludeWs ws σ → delivered message (frames_to ws rest))
        ∧ (¬ recipient excludeWs ws σ → Forall notice_frame (frames_to ws rest)).
Proof.
  intros Hnd. destruct (broadcast_loop_delivery message excludeWs _ σ Hnd) as (rest & Heq & H).
  exists rest. split; [done|]. intros ws. split.
  - intros Hr. apply H; [|done]. destruct Hr as (_ & [d Hd] & _). by eapply Map_get_Some_keys.
  - intros Hn. apply H. by intros [_ ?].
Qed.

(** ** Well-formed states *)

Lemma handleClientDisconnect_gone ws σ :
  Map_get ws (clients (handleClientDisconnect ws σ)) = None
  ∧ (is_Some (Map_get ws (clients σ)) →
     Map_get ws (pendingUpdates (handleClientDisconnect ws σ)) = None).
Proof.
  rewrite handleClientDisconnect_eq. destruct (Map_get ws (clients σ)) as [d|] eqn:Hget.
  - pose proof (broadcastImmediate_cascade (player_left (ClientData.id d)) None
                  (forget_client ws d σ)) as Hc.
    split; [|intros _].
    + destruct (Map_get ws (clients (broadcastImmediate _ _ _))) as [d'|] eqn:Hd; [|done].
      apply (cascade_clients_Some _ _ _ _ _ _ Hc) in Hd. simpl in Hd.
      by rewrite Map_get_delete_eq in Hd.
    + destruct (Map_get ws (pendingUpdates (broadcastImmediate _ _ _))) as [q|] eqn:Hq; [|done].
      apply (cascade_pending_Some _ _ _ _ _ _ Hc) in Hq. simpl in Hq.
      by rewrite Map_get_delete_eq in Hq.
  - split; [done|]. by intros [? ?].
Qed.

Lemma well_formed_settled σ σ' : well_formed σ → settled σ σ' → well_formed σ'.
Proof.
  intros (W1 & W2 & W3 & W4 & W5) (_ & _ & _ & _ & S5 & _ & S7 & S8 & S9 & S10).
  unfold well_formed. rewrite S7, S8. split_and!; try done.
  - exact (sublist_NoDup _ _ W1 S9).
  - exact (sublist_NoDup _ _ W2 S10).
  - intros ws [d Hd]. apply W4. apply S5 in Hd. by rewrite Hd.
Qed.

Lemma well_formed_same σ σ' :
  clients σ' = clients σ → pendingUpdates σ' = pendingUpdates σ →
  wss_clients σ' = wss_clients σ → dom (sockets σ') = dom (sockets σ) →
  well_formed σ → well_formed σ'.
Proof. intros Hc Hp Hw Hd. unfold well_formed. by rewrite Hc, Hp, Hw, Hd. Qed.

Lemma Map_get_set_is_Some {V} k k' (v : V) m :
  is_Some (Map_get k' (Map_set k v m)) → k' = k ∨ is_Some (Map_get k' m).
Proof.
  destruct (decide (k = k')) as [->|Hne]; [by left|]. rewrite Map_get_set_ne by done. by right.
Qed.

Lemma Map_keys_set_registered {V} k (v v' : V) m :
  Map_get k m = Some v' → Map_keys (Map_set k v m) = Map_keys m.
Proof. apply Map_keys_set_present. Qed.

Lemma on_connection_from ws clientId t1 t2 t3 t4 σ :
  ∃ σ1, clients σ1 = Map_set ws (ClientData.mk clientId (initialState t1) t2 t3) (clients σ)
        ∧ pendingUpdates σ1 = pendingUpdates σ ∧ wss_clients σ1 = wss_clients σ
        ∧ dom (sockets σ1) = dom (sockets σ)
        ∧ settled σ1 (on_connection ws clientId t1 t2 t3 t4 σ).
Proof.
  unfold on_connection, or_abort.
  set (σ1 := console_write _ (set_isAlive ws true (set_clients _ σ))).
  exists σ1. split_and!; try done.
  { simpl. by rewrite dom_alter_L. }
  destruct (ws_send ws _ σ1) as [σ2|] eqn:H2; [|apply settled_refl].
  apply ws_send_settled in H2. eapply settled_trans; [exact H2|].
  set (o3 := if bool_decide _ then _ else Some σ2).
  assert (∀ σ3, o3 = Some σ3 → settled σ2 σ3) as H3.
  { intros σ3. unfold o3. destruct (bool_decide _); [apply ws_send_settled|].
    intros [= <-]. apply settled_refl. }
  destruct o3 as [σ3|]; [|apply settled_refl].
  eapply settled_trans; [by apply H3|].
  set (o4 := if bool_decide _ then _ else Some σ3).
  assert (∀ σ4, o4 = Some σ4 → settled σ3 σ4) as H4.
  { intros σ4. unfold o4. destruct (bool_decide _); [apply ws_send_settled|].
    intros [= <-]. apply settled_refl. }
  destruct o4 as [σ4|]; [|apply settled_refl].
  eapply settled_trans; [by apply H4|]. apply broadcastImmediate_settled.
Qed.

Lemma enqueue_pending_NoDup message excludeWs todo σ :
  NoDup (Map_keys (pendingUpdates σ)) →
  NoDup (Map_keys (pendingUpdates (foldl (λ σ ws, enqueue_visit message excludeWs ws σ) σ todo))).
Proof.
  revert σ. induction todo as [|ws todo IH]; intros σ Hnd; simpl; [done|].
  apply IH. unfold enqueue_visit. destruct (_ && _); [|done].
  destruct (Map_has ws (pendingUpdates σ)); simpl.
  - destruct (Map_get ws (pendingUpdates σ)); [|done]. simpl. by apply Map_keys_NoDup_set.
  - rewrite Map_get_set_eq. simpl. by do 2 apply Map_keys_NoDup_set.
Qed.

Lemma batchBroadcast_pending_NoDup message excludeWs σ :
  NoDup (Map_keys (pendingUpdates σ)) →
  NoDup (Map_keys (pendingUpdates (batchBroadcast message excludeWs false σ))).
Proof.
  intros Hnd. unfold batchBroadcast.
  pose proof (enqueue_pending_NoDup message excludeWs (Map_keys (clients σ)) σ Hnd) as H.
  destruct (updateBatchTimer _); done.
Qed.

Lemma on_message_well_formed ws messageString now σ :
  well_formed σ → well_formed (on_message ws messageString now σ).
Proof.
  intros Hwf. unfold on_message. destruct messageString as [message|]; [|by eapply well_formed_same].
  destruct (Map_get ws (clients σ)) as [d|] eqn:Hget; [|done].
  set (σ1 := set_clients (Map_set ws (set_lastHeartbeat now d)) σ).
  assert (well_formed σ1) as Hwf1.
  { destruct Hwf as (W1 & W2 & W3 & W4 & W5). unfold well_formed. simpl. split_and!; try done.
    - by apply Map_keys_NoDup_set.
    - intros w [->|Hw]%Map_get_set_is_Some; apply W4; [by rewrite Hget|done]. }
  destruct message as [state|message|emote|ts|ty]; simpl.
  - destruct (hasSignificantChange _ _); [|done].
    match goal with |- well_formed (batchBroadcast ?m ?x false ?s) =>
      pose proof (batchBroadcast_frame m x s) as H; simpl in H;
      destruct H as (Hs & Hc & _ & _ & _ & Hw);
      pose proof (batchBroadcast_pending_NoDup m x s) as Hp; simpl in Hp end.
    destruct Hwf1 as (W1 & W2 & W3 & W4 & W5). unfold well_formed.
    rewrite Hs, Hc, Hw. simpl in *. split_and!; try done.
    + by apply Map_keys_NoDup_set.
    + by apply Hp.
    + intros w [->|Hw']%Map_get_set_is_Some; apply W4; [|done].
      by rewrite Map_get_set_eq.
  - eapply well_formed_settled; [|apply broadcastImmediate_settled]. by eapply well_formed_same.
  - destruct (bool_decide _); [|done].
    eapply well_formed_settled; [|apply broadcastImmediate_settled]. done.
  - destruct (ws_send _ _ _) as [σ'|] eqn:Hsend.
    + eapply well_formed_settled; [|by eapply ws_send_settled]. done.
    + by eapply well_formed_same.
  - done.
Qed.

Lemma step_well_formed e σ : well_formed σ → enabled e σ → well_formed (step e σ).
Proof.
  intros Hwf Hen.
  destruct e as [ws id t1 t2 t3 t4|ws messageString now|ws|ws|ws| |t|ws rs th]; simpl.
  - destruct (on_connection_from ws id t1 t2 t3 t4 (accept ws σ)) as (σ1 & Hc & Hp & Hw & Hd & Hs).
    eapply well_formed_settled; [|exact Hs]. simpl in *.
    destruct Hwf as (W1 & W2 & W3 & W4 & W5). unfold well_formed. rewrite Hc, Hp, Hw, Hd.
    assert (ws ∉ wss_clients σ) as Hfresh.
    { intros Hin%W5. apply elem_of_dom in Hin. rewrite Hen in Hin. by destruct Hin. }
    split_and!; try done.
    + by apply Map_keys_NoDup_set.
    + apply NoDup_app. split_and!; [done| |apply NoDup_singleton].
      intros w Hin ->%list_elem_of_singleton. done.
    + intros w [->|Hw']%Map_get_set_is_Some; apply elem_of_app; [right; by left|left; by apply W4].
    + intros w [Hin| ->%list_elem_of_singleton]%elem_of_app; rewrite dom_insert_L;
        apply elem_of_union; [right; by apply W5|left; by apply elem_of_singleton].
  - by apply on_message_well_formed.
  - eapply well_formed_same; [..|exact Hwf]; try done. unfold heartbeat. simpl. by rewrite dom_alter_L.
  - unfold on_close. pose proof (handleClientDisconnect_settled ws (closed ws σ)) as Hs.
    destruct (handleClientDisconnect_gone ws (closed ws σ)) as [Hgone _].
    destruct Hwf as (W1 & W2 & W3 & W4 & W5).
    destruct Hs as (_ & _ & _ & _ & S5 & _ & S7 & S8 & S9 & S10). simpl in *.
    unfold well_formed. rewrite S7, S8. simpl. split_and!.
    + exact (sublist_NoDup _ _ W1 S9).
    + exact (sublist_NoDup _ _ W2 S10).
    + by apply NoDup_filter.
    + intros w [d Hd]. apply list_elem_of_filter. split.
      * intros ->. congruence.
      * apply W4. apply S5 in Hd. by rewrite Hd.
    + intros w [_ Hin]%list_elem_of_filter. rewrite dom_alter_L. by apply W5.
  - unfold on_error. eapply well_formed_settled; [|apply handleClientDisconnect_settled].
    by eapply well_formed_same.
  - eapply well_formed_settled; [exact Hwf|apply heartbeatInterval_settled].
  - unfold flushBatchedUpdates.
    pose proof (flush_loop_settled (Map_keys (pendingUpdates (set_timers (filter (λ t0, t0 ≠ t)) σ)))
                  (set_timers (filter (λ t0, t0 ≠ t)) σ)) as Hs.
    assert (well_formed (set_timers (filter (λ t0, t0 ≠ t)) σ)) as Hwf' by by eapply well_formed_same.
    pose proof (well_formed_settled _ _ Hwf' Hs) as (W1 & W2 & W3 & W4 & W5).
    unfold well_formed. simpl. split_and!; try done. constructor.
  - eapply well_formed_same; [..|exact Hwf]; try done. simpl. by rewrite dom_alter_L.
Qed.

Lemma reachable_well_formed σ : reachable σ → well_formed σ.
Proof.
  induction 1 as [|e σ Hr IH Hen]; [|by apply step_well_formed].
  unfold well_formed. simpl. split_and!; try constructor.
  - by intros ws [? ?].
  - by intros ws ?%elem_of_nil.
Qed.

(** ** ConnectionRegistry: disconnect *)

(** A cascade sends nothing to a socket that is not registered when it starts. *)
Lemma cascade_frames_registered V M σ σ' ws rest :
  rtc (cascade_step V M) σ σ' → sent σ' = sent σ ++ rest →
  Map_get ws (clients σ) = None → frames_to ws rest = [].
Proof.
  intros (rest' & Heq & Hall)%cascade_sent Heq' Hnone.
  rewrite Heq in Heq'. apply app_inv_head in Heq' as ->. clear Heq.
  induction Hall as [|[w f] rest Hp _ IH]; [done|].
  unfold frames_to. simpl. destruct (decide (w = ws)) as [->|]; [|exact IH].
  destruct Hp as (_ & d & _ & _ & Hd & _). simpl in Hd. congruence.
Qed.

Lemma trigger_gone t ws σ : Map_get ws (clients (trigger t ws σ)) = None.
Proof. destruct t; simpl; unfold on_close, on_error; apply handleClientDisconnect_gone. Qed.

Lemma trigger_absent t ws σ :
  Map_get ws (clients σ) = None →
  let σ' := trigger t ws σ in
  clients σ' = clients σ ∧ pendingUpdates σ' = pendingUpdates σ ∧ sent σ' = sent σ
  ∧ chatHistory σ' = chatHistory σ.
Proof.
  intros Hnone. destruct t; simpl; unfold on_close, on_error;
    rewrite handleClientDisconnect_absent by done; done.
Qed.

(** C6. [handleClientDisconnect] does nothing for a socket that is not
    registered.  For a registered one it removes the socket from the registry,
    drops its queue, and broadcasts [player_left] with its id at once: every
    other registered socket that is open and takes the write gets that notice,
    and the socket itself gets nothing.  After a first trigger (close, error
    or timeout) the socket is no longer registered, and any further triggers
    for it change neither the registry, the queues, the chat history nor the
    wire: removal and notice happen once. *)
Theorem disconnect_once ws σ :
  (Map_get ws (clients σ) = None → handleClientDisconnect ws σ = σ)
  ∧ (∀ clientData,
       Map_get ws (clients σ) = Some clientData → NoDup (Map_keys (clients σ)) →
       let σ' := handleClientDisconnect ws σ in
       Map_get ws (clients σ') = None
       ∧ Map_get ws (pendingUpdates σ') = None
       ∧ σ' = broadcastImmediate (player_left (ClientData.id clientData)) None
                (forget_client ws clientData σ)
       ∧ ∃ rest, sent σ' = sent σ ++ rest
           ∧ frames_to ws rest = []
           ∧ ∀ w, w ≠ ws → recipient None w σ →
                  delivered (player_left (ClientData.id clientData)) (frames_to w rest))
  ∧ (∀ t ts,
       let σ1 := trigger t ws σ in
       let σn := foldl (λ σ t, trigger t ws σ) σ1 ts in
       Map_get ws (clients σ1) = None
       ∧ clients σn = clients σ1 ∧ pendingUpdates σn = pendingUpdates σ1
       ∧ chatHistory σn = chatHistory σ1 ∧ sent σn = sent σ1).
Proof.
  split_and!.
  - apply handleClientDisconnect_absent.
  - intros d Hget Hnd. cbv zeta.
    destruct (handleClientDisconnect_gone ws σ) as [Hg1 Hg2].
    split_and!; [done|apply Hg2; by rewrite Hget|by rewrite handleClientDisconnect_eq, Hget|].
    rewrite handleClientDisconnect_eq, Hget.
    set (σ0 := forget_client ws d σ).
    assert (NoDup (Map_keys (clients σ0))) as Hnd0 by by apply Map_keys_NoDup_delete.
    destruct (broadcastImmediate_delivery (player_left (ClientData.id d)) None σ0 Hnd0)
      as (rest & Heq & Hdel).
    exists rest. split_and!; [done| |].
    + eapply cascade_frames_registered; [apply broadcastImmediate_cascade|exact Heq|].
      simpl. apply Map_get_delete_eq.
    + intros w Hne (Hex & Hreg & Hopen & Hthr). apply Hdel. split_and!; try done.
      simpl. by rewrite Map_get_delete_ne.
  - intros t ts. cbv zeta. pose proof (trigger_gone t ws σ) as Hgone.
    split; [done|]. generalize dependent (trigger t ws σ). intros σ1 Hgone.
    induction ts as [|t' ts IH] using rev_ind; [done|].
    rewrite foldl_app. simpl. destruct IH as (E1 & E2 & E3 & E4).
    destruct (trigger_absent t' ws (foldl (λ σ t, trigger t ws σ) σ1 ts)) as (F1 & F2 & F3 & F4).
    { by rewrite E1. }
    split_and!; congruence.
Qed.

(** ** Which events touch what *)

Lemma flush_loop_sockets todo σ : sockets (flush_loop todo σ) = sockets σ.
Proof.
  revert σ. induction todo as [|ws todo IH]; intros σ; simpl; [done|]. rewrite IH.
  destruct (Map_get ws (pendingUpdates σ)) as [messages|]; [|done].
  unfold flush_visit. destruct (is_OPEN ws σ); [|done].
  destruct (flush_payload messages) as [data|]; [|done].
  destruct (ws_send ws data σ) as [σ'|] eqn:Hsend.
  - by apply ws_send_Some in Hsend as [->|[_ ->]].
  - by rewrite handleClientDisconnect_sockets.
Qed.

Lemma on_message_sockets ws messageString now σ :
  sockets (on_message ws messageString now σ) = sockets σ.
Proof.
  unfold on_message. destruct messageString as [message|]; [|done].
  destruct (Map_get ws (clients σ)) as [d|]; [|done].
  destruct message as [state|message|emote|ts|ty]; simpl.
  - destruct (hasSignificantChange _ _); [|done].
    match goal with |- context [batchBroadcast ?m ?x false ?s] =>
      by destruct (batchBroadcast_frame m x s) as (-> & _) end.
  - by rewrite broadcastImmediate_sockets.
  - destruct (bool_decide _); [|done]. by rewrite broadcastImmediate_sockets.
  - destruct (ws_send _ _ _) as [σ'|] eqn:Hsend; [|done].
    by apply ws_send_Some in Hsend as [->|[_ ->]].
  - done.
Qed.

Lemma on_message_registered ws messageString now σ w :
  is_Some (Map_get w (clients (on_message ws messageString now σ))) →
  is_Some (Map_get w (clients σ)).
Proof.
  unfold on_message. destruct messageString as [message|]; [|done].
  destruct (Map_get ws (clients σ)) as [d|] eqn:Hget; [|done].
  assert (∀ d', is_Some (Map_get w (Map_set ws d' (clients σ))) → is_Some (Map_get w (clients σ)))
    as Hset.
  { intros d' [->|?]%Map_get_set_is_Some; [by rewrite Hget|done]. }
  destruct message as [state|message|emote|ts|ty]; simpl.
  - destruct (hasSignificantChange _ _); [|by apply Hset].
    match goal with |- context [batchBroadcast ?m ?x false ?s] =>
      destruct (batchBroadcast_frame m x s) as (_ & -> & _) end.
    simpl. intros [->|?]%Map_get_set_is_Some; [by rewrite Hget|by eapply Hset].
  - intros [d' Hd']. eapply broadcastImmediate_settled in Hd'. simpl in Hd'.
    eapply Hset. by rewrite Hd'.
  - destruct (bool_decide _); [|by apply Hset].
    intros [d' Hd']. eapply broadcastImmediate_settled in Hd'. simpl in Hd'.
    eapply Hset. by rewrite Hd'.
  - destruct (ws_send _ _ _) as [σ'|] eqn:Hsend; [|by apply Hset].
    apply ws_send_Some in Hsend as [->|[_ ->]]; by apply Hset.
  - by apply Hset.
Qed.

Lemma on_connection_sockets ws clientId t1 t2 t3 t4 σ :
  sockets (on_connection ws clientId t1 t2 t3 t4 σ) = sockets (set_isAlive ws true σ).
Proof.
  unfold on_connection, or_abort.
  repeat match goal with
  | |- context [ws_send ?w ?m ?s] =>
    let H := fresh "Hsend" in
    destruct (ws_send w m s) as [?|] eqn:H;
    [apply ws_send_Some in H as [->|[_ ->]]|]
  | |- context [bool_decide ?P] => destruct (bool_decide P)
  end; rewrite ?broadcastImmediate_sockets; done.
Qed.

(** Only a connection registers a socket. *)
Lemma step_registered e σ w :
  is_Some (Map_get w (clients (step e σ))) →
  is_Some (Map_get w (clients σ)) ∨ ∃ id t1 t2 t3 t4, e = ev_connection w id t1 t2 t3 t4.
Proof.
  destruct e as [ws id t1 t2 t3 t4|ws messageString now|ws|ws|ws| |t|ws rs th]; simpl.
  - destruct (on_connection_from ws id t1 t2 t3 t4 (accept ws σ)) as (σ1 & Hc & _ & _ & _ & Hs).
    intros [d Hd]. apply Hs in Hd. rewrite Hc in Hd. simpl in Hd.
    destruct (decide (ws = w)) as [->|Hne]; [right; eauto 10|].
    rewrite Map_get_set_ne in Hd by done. left. by rewrite Hd.
  - intros H. left. by eapply on_message_registered.
  - by left.
  - intros [d Hd]. apply (handleClientDisconnect_settled ws (closed ws σ)) in Hd.
    simpl in Hd. left. by rewrite Hd.
  - intros [d Hd]. unfold on_error in Hd. eapply handleClientDisconnect_settled in Hd.
    simpl in Hd. left. by rewrite Hd.
  - intros [d Hd]. apply heartbeatInterval_settled in Hd. left. by rewrite Hd.
  - intros [d Hd]. unfold flushBatchedUpdates in Hd. simpl in Hd.
    eapply flush_loop_settled in Hd. simpl in Hd. left. by rewrite Hd.
  - by left.
Qed.

Lemma step_sockets_dom e σ w : w ∈ dom (sockets σ) → w ∈ dom (sockets (step e σ)).
Proof.
  destruct e as [ws id t1 t2 t3 t4|ws messageString now|ws|ws|ws| |t|ws rs th]; simpl.
  - rewrite on_connection_sockets. simpl. rewrite dom_alter_L, dom_insert_L.
    intros ?. apply elem_of_union. by right.
  - by rewrite on_message_sockets.
  - by rewrite dom_alter_L.
  - unfold on_close. rewrite handleClientDisconnect_sockets. simpl. by rewrite dom_alter_L.
  - unfold on_error. by rewrite handleClientDisconnect_sockets.
  - by destruct (heartbeatInterval_settled σ) as (_&_&_&_&_&_&_& -> &_).
  - unfold flushBatchedUpdates. simpl. by rewrite flush_loop_sockets.
  - by rewrite dom_alter_L.
Qed.

(** ** LivenessMonitor *)

Lemma sweep_visit_other w ws σ : w ≠ ws → sockets (sweep_visit w σ) !! ws = sockets σ !! ws.
Proof.
  intros Hne. unfold sweep_visit. destruct (sockets σ !! w) as [s|]; [|done].
  destruct (negb (Socket.isAlive s)); simpl.
  - rewrite lookup_alter_ne by done. by rewrite handleClientDisconnect_sockets.
  - destruct (is_OPEN w _); simpl; by rewrite lookup_alter_ne.
Qed.

Lemma sweep_visit_gone w ws σ :
  Map_get ws (clients σ) = None → Map_get ws (clients (sweep_visit w σ)) = None.
Proof.
  intros Hnone. destruct (Map_get ws (clients (sweep_visit w σ))) as [d|] eqn:Hd; [|done].
  apply sweep_visit_settled in Hd. congruence.
Qed.

(** A sweep's turn at a marked socket: disconnect handling, then
    [terminate]. *)
Lemma sweep_visit_marked ws σ :
  marked ws σ →
  sweep_visit ws σ = ws_terminate ws (handleClientDisconnect ws σ)
  ∧ Map_get ws (clients (sweep_visit ws σ)) = None
  ∧ is_OPEN ws (sweep_visit ws σ) = false
  ∧ marked ws (sweep_visit ws σ).
Proof.
  intros (s & Hs & Ha). unfold sweep_visit. rewrite Hs, Ha. simpl. split_and!.
  - done.
  - apply handleClientDisconnect_gone.
  - unfold is_OPEN. simpl. rewrite lookup_alter_eq, handleClientDisconnect_sockets, Hs. simpl.
    destruct (bool_decide (Socket.readyState s = CLOSED)); done.
  - exists (Socket.mk (if bool_decide (Socket.readyState s = CLOSED) then CLOSED else CLOSING)
                      false (Socket.sendThrows s)).
    simpl. rewrite lookup_alter_eq, handleClientDisconnect_sockets, Hs. simpl. by rewrite Ha.
Qed.

(** A sweep's turn at a socket that answered: it is marked and, if open,
    pinged; the registry is not touched. *)
Lemma sweep_visit_alive ws σ s :
  sockets σ !! ws = Some s → Socket.isAlive s = true →
  marked ws (sweep_visit ws σ)
  ∧ clients (sweep_visit ws σ) = clients σ
  ∧ sent (sweep_visit ws σ) =
    sent σ ++ (if bool_decide (Socket.readyState s = OPEN) then [(ws, PingFrame)] else []).
Proof.
  intros Hs Ha. unfold sweep_visit. rewrite Hs, Ha. simpl.
  assert (is_OPEN ws (set_isAlive ws false σ) = bool_decide (Socket.readyState s = OPEN)) as ->.
  { unfold is_OPEN. simpl. by rewrite lookup_alter_eq, Hs. }
  destruct (bool_decide (Socket.readyState s = OPEN)); simpl; split_and!;
    rewrite ?app_nil_r; try done;
    exists (Socket.mk (Socket.readyState s) false (Socket.sendThrows s));
    simpl; by rewrite lookup_alter_eq, Hs.
Qed.

Lemma sweep_marks ws todo σ :
  ws ∈ dom (sockets σ) →
  Map_get ws (clients σ) = None ∨ marked ws σ ∨ ws ∈ todo →
  let σ' := foldl (λ σ w, sweep_visit w σ) σ todo in
  Map_get ws (clients σ') = None ∨ marked ws σ'.
Proof.
  revert σ. induction todo as [|w todo IH]; intros σ Hdom Hcase; simpl.
  { destruct Hcase as [?|[?|[]%elem_of_nil]]; auto. }
  assert (ws ∈ dom (sockets (sweep_visit w σ))) as Hdom'.
  { by destruct (sweep_visit_settled w σ) as (_&_&_&_&_&_&_& -> &_). }
  apply IH; [done|].
  destruct Hcase as [Hgone|[Hm|Hin]].
  - left. by apply sweep_visit_gone.
  - destruct (decide (w = ws)) as [->|Hne].
    + left. by apply sweep_visit_marked.
    + right. left. destruct Hm as (s & Hs & Ha). exists s. by rewrite sweep_visit_other.
  - apply elem_of_cons in Hin as [->|Hin]; [|auto].
    apply elem_of_dom in Hdom as [s Hs]. destruct (Socket.isAlive s) eqn:Ha.
    + right. left. by eapply sweep_visit_alive.
    + left. apply sweep_visit_marked. by exists s.
Qed.

Lemma sweep_evicts ws todo σ :
  Map_get ws (clients σ) = None ∨ (marked ws σ ∧ ws ∈ todo) →
  let σ' := foldl (λ σ w, sweep_visit w σ) σ todo in
  Map_get ws (clients σ') = None.
Proof.
  revert σ. induction todo as [|w todo IH]; intros σ Hcase; simpl.
  { destruct Hcase as [?|[_ []%elem_of_nil]]; auto. }
  apply IH. destruct Hcase as [Hgone|[Hm Hin]].
  - left. by apply sweep_visit_gone.
  - destruct (decide (w = ws)) as [->|Hne].
    + left. by apply sweep_visit_marked.
    + apply elem_of_cons in Hin as [->|Hin]; [done|]. right. split; [|done].
      destruct Hm as (s & Hs & Ha). exists s. by rewrite sweep_visit_other.
Qed.

Lemma sweep_terminates ws todo σ :
  (marked ws σ ∧ is_OPEN ws σ = false) ∨ (marked ws σ ∧ ws ∈ todo) →
  let σ' := foldl (λ σ w, sweep_visit w σ) σ todo in
  is_OPEN ws σ' = false.
Proof.
  revert σ. induction todo as [|w todo IH]; intros σ Hcase; simpl.
  { destruct Hcase as [[_ ?]|[_ []%elem_of_nil]]; auto. }
  apply IH. destruct (decide (w = ws)) as [->|Hne].
  - left. assert (marked ws σ) as Hm by (by destruct Hcase as [[? _]|[? _]]).
    split; by apply sweep_visit_marked.
  - assert (∀ σ', sockets σ' !! ws = sockets σ !! ws →
              (marked ws σ → marked ws σ') ∧ is_OPEN ws σ' = is_OPEN ws σ) as Hsame.
    { intros σ' Heq. unfold marked, is_OPEN. by rewrite Heq. }
    destruct (Hsame _ (sweep_visit_other w ws σ Hne)) as [Hm Ho]. rewrite Ho.
    destruct Hcase as [[? ?]|[? Hin]]; [left; auto|].
    apply elem_of_cons in Hin as [->|Hin]; [done|]. right. auto.
Qed.

Lemma sweep_visit_sent w σ : ∃ rest, sent (sweep_visit w σ) = sent σ ++ rest.
Proof.
  unfold sweep_visit. destruct (sockets σ !! w) as [s|]; [|exists []; by rewrite app_nil_r].
  destruct (negb (Socket.isAlive s)); simpl.
  - destruct (cascade_sent _ _ _ _ (handleClientDisconnect_cascade w σ)) as (rest & -> & _). eauto.
  - destruct (is_OPEN w _); simpl; [eauto|]. exists []. by rewrite app_nil_r.
Qed.

Lemma sweep_pings ws todo σ s :
  ws ∈ todo → sockets σ !! ws = Some s →
  Socket.isAlive s = true → Socket.readyState s = OPEN →
  ∃ rest, sent (foldl (λ σ w, sweep_visit w σ) σ todo) = sent σ ++ rest
          ∧ (ws, PingFrame) ∈ rest.
Proof.
  revert σ. induction todo as [|w todo IH]; intros σ Hin Hs Ha Ho; [by apply elem_of_nil in Hin|].
  simpl. destruct (decide (w = ws)) as [->|Hne].
  - destruct (sweep_visit_alive ws σ s Hs Ha) as (_ & _ & Hsent).
    rewrite bool_decide_eq_true_2 in Hsent by done.
    assert (∀ l σ0, ∃ rest, sent (foldl (λ σ w, sweep_visit w σ) σ0 l) = sent σ0 ++ rest) as Hmono.
    { clear. induction l as [|w l IH]; intros σ0; simpl; [exists []; by rewrite app_nil_r|].
      destruct (IH (sweep_visit w σ0)) as (r2 & ->).
      destruct (sweep_visit_sent w σ0) as (r1 & ->). exists (r1 ++ r2). by rewrite app_assoc. }
    destruct (Hmono todo (sweep_visit ws σ)) as (rest & ->). rewrite Hsent, <-app_assoc.
    eexists. split; [done|]. apply elem_of_app. left. by left.
  - apply elem_of_cons in Hin as [->|Hin]; [done|].
    destruct (IH (sweep_visit w σ) Hin) as (rest & -> & Hp); try done.
    { by rewrite sweep_visit_other. }
    destruct (sweep_visit_sent w σ) as (r1 & ->). exists (r1 ++ rest).
    split; [by rewrite app_assoc|]. apply elem_of_app. by right.
Qed.

(** An event other than a pong on the socket keeps it unanswered. *)
Lemma step_unanswered ws e σ :
  unanswered ws σ → enabled e σ → e ≠ ev_pong ws → unanswered ws (step e σ).
Proof.
  intros [Hdom Hcase] Hen Hpong. split; [by apply step_sockets_dom|].
  assert (∀ id t1 t2 t3 t4, e ≠ ev_connection ws id t1 t2 t3 t4) as Hconn.
  { intros id t1 t2 t3 t4 ->. simpl in Hen. apply elem_of_dom in Hdom as [s Hs]. congruence. }
  destruct Hcase as [Hgone|Hm].
  - left. destruct (Map_get ws (clients (step e σ))) as [d|] eqn:Hd; [|done].
    destruct (step_registered e σ ws) as [[d' Hd']|(id & t1 & t2 & t3 & t4 & ->)];
      [by rewrite Hd|congruence|by destruct (Hconn id t1 t2 t3 t4)].
  - destruct e as [w id t1 t2 t3 t4|w messageString now|w|w|w| |t|w rs th];
      [right|right|right|right|right| |right|right];
      try (destruct Hm as (s & Hs & Ha); unfold marked); simpl.
    + assert (w ≠ ws) as Hne by (intros ->; by destruct (Hconn id t1 t2 t3 t4)).
      rewrite on_connection_sockets. simpl.
      rewrite lookup_alter_ne, lookup_insert_ne by done. eauto.
    + rewrite on_message_sockets. eauto.
    + assert (w ≠ ws) as Hne by (intros ->; done).
      rewrite lookup_alter_ne by done. eauto.
    + unfold on_close. rewrite handleClientDisconnect_sockets. simpl.
      destruct (decide (w = ws)) as [->|Hne].
      * rewrite lookup_alter_eq, Hs. simpl. eauto.
      * rewrite lookup_alter_ne by done. eauto.
    + unfold on_error. rewrite handleClientDisconnect_sockets. simpl. eauto.
    + unfold heartbeatInterval. apply sweep_marks; [done|]. right. left. by exists s.
    + unfold flushBatchedUpdates. simpl. rewrite flush_loop_sockets. simpl. eauto.
    + destruct (decide (w = ws)) as [->|Hne].
      * rewrite lookup_alter_eq, Hs. simpl. eauto.
      * rewrite lookup_alter_ne by done. eauto.
Qed.

Lemma run_unanswered ws es σ :
  unanswered ws σ → enabled_all es σ → Forall (λ e, e ≠ ev_pong ws) es →
  unanswered ws (run es σ).
Proof.
  revert σ. induction es as [|e es IH]; intros σ Hu Hen Hall; [done|].
  destruct Hen as [Hen Hens]. apply Forall_cons in Hall as [He Hall].
  unfold run. simpl. apply IH; [|done|done]. by apply step_unanswered.
Qed.

Lemma run_reachable es σ : reachable σ → enabled_all es σ → reachable (run es σ).
Proof.
  revert σ. induction es as [|e es IH]; intros σ Hr Hen; [done|].
  destruct Hen as [Hen Hens]. unfold run. simpl. apply IH; [|done]. by constructor.
Qed.

(** A socket that has left the registry is never registered again. *)
Lemma step_gone ws e σ :
  ws ∈ dom (sockets σ) → Map_get ws (clients σ) = None → enabled e σ →
  Map_get ws (clients (step e σ)) = None.
Proof.
  intros Hdom Hgone Hen.
  destruct (Map_get ws (clients (step e σ))) as [d|] eqn:Hd; [|done].
  destruct (step_registered e σ ws) as [[d' Hd']|(id & t1 & t2 & t3 & t4 & ->)];
    [by rewrite Hd|congruence|].
  simpl in Hen. apply elem_of_dom in Hdom as [s Hs]. congruence.
Qed.

Lemma run_gone ws es σ :
  ws ∈ dom (sockets σ) → Map_get ws (clients σ) = None → enabled_all es σ →
  Map_get ws (clients (run es σ)) = None.
Proof.
  revert σ. induction es as [|e es IH]; intros σ Hdom Hgone Hen; [done|].
  destruct Hen as [Hen Hens]. unfold run. simpl. apply IH; [|by apply step_gone|done].
  by apply step_sockets_dom.
Qed.

Lemma departures_gone ws es σ :
  ws ∈ dom (sockets σ) → Map_get ws (clients σ) = None → enabled_all es σ →
  departures ws es σ = 0%nat.
Proof.
  revert σ. induction es as [|e es IH]; intros σ Hdom Hgone Hen; [done|].
  destruct Hen as [Hen Hens]. simpl. unfold Map_has at 1. rewrite Hgone. simpl.
  apply IH; [by apply step_sockets_dom|by apply step_gone|done].
Qed.

(** A socket that is registered before a run and not after it left the
    registry in exactly one event of the run. *)
Lemma departures_once ws es σ :
  ws ∈ dom (sockets σ) → is_Some (Map_get ws (clients σ)) → enabled_all es σ →
  Map_get ws (clients (run es σ)) = None → departures ws es σ = 1%nat.
Proof.
  revert σ. induction es as [|e es IH]; intros σ Hdom [d Hd] Hen Hgone.
  { simpl in Hgone. congruence. }
  destruct Hen as [Hen Hens]. simpl. unfold Map_has. rewrite Hd. simpl.
  destruct (Map_get ws (clients (step e σ))) as [d'|] eqn:Hd'; simpl.
  - apply IH; [by apply step_sockets_dom|by rewrite Hd'|done|done].
  - rewrite departures_gone; [done|by apply step_sockets_dom|done|done].
Qed.

Lemma two_clients_reachable : reachable two_clients.
Proof.
  apply run_reachable; [constructor|]. repeat split; vm_compute; reflexivity.
Qed.

(** ** ConnectionRegistry: connect *)

Lemma Map_set_absent {V} k (v : V) m : Map_get k m = None → Map_set k v m = m ++ [(k, v)].
Proof.
  induction m as [|[k' v'] m IH]; simpl; [done|].
  destruct (decide (k' = k)); [done|]. intros H. by rewrite IH.
Qed.

Lemma existingPlayersData_new ws d σ registry :
  Map_get ws registry = None → clients σ = registry ++ [(ws, d)] →
  existingPlayersData ws σ = playersData_of registry.
Proof.
  intros Hnone Hcl. unfold existingPlayersData, playersData_of. rewrite Hcl, omap_app. simpl.
  rewrite bool_decide_eq_false_2 by (by intros ?). rewrite app_nil_r.
  clear Hcl. induction registry as [|[w d'] registry IH]; [done|]. simpl in *.
  destruct (decide (w = ws)) as [->|Hne]; [done|].
  rewrite bool_decide_eq_true_2 by done. f_equal. by apply IH.
Qed.

(** The listener on a new socket: the greeting goes out, then the
    [player_joined] broadcast starts. *)
Lemma on_connection_eq ws clientId t1 t2 t3 t4 σ :
  sockets σ !! ws = None → Map_get ws (clients σ) = None →
  ∃ σe,
    step (ev_connection ws clientId t1 t2 t3 t4) σ =
      broadcastImmediate (player_joined clientId (initialState t1)) (Some ws) σe
    ∧ sent σe = sent σ ++ greeting ws clientId (initialState t1) t4
                            (playersData_of (clients σ)) (chatHistory σ)
    ∧ clients σe = clients σ ++ [(ws, ClientData.mk clientId (initialState t1) t2 t3)]
    ∧ sockets σe = <[ws := Socket.mk OPEN true false]> (sockets σ)
    ∧ pendingUpdates σe = pendingUpdates σ.
Proof.
  intros Hfresh Hnone. simpl. unfold on_connection, or_abort.
  set (d := ClientData.mk clientId (initialState t1) t2 t3).
  set (σd := console_write _ (set_isAlive ws true (set_clients (Map_set ws d) (accept ws σ)))).
  assert (sockets σd = <[ws := Socket.mk OPEN true false]> (sockets σ)) as Hsock.
  { simpl. apply map_eq. intros w. destruct (decide (w = ws)) as [->|Hne].
    - by rewrite lookup_alter_eq, !lookup_insert_eq.
    - by rewrite lookup_alter_ne, !lookup_insert_ne. }
  assert (∀ s, sockets s = sockets σd → is_OPEN ws s = true ∧ throws ws s = false) as Hok.
  { intros s Hs. unfold is_OPEN, throws. by rewrite Hs, Hsock, lookup_insert_eq. }
  assert (clients σd = clients σ ++ [(ws, d)]) as Hcl by (simpl; by apply Map_set_absent).
  destruct (Hok σd eq_refl) as [Ho Ht]. rewrite (ws_send_OPEN _ _ _ Ho Ht).
  set (σ1 := put_frame ws _ σd).
  rewrite (existingPlayersData_new ws d σ1 (clients σ) Hnone Hcl).
  unfold greeting.
  destruct (playersData_of (clients σ)) as [|p ps] eqn:Hps; simpl.
  - destruct (chatHistory σ) as [|c cs] eqn:Hch; simpl.
    + exists σ1. split_and!; done.
    + destruct (Hok σ1 eq_refl) as [Ho1 Ht1]. rewrite (ws_send_OPEN _ _ _ Ho1 Ht1).
      eexists. split; [reflexivity|]. split_and!; try done. simpl. by rewrite <-?app_assoc.
  - destruct (Hok σ1 eq_refl) as [Ho1 Ht1]. rewrite (ws_send_OPEN _ _ _ Ho1 Ht1).
    set (σ2 := put_frame ws _ σ1).
    change (chatHistory σ2) with (chatHistory σ).
    destruct (chatHistory σ) as [|c cs] eqn:Hch; simpl.
    + exists σ2. split_and!; try done. simpl. by rewrite <-?app_assoc.
    + destruct (Hok σ2 eq_refl) as [Ho2 Ht2]. rewrite (ws_send_OPEN _ _ _ Ho2 Ht2).
      eexists. split; [reflexivity|]. split_and!; try done. simpl. by rewrite <-?app_assoc.
Qed.

(** C3, as the code has it.  When a socket connects, the wire gets, in this
    order: the greeting for the new socket ([assign_id] with the id, the
    default state and the server time; [existing_players] with [{id, state}]
    of every registered connection, left out when there is none;
    [chat_history] with the whole buffer, left out when it is empty), and only
    then the frames of the [player_joined] broadcast.  Of that broadcast every
    other registered socket that is open and takes the write gets
    [player_joined] once; a socket that is not open gets nothing; the new
    socket gets no [player_joined].  Whatever else goes out are notices of
    sockets the broadcast found failing. *)
Theorem connection_greeting_then_join ws clientId t_state t_update t_heartbeat t_server σ :
  well_formed σ → enabled (ev_connection ws clientId t_state t_update t_heartbeat t_server) σ →
  let σ' := step (ev_connection ws clientId t_state t_update t_heartbeat t_server) σ in
  let joined := player_joined clientId (initialState t_state) in
  ∃ rest,
    sent σ' = sent σ
              ++ greeting ws clientId (initialState t_state) t_server
                          (playersData_of (clients σ)) (chatHistory σ)
              ++ rest
    ∧ (∀ w, is_Some (Map_get w (clients σ)) → is_OPEN w σ = true → throws w σ = false →
            delivered joined (frames_to w rest))
    ∧ (∀ w, ¬ (is_Some (Map_get w (clients σ)) ∧ is_OPEN w σ = true ∧ throws w σ = false) →
            Forall notice_frame (frames_to w rest))
    ∧ (∀ w, w ≠ ws → is_OPEN w σ = false → frames_to w rest = [])
    ∧ Forall notice_frame (frames_to ws rest)
    ∧ Map_get ws (clients σ') =
        Some (ClientData.mk clientId (initialState t_state) t_update t_heartbeat).
Proof.
  intros (W1 & _ & _ & W4 & W5) Hfresh. simpl in Hfresh. cbv zeta.
  assert (Map_get ws (clients σ) = None) as Hnone.
  { destruct (Map_get ws (clients σ)) as [d|] eqn:Hd; [|done].
    assert (ws ∈ dom (sockets σ)) as Hin by (apply W5, W4; by rewrite Hd).
    apply elem_of_dom in Hin as [s Hs]. congruence. }
  destruct (on_connection_eq ws clientId t_state t_update t_heartbeat t_server σ Hfresh Hnone)
    as (σe & -> & Hsent & Hcl & Hsock & _).
  assert (NoDup (Map_keys (clients σe))) as Hnd.
  { rewrite Hcl. unfold Map_keys. rewrite fmap_app. apply NoDup_app. split_and!; [done| |].
    - intros w Hw ->%list_elem_of_singleton. by apply Map_get_None_keys in Hnone.
    - apply NoDup_singleton. }
  assert (∀ w, w ≠ ws → is_OPEN w σe = is_OPEN w σ ∧ throws w σe = throws w σ
                        ∧ Map_get w (clients σe) = Map_get w (clients σ)) as Hother.
  { intros w Hne. unfold is_OPEN, throws. rewrite Hsock, lookup_insert_ne by done.
    split_and!; try done. rewrite Hcl. clear -Hne. induction (clients σ) as [|[k v] m IH]; simpl.
    - by rewrite decide_False.
    - destruct (decide (k = w)); done. }
  destruct (broadcastImmediate_delivery (player_joined clientId (initialState t_state))
              (Some ws) σe Hnd) as (rest & Heq & Hdel).
  exists rest. split_and!.
  - by rewrite Heq, Hsent, app_assoc.
  - intros w Hreg Ho Ht. assert (w ≠ ws) as Hne.
    { intros ->. rewrite Hnone in Hreg. by destruct Hreg. }
    destruct (Hother w Hne) as (Eo & Et & Ec). apply Hdel. unfold recipient.
    rewrite Eo, Et, Ec. split_and!; try done. by intros [= ->].
  - intros w Hn. apply Hdel. intros (Hex & Hreg & Ho & Ht). apply Hn.
    assert (w ≠ ws) as Hne by (intros ->; done).
    destruct (Hother w Hne) as (Eo & Et & Ec). by rewrite <-Eo, <-Et, <-Ec.
  - intros w Hne Hclosed.
    destruct (cascade_sent_OPEN _ _ _ _ (broadcastImmediate_cascade
                (player_joined clientId (initialState t_state)) (Some ws) σe))
      as (rest' & Heq' & Hall).
    rewrite Heq in Heq'. apply app_inv_head in Heq' as <-.
    eapply frames_to_not_OPEN; [exact Hall|]. destruct (Hother w Hne) as (-> & _). done.
  - apply Hdel. by intros [? _].
  - assert (¬ failing ws σe) as Hnf.
    { intros [_ Ht]. unfold throws in Ht. by rewrite Hsock, lookup_insert_eq in Ht. }
    rewrite (cascade_clients_keep _ _ _ _ ws (broadcastImmediate_cascade _ _ σe) Hnf).
    rewrite Hcl. clear -Hnone. induction (clients σ) as [|[k v] m IH]; simpl.
    + by rewrite decide_True.
    + simpl in Hnone. destruct (decide (k = ws)); [done|]. by apply IH.
Qed.

Lemma connection_greeting_then_join_witness :
  let σ' := step (ev_connection 3 "ic" 400 401 402 403) two_clients in
  ∃ rest,
    sent σ' = sent two_clients
              ++ greeting 3 "ic" (initialState 400) 403
                          (playersData_of (clients two_clients)) (chatHistory two_clients)
              ++ rest
    ∧ Forall notice_frame (frames_to 3 rest).
Proof.
  assert (enabled (ev_connection 3 "ic" 400 401 402 403) two_clients) as Hen
    by (vm_compute; reflexivity).
  destruct (connection_greeting_then_join 3 "ic" 400 401 402 403 two_clients
              (reachable_well_formed _ two_clients_reachable) Hen)
    as (rest & H1 & _ & _ & _ & H4 & _).
  exists rest. exact (conj H1 H4).
Defined.

(** C3 as stated fails: the second client is registered and its socket is
    closing when a third connects; the first client gets [player_joined], the
    second gets nothing. *)
Lemma join_skips_closing_socket :
  let σ := step (ev_transport 2 CLOSING false) two_clients in
  let σ' := step (ev_connection 3 "ic" 400 401 402 403) σ in
  reachable σ ∧ enabled (ev_connection 3 "ic" 400 401 402 403) σ
  ∧ Map_get 2 (clients σ) = Some (ClientData.mk "ib" (initialState 200) 200 200)
  ∧ frames_to 1 (sent σ') =
      frames_to 1 (sent σ) ++ [Text (player_joined "ic" (initialState 400))]
  ∧ frames_to 2 (sent σ') = frames_to 2 (sent σ).
Proof.
  split_and!; try (vm_compute; reflexivity).
  constructor; [exact two_clients_reachable|]. vm_compute. eexists. reflexivity.
Qed.

(** ** BatchScheduler: flush *)

Lemma due_Some ws σ data :
  due ws σ = Some data ↔
  ∃ messages, Map_get ws (pendingUpdates σ) = Some messages ∧ flush_payload messages = Some data
              ∧ is_OPEN ws σ = true ∧ throws ws σ = false.
Proof.
  unfold due. destruct (Map_get ws (pendingUpdates σ)) as [messages|].
  - destruct (is_OPEN ws σ), (throws ws σ); simpl; split;
      try (intros (m & [= <-] & ? & ? & ?)); try done; eauto.
  - split; [done|]. by intros (m & ? & _).
Qed.

(** One turn of the flush loop. *)
Lemma flush_visit_spec ws messages σ :
  Map_get ws (pendingUpdates σ) = Some messages →
  let σ' := flush_visit ws messages σ in
  sockets σ' = sockets σ
  ∧ (∀ w q, Map_get w (pendingUpdates σ') = Some q → Map_get w (pendingUpdates σ) = Some q)
  ∧ (∀ w, ¬ failing w σ → Map_get w (pendingUpdates σ') = Map_get w (pendingUpdates σ))
  ∧ ∃ rest, sent σ' = sent σ ++ rest
      ∧ match due ws σ with
        | Some data => rest = [(ws, Text data)]
        | None => Forall (λ p, notice_frame p.2) rest
        end.
Proof.
  intros Hget. unfold flush_visit, due. rewrite Hget.
  destruct (is_OPEN ws σ) eqn:Hopen; simpl.
  2:{ split_and!; try done. exists []. rewrite app_nil_r. split; [done|constructor]. }
  destruct (flush_payload messages) as [data|] eqn:Hpay.
  2:{ split_and!; try done. exists []. rewrite app_nil_r. split; [done|].
      destruct (negb _); constructor. }
  destruct (throws ws σ) eqn:Hthr; simpl.
  - assert (ws_send ws data σ = None) as -> by by apply ws_send_None.
    set (σ1 := console_write err_batch σ).
    assert (failing ws σ1) as Hfail by done.
    pose proof (handleClientDisconnect_cascade_failing ws σ1 Hfail) as Hc.
    split_and!.
    + by rewrite (cascade_sockets _ _ _ _ Hc).
    + intros w q Hq. by apply (cascade_pending_Some _ _ _ _ _ _ Hc) in Hq.
    + intros w Hw. by rewrite (cascade_pending_keep _ _ _ _ _ Hc).
    + destruct (cascade_notices _ _ _ Hc) as (rest & Heq & Hall & _). by exists rest.
  - rewrite ws_send_OPEN by done. split_and!; try done. by exists [(ws, Text data)].
Qed.

Lemma flush_loop_delivery todo σ :
  NoDup todo →
  let σ' := flush_loop todo σ in
  ∃ rest, sent σ' = sent σ ++ rest
    ∧ ∀ ws,
        (ws ∈ todo → ∀ data, due ws σ = Some data → delivered data (frames_to ws rest))
        ∧ (ws ∉ todo ∨ due ws σ = None → Forall notice_frame (frames_to ws rest)).
Proof.
  revert σ. induction todo as [|w0 todo IH]; intros σ Hnd; simpl.
  { exists []. rewrite app_nil_r. split; [done|]. intros ws. split; [by intros ?%elem_of_nil|].
    intros _. constructor. }
  apply NoDup_cons in Hnd as [Hw0 Hnd].
  destruct (Map_get w0 (pendingUpdates σ)) as [messages|] eqn:Hget.
  - pose proof (flush_visit_spec w0 messages σ Hget) as Hv. simpl in Hv.
    destruct Hv as (Hs & Hsub & Hkeep & rest1 & Heq1 & Hcase).
    set (σ1 := flush_visit w0 messages σ) in *.
    destruct (IH σ1 Hnd) as (rest & Heq & Hrest). exists (rest1 ++ rest).
    split; [by rewrite Heq, Heq1, app_assoc|].
    assert (∀ ws data, due ws σ = Some data → due ws σ1 = Some data) as Hfwd.
    { intros ws data (m & Hm & Hp & Ho & Ht)%due_Some. apply due_Some. exists m.
      rewrite (is_OPEN_sockets _ _ _ Hs), (throws_sockets _ _ _ Hs). split_and!; try done.
      rewrite Hkeep; [done|]. intros [_ ?]. congruence. }
    assert (∀ ws data, due ws σ1 = Some data → due ws σ = Some data) as Hbwd.
    { intros ws data (m & Hm & Hp & Ho & Ht)%due_Some. apply due_Some. exists m.
      rewrite <-(is_OPEN_sockets _ _ _ Hs), <-(throws_sockets _ _ _ Hs). split_and!; auto. }
    intros ws. rewrite frames_to_app. split.
    + intros Hin data Hdue. apply elem_of_cons in Hin as [->|Hin].
      * rewrite Hdue in Hcase. subst rest1. rewrite frames_to_single_eq.
        exists [], (frames_to w0 rest). split_and!; [done|constructor|].
        apply Hrest. by left.
      * assert (ws ≠ w0) as Hne by (by intros ->).
        destruct (proj1 (Hrest ws) Hin data (Hfwd _ _ Hdue)) as (pre & post & Hf & Hpre & Hpost).
        exists (frames_to ws rest1 ++ pre), post. split_and!; [by rewrite Hf, app_assoc| |done].
        apply Forall_app. split; [|done].
        destruct (due w0 σ) as [data0|]; [|by apply frames_to_notices].
        subst rest1. rewrite frames_to_single_ne by done. constructor.
    + intros Hn. apply Forall_app. split.
      * destruct (due w0 σ) as [data0|] eqn:Hdue0; [|by apply frames_to_notices].
        subst rest1. destruct (decide (w0 = ws)) as [->|Hne].
        -- exfalso. destruct Hn as [Hn|Hn]; [apply Hn; by left|congruence].
        -- rewrite frames_to_single_ne by done. constructor.
      * apply Hrest. destruct Hn as [Hn|Hn].
        -- left. intros Hin. apply Hn. by right.
        -- right. destruct (due ws σ1) as [data|] eqn:Hd; [|done].
           apply Hbwd in Hd. congruence.
  - destruct (IH σ Hnd) as (rest & Heq & Hrest). exists rest. split; [done|].
    intros ws. split.
    + intros Hin data Hdue. apply elem_of_cons in Hin as [->|Hin]; [|by apply Hrest].
      apply due_Some in Hdue as (m & Hm & _). congruence.
    + intros [Hn|Hn]; apply Hrest; [|by right].
      left. intros Hin. apply Hn. by right.
Qed.

(** A flush sends to open sockets only. *)
Lemma flush_loop_sent_OPEN todo σ :
  ∃ rest, sent (flush_loop todo σ) = sent σ ++ rest
          ∧ Forall (λ p : nat * Frame, is_OPEN p.1 σ = true) rest.
Proof.
  revert σ. induction todo as [|ws todo IH]; intros σ; simpl.
  { exists []. by rewrite app_nil_r. }
  assert (∀ σ1 rest1, sockets σ1 = sockets σ → sent σ1 = sent σ ++ rest1 →
            Forall (λ p : nat * Frame, is_OPEN p.1 σ = true) rest1 →
            ∃ rest, sent (flush_loop todo σ1) = sent σ ++ rest
                    ∧ Forall (λ p : nat * Frame, is_OPEN p.1 σ = true) rest) as Hnext.
  { intros σ1 rest1 Hs He Hall. destruct (IH σ1) as (rest2 & -> & Hall2).
    exists (rest1 ++ rest2). split; [by rewrite He, app_assoc|]. apply Forall_app. split; [done|].
    eapply Forall_impl; [exact Hall2|]. intros p; simpl. by rewrite (is_OPEN_sockets _ _ _ Hs). }
  destruct (Map_get ws (pendingUpdates σ)) as [messages|];
    [|by apply (Hnext σ []); rewrite ?app_nil_r].
  unfold flush_visit. destruct (is_OPEN ws σ) eqn:Hopen;
    [|by apply (Hnext σ []); rewrite ?app_nil_r].
  destruct (flush_payload messages) as [data|];
    [|by apply (Hnext σ []); rewrite ?app_nil_r].
  destruct (ws_send ws data σ) as [σ'|] eqn:Hsend.
  - apply ws_send_Some in Hsend as [->|[_ ->]].
    + by apply (Hnext σ []); rewrite ?app_nil_r.
    + apply (Hnext _ [(ws, Text data)]); [done|done|]. by constructor.
  - set (σ1 := console_write err_batch σ).
    pose proof (handleClientDisconnect_cascade ws σ1) as Hc.
    destruct (cascade_sent_OPEN _ _ _ _ Hc) as (rest1 & He & Hall).
    apply (Hnext _ rest1); [by rewrite (cascade_sockets _ _ _ _ Hc)|done|done].
Qed.

(** C5, as the code has it.  A flush sends to every socket that has a queue,
    is open and takes the write exactly one frame for that queue: the message
    itself when the queue holds one message, one [batch_update] envelope with
    all of them in queue order when it holds more.  A socket that is not open
    gets nothing, and one whose write fails gets nothing for its queue.
    Whatever else goes out are notices of sockets the flush found failing.
    Afterwards there is no queue left and [updateBatchTimer] is null. *)
Theorem flush_delivers_to_open_sockets σ :
  NoDup (Map_keys (pendingUpdates σ)) →
  let σ' := flushBatchedUpdates σ in
  pendingUpdates σ' = [] ∧ updateBatchTimer σ' = None
  ∧ (∀ m, flush_payload [m] = Some m)
  ∧ (∀ m1 m2 ms, flush_payload (m1 :: m2 :: ms) = Some (batch_update (m1 :: m2 :: ms)))
  ∧ ∃ rest, sent σ' = sent σ ++ rest
      ∧ (∀ ws messages data,
           Map_get ws (pendingUpdates σ) = Some messages → flush_payload messages = Some data →
           is_OPEN ws σ = true → throws ws σ = false →
           delivered data (frames_to ws rest))
      ∧ (∀ ws, is_OPEN ws σ = false ∨ throws ws σ = true ∨ Map_get ws (pendingUpdates σ) = None →
           Forall notice_frame (frames_to ws rest))
      ∧ (∀ ws, is_OPEN ws σ = false → frames_to ws rest = []).
Proof.
  intros Hnd. cbv zeta. split_and!; try done.
  destruct (flush_loop_delivery (Map_keys (pendingUpdates σ)) σ Hnd) as (rest & Heq & Hdel).
  exists rest. split_and!.
  - done.
  - intros ws messages data Hget Hpay Ho Ht. apply Hdel.
    + by eapply Map_get_Some_keys.
    + apply due_Some. eauto.
  - intros ws Hcase. apply Hdel. right. unfold due.
    destruct Hcase as [H|[H|H]]; rewrite H; simpl; rewrite ?andb_false_r;
      by destruct (Map_get ws (pendingUpdates σ)).
  - intros ws Hclosed.
    destruct (flush_loop_sent_OPEN (Map_keys (pendingUpdates σ)) σ) as (rest' & Heq' & Hall).
    unfold flushBatchedUpdates in Heq. simpl in Heq.
    rewrite Heq in Heq'. apply app_inv_head in Heq' as <-. by eapply frames_to_not_OPEN.
Qed.

Lemma flush_delivers_to_open_sockets_witness :
  let σ := step (ev_message 1 (Some (in_player_update (state_at 0.01))) 300) two_clients in
  let update := player_update "ia" (stamp 300 (state_at 0.01)) in
  Map_get 2 (pendingUpdates σ) = Some [update]
  ∧ ∃ rest, sent (flushBatchedUpdates σ) = sent σ ++ rest
            ∧ delivered update (frames_to 2 rest).
Proof.
  intros σ update.
  assert (NoDup (Map_keys (pendingUpdates σ))) as Hnd.
  { apply reachable_well_formed. constructor; [exact two_clients_reachable|].
    vm_compute. eexists. reflexivity. }
  assert (Map_get 2 (pendingUpdates σ) = Some [update]) as Hget by (vm_compute; reflexivity).
  assert (is_OPEN 2 σ = true) as Ho by (vm_compute; reflexivity).
  assert (throws 2 σ = false) as Ht by (vm_compute; reflexivity).
  destruct (flush_delivers_to_open_sockets σ Hnd) as (_ & _ & _ & _ & rest & Heq & Hdel & _).
  split; [exact Hget|]. exists rest. split; [exact Heq|].
  exact (Hdel 2%nat [update] update Hget eq_refl Ho Ht).
Defined.

(** C5 as stated fails: the second client's queue holds exactly one message,
    its socket is closing when the timeout fires, and the flush sends it
    nothing, then drops the queue. *)
Lemma flush_skips_closing_socket :
  let σ := closing_recipient in
  let σ' := step (ev_flush 0) σ in
  reachable σ ∧ enabled (ev_flush 0) σ
  ∧ Map_get 2 (pendingUpdates σ) = Some [player_update "ia" (stamp 300 (state_at 0.01))]
  ∧ sent σ' = sent σ
  ∧ pendingUpdates σ' = [].
Proof.
  split_and!; try (vm_compute; reflexivity).
  - apply run_reachable; [exact two_clients_reachable|].
    repeat split; vm_compute; eexists; reflexivity.
  - vm_compute. constructor.
Qed.

(** ** Every departure is announced *)

Lemma announces_refl σ : announces σ σ.
Proof.
  split; [done|]. exists []. rewrite app_nil_r. split; [done|]. intros r d w ?. congruence.
Qed.

Lemma announces_trans σ1 σ2 σ3 : announces σ1 σ2 → announces σ2 σ3 → announces σ1 σ3.
Proof.
  intros [A1 (rest1 & E1 & N1)] [A2 (rest2 & E2 & N2)]. split.
  - intros w d Hd. destruct (A2 w d Hd) as (Hd2 & Ho2 & Ht2).
    destruct (A1 w d Hd2) as (Hd1 & Ho1 & Ht1). split_and!; congruence.
  - exists (rest1 ++ rest2). split; [by rewrite E2, E1, app_assoc|].
    intros r d w Hr Hgone Hw. rewrite frames_to_app. apply elem_of_app.
    destruct (Map_get r (clients σ2)) as [d2|] eqn:Hr2.
    + right. destruct (A1 r d2 Hr2) as (Hr1 & _). eapply N2; [|done|done]. congruence.
    + left. eapply N1; [done|done|]. destruct Hw as ([dw Hdw] & Ho & Ht).
      destruct (A2 w dw Hdw) as (Hdw2 & Ho2 & Ht2). split_and!; [by rewrite Hdw2|congruence..].
Qed.

(** A step that leaves the registry and the sockets' state as they are. *)
Lemma announces_same σ σ' rest :
  clients σ' = clients σ → (∀ w, is_OPEN w σ' = is_OPEN w σ ∧ throws w σ' = throws w σ) →
  sent σ' = sent σ ++ rest → announces σ σ'.
Proof.
  intros Hc Hs He. split.
  - intros w d. rewrite Hc. intros ?. by destruct (Hs w) as [-> ->].
  - exists rest. split; [done|]. intros r d w. rewrite Hc. congruence.
Qed.

Lemma announces_quiet σ σ' :
  clients σ' = clients σ → (∀ w, is_OPEN w σ' = is_OPEN w σ ∧ throws w σ' = throws w σ) →
  sent σ' = sent σ → announces σ σ'.
Proof. intros Hc Hs He. apply (announces_same σ σ' []); [done|done|]. by rewrite app_nil_r. Qed.

Lemma ws_send_announces ws m σ σ' : ws_send ws m σ = Some σ' → announces σ σ'.
Proof.
  intros [->|[_ ->]]%ws_send_Some; [apply announces_refl|].
  by eapply announces_same.
Qed.

Lemma broadcast_loop_reaches message excludeWs todo σ w :
  w ∈ todo → recipient excludeWs w σ →
  ∃ rest, sent (broadcast_loop handleClientDisconnect message excludeWs todo σ) = sent σ ++ rest
          ∧ Text message ∈ frames_to w rest.
Proof.
  revert σ. induction todo as [|w0 todo IH]; intros σ Hin Hr; [by apply elem_of_nil in Hin|].
  simpl. destruct (Map_get w0 (clients σ)) as [d0|] eqn:Hget.
  - pose proof (broadcast_visit_spec message excludeWs w0 d0 σ Hget) as Hv. simpl in Hv.
    destruct Hv as (Hs & Hsub & Hkeep & rest1 & Heq1 & Hcase).
    set (σ1 := broadcast_visit handleClientDisconnect message excludeWs w0 d0 σ) in *.
    assert (recipient excludeWs w σ1) as Hr1.
    { assert (¬ failing w σ) as Hnf by (destruct Hr as (_&_&_&?); intros [_ ?]; congruence).
      eapply recipient_sockets; [done| |done]. by apply Hkeep. }
    destruct (decide (w = w0)) as [->|Hne].
    + destruct Hcase as [[_ ->]|[Hn _]]; [|done].
      assert (rtc (cascade_step (λ _, True) (λ _ _, True)) σ1
                (broadcast_loop handleClientDisconnect message excludeWs todo σ1)) as Hc.
      { apply broadcast_loop_cascade with (σ0 := σ1); try done. intros ws s _ _.
        eapply cascade_mono; [| |apply handleClientDisconnect_cascade]; done. }
      destruct (cascade_sent _ _ _ _ Hc) as (rest & -> & _). rewrite Heq1, <-app_assoc.
      eexists. split; [done|]. rewrite frames_to_app, frames_to_single_eq. by left.
    + apply elem_of_cons in Hin as [->|Hin]; [done|].
      destruct (IH σ1 Hin Hr1) as (rest & -> & Hrest). rewrite Heq1, <-app_assoc.
      eexists. split; [done|]. rewrite frames_to_app. apply elem_of_app. by right.
  - apply elem_of_cons in Hin as [->|Hin]; [|by apply IH].
    destruct Hr as (_ & [d Hd] & _). congruence.
Qed.

Lemma broadcast_loop_announces (bound : nat) message excludeWs :
  (∀ ws σ, length (clients σ) ≤ bound → announces σ (handleClientDisconnect ws σ)) →
  ∀ todo σ, length (clients σ) ≤ bound →
    announces σ (broadcast_loop handleClientDisconnect message excludeWs todo σ).
Proof.
  intros Hd todo. induction todo as [|ws todo IH]; intros σ Hb; simpl; [apply announces_refl|].
  destruct (Map_get ws (clients σ)) as [d|] eqn:Hget; [|by apply IH].
  unfold broadcast_visit.
  destruct (bool_decide (Some ws ≠ excludeWs) && is_OPEN ws σ); [|by apply IH].
  destruct (ws_send ws message σ) as [σ'|] eqn:Hsend.
  - eapply announces_trans; [by eapply ws_send_announces|]. apply IH.
    by apply ws_send_Some in Hsend as [->|[_ ->]].
  - set (σ1 := console_write (err_broadcast (ClientData.id d)) σ).
    eapply announces_trans; [by apply (announces_quiet σ σ1)|].
    eapply announces_trans; [by apply Hd|]. apply IH.
    etrans; [apply (cascade_clients_length _ _ _ _ (handleClientDisconnect_cascade ws σ1))|done].
Qed.

Lemma handleClientDisconnect_announces_bounded (bound : nat) ws σ :
  length (clients σ) ≤ bound → announces σ (handleClientDisconnect ws σ).
Proof.
  revert ws σ. induction bound as [|bound IH]; intros ws σ Hb; rewrite handleClientDisconnect_eq.
  - destruct (clients σ); [apply announces_refl|simpl in Hb; lia].
  - destruct (Map_get ws (clients σ)) as [d|] eqn:Hget; [|apply announces_refl].
    set (σ0 := forget_client ws d σ).
    assert (length (clients σ0) ≤ bound) as Hb0.
    { pose proof (Map_delete_length_lt _ _ _ Hget). simpl. lia. }
    pose proof (broadcast_loop_announces bound (player_left (ClientData.id d)) None IH
                  (Map_keys (clients σ0)) σ0 Hb0) as [A0 (rest & E0 & N0)].
    fold (broadcastImmediate (player_left (ClientData.id d)) None σ0) in *.
    split.
    + intros w dw Hdw. destruct (A0 w dw Hdw) as (Hdw0 & Ho & Ht).
      simpl in Hdw0. apply Map_get_delete_Some in Hdw0 as [_ ?]. done.
    + exists rest. split; [done|]. intros r dr w Hr Hgone Hw.
      destruct (decide (r = ws)) as [->|Hne].
      * assert (dr = d) as -> by congruence.
        destruct Hw as ([dw Hdw] & Ho & Ht). destruct (A0 w dw Hdw) as (Hdw0 & Ho0 & Ht0).
        destruct (broadcast_loop_reaches (player_left (ClientData.id d)) None
                    (Map_keys (clients σ0)) σ0 w) as (rest' & E' & Hin).
        { by eapply Map_get_Some_keys. }
        { split_and!; [done|by rewrite Hdw0|congruence..]. }
        fold (broadcastImmediate (player_left (ClientData.id d)) None σ0) in E'.
        rewrite E0 in E'. by apply app_inv_head in E' as <-.
      * eapply N0; [|done|done]. simpl. by rewrite Map_get_delete_ne.
Qed.

Lemma handleClientDisconnect_announces ws σ : announces σ (handleClientDisconnect ws σ).
Proof. by apply (handleClientDisconnect_announces_bounded (length (clients σ))). Qed.

Lemma broadcastImmediate_announces message excludeWs σ :
  announces σ (broadcastImmediate message excludeWs σ).
Proof.
  apply (broadcast_loop_announces (length (clients σ))); [|done].
  intros ws s _. apply handleClientDisconnect_announces.
Qed.

Lemma flush_loop_announces todo σ : announces σ (flush_loop todo σ).
Proof.
  revert σ. induction todo as [|ws todo IH]; intros σ; simpl; [apply announces_refl|].
  eapply announces_trans; [|apply IH].
  destruct (Map_get ws (pendingUpdates σ)) as [messages|]; [|apply announces_refl].
  unfold flush_visit. destruct (is_OPEN ws σ); [|apply announces_refl].
  destruct (flush_payload messages) as [data|]; [|apply announces_refl].
  destruct (ws_send ws data σ) as [σ'|] eqn:Hsend; [by eapply ws_send_announces|].
  eapply announces_trans; [|apply handleClientDisconnect_announces].
  by apply announces_quiet.
Qed.

Lemma sweep_visit_announces ws σ : announces σ (sweep_visit ws σ).
Proof.
  unfold sweep_visit. destruct (sockets σ !! ws) as [s|] eqn:Hs; [|apply announces_refl].
  destruct (negb (Socket.isAlive s)).
  - destruct (handleClientDisconnect_announces ws σ) as [A (rest & E & N)].
    destruct (handleClientDisconnect_gone ws σ) as [Hgone _].
    assert (∀ w, w ≠ ws →
              is_OPEN w (ws_terminate ws (handleClientDisconnect ws σ))
                = is_OPEN w (handleClientDisconnect ws σ)
              ∧ throws w (ws_terminate ws (handleClientDisconnect ws σ))
                = throws w (handleClientDisconnect ws σ)) as Hother.
    { intros w Hne. unfold is_OPEN, throws. simpl. by rewrite lookup_alter_ne. }
    split.
    + intros w d Hd. simpl in Hd. assert (w ≠ ws) as Hne by (intros ->; congruence).
      destruct (A w d Hd) as (? & ? & ?). destruct (Hother w Hne) as [-> ->]. done.
    + exists rest. split; [done|]. intros r d w Hr Hg ([dw Hdw] & Ho & Ht). simpl in *.
      assert (w ≠ ws) as Hne by (intros ->; congruence).
      destruct (Hother w Hne) as [Eo Et]. eapply N; [done|done|].
      split_and!; [by rewrite Hdw|congruence..].
  - assert (∀ w, is_OPEN w (set_isAlive ws false σ) = is_OPEN w σ
                 ∧ throws w (set_isAlive ws false σ) = throws w σ) as Hsame.
    { intros w. unfold is_OPEN, throws. simpl. destruct (decide (w = ws)) as [->|Hne].
      - by rewrite lookup_alter_eq, Hs.
      - by rewrite lookup_alter_ne. }
    destruct (is_OPEN ws (set_isAlive ws false σ)).
    + by apply (announces_same _ _ [(ws, PingFrame)]).
    + by apply announces_quiet.
Qed.

Lemma heartbeatInterval_announces σ : announces σ (heartbeatInterval σ).
Proof.
  unfold heartbeatInterval. generalize (wss_clients σ) as todo. intros todo. revert σ.
  induction todo as [|ws todo IH]; intros σ; simpl; [apply announces_refl|].
  eapply announces_trans; [apply sweep_visit_announces|apply IH].
Qed.

Lemma Map_get_app_Some {V} k (v : V) m m' : Map_get k m = Some v → Map_get k (m ++ m') = Some v.
Proof.
  induction m as [|[k0 v0] m IH]; simpl; [done|]. destruct (decide (k0 = k)); [done|exact IH].
Qed.

Lemma announces_notice σ0 σ σ' r d w pre :
  announces σ σ' → sent σ = sent σ0 ++ pre →
  (∃ d', Map_get r (clients σ) = Some d' ∧ ClientData.id d' = ClientData.id d) →
  Map_get r (clients σ') = None → survivor w σ' →
  ∃ rest, sent σ' = sent σ0 ++ rest ∧ Text (player_left (ClientData.id d)) ∈ frames_to w rest.
Proof.
  intros [_ (rest & E & N)] Hpre (d' & Hd' & Hid) Hgone Hw.
  exists (pre ++ rest). split; [by rewrite E, Hpre, app_assoc|].
  rewrite frames_to_app. apply elem_of_app. right. rewrite <-Hid. by eapply N.
Qed.

(** X1. Whenever an event takes a socket out of the registry, every socket
    that is registered, open and taking writes after the event was sent
    [player_left] with the id of the one that left, during that event. *)
Theorem departure_announced e σ r d w :
  well_formed σ → enabled e σ →
  Map_get r (clients σ) = Some d → Map_get r (clients (step e σ)) = None →
  survivor w (step e σ) →
  ∃ rest, sent (step e σ) = sent σ ++ rest
          ∧ Text (player_left (ClientData.id d)) ∈ frames_to w rest.
Proof.
  intros (W1 & _ & _ & W4 & W5) Hen Hr.
  assert (∀ σ', clients σ' = clients σ → Map_get r (clients σ') = None → False) as Hsame.
  { intros σ' ->. congruence. }
  destruct e as [ws id t1 t2 t3 t4|ws messageString now|ws|ws|ws| |t|ws rs th].
  - simpl in Hen. assert (Map_get ws (clients σ) = None) as Hnone.
    { destruct (Map_get ws (clients σ)) as [d0|] eqn:Hd0; [|done].
      assert (ws ∈ dom (sockets σ)) as Hin by (apply W5, W4; by rewrite Hd0).
      apply elem_of_dom in Hin as [s Hs]. congruence. }
    destruct (on_connection_eq ws id t1 t2 t3 t4 σ Hen Hnone) as (σe & -> & Hsent & Hcl & _).
    intros Hgone Hw. eapply announces_notice;
      [apply broadcastImmediate_announces|exact Hsent| |done|done].
    exists d. split; [|done]. rewrite Hcl. by apply Map_get_app_Some.
  - simpl. unfold on_message. destruct messageString as [message|]; [|(intros Hgone; exfalso; exact (Hsame σ eq_refl Hgone))].
    destruct (Map_get ws (clients σ)) as [sd|] eqn:Hsd; [|(intros Hgone; exfalso; exact (Hsame σ eq_refl Hgone))].
    set (sd' := set_lastHeartbeat now sd). set (σm := set_clients (Map_set ws sd') σ).
    assert (∃ d', Map_get r (clients σm) = Some d' ∧ ClientData.id d' = ClientData.id d) as Hrm.
    { simpl. destruct (decide (ws = r)) as [->|Hne].
      - exists sd'. rewrite Map_get_set_eq. split; [done|]. simpl. congruence.
      - exists d. by rewrite Map_get_set_ne. }
    assert (∀ σ', clients σ' = clients σm → Map_get r (clients σ') = None → False) as Hsamem.
    { intros σ' ->. destruct Hrm as (d' & ? & _). congruence. }
    destruct message as [state|message|emote|ts|ty]; simpl.
    + destruct (hasSignificantChange _ _); [|(intros Hgone; exfalso; exact (Hsamem σm eq_refl Hgone))].
      match goal with |- context [batchBroadcast ?m ?x false ?s] =>
        destruct (batchBroadcast_frame m x s) as (_ & -> & _) end.
      simpl. intros Hgone. exfalso. destruct (decide (ws = r)) as [->|Hne].
      * by rewrite Map_get_set_eq in Hgone.
      * rewrite !Map_get_set_ne in Hgone by done. congruence.
    + intros Hgone Hw. eapply (announces_notice σ _ _ r d w []);
        [apply broadcastImmediate_announces|by rewrite app_nil_r|exact Hrm|done|done].
    + destruct (bool_decide _); [|(intros Hgone; exfalso; exact (Hsamem σm eq_refl Hgone))].
      intros Hgone Hw. eapply (announces_notice σ _ _ r d w []);
        [apply broadcastImmediate_announces|by rewrite app_nil_r|exact Hrm|done|done].
    + destruct (ws_send _ _ _) as [σ'|] eqn:Hsend; [|(intros Hgone; exfalso; exact (Hsamem σm eq_refl Hgone))].
      apply ws_send_Some in Hsend as [->|[_ ->]]; (intros Hgone; exfalso; exact (Hsamem σm eq_refl Hgone)).
    + (intros Hgone; exfalso; exact (Hsamem σm eq_refl Hgone)).
  - (intros Hgone; exfalso; exact (Hsame σ eq_refl Hgone)).
  - simpl. unfold on_close. intros Hgone Hw. eapply (announces_notice σ _ _ r d w []);
      [apply handleClientDisconnect_announces|by rewrite app_nil_r|by exists d|done|done].
  - simpl. unfold on_error. intros Hgone Hw. eapply (announces_notice σ _ _ r d w []);
      [apply handleClientDisconnect_announces|by rewrite app_nil_r|by exists d|done|done].
  - simpl. intros Hgone Hw. eapply (announces_notice σ _ _ r d w []);
      [apply heartbeatInterval_announces|by rewrite app_nil_r|by exists d|done|done].
  - simpl. unfold flushBatchedUpdates. simpl. intros Hgone Hw.
    eapply (announces_notice σ (set_timers (filter (λ t0, t0 ≠ t)) σ) _ r d w []);
      [apply flush_loop_announces|by rewrite app_nil_r|by exists d|done|done].
  - (intros Hgone; exfalso; exact (Hsame σ eq_refl Hgone)).
Qed.

Lemma departure_announced_witness :
  let σ := step ev_heartbeat two_clients in
  Map_get 1 (clients σ) = Some (ClientData.mk "ia" (initialState 100) 100 100)
  ∧ Map_get 1 (clients (step (ev_close 1) σ)) = None
  ∧ ∃ rest, sent (step (ev_close 1) σ) = sent σ ++ rest
            ∧ Text (player_left "ia") ∈ frames_to 2 rest.
Proof.
  intros σ.
  assert (reachable σ) as Hr by (constructor; [exact two_clients_reachable|exact I]).
  assert (enabled (ev_close 1) σ) as Hen by (vm_compute; eexists; reflexivity).
  assert (Map_get 1 (clients σ) = Some (ClientData.mk "ia" (initialState 100) 100 100)) as Hd
    by (vm_compute; reflexivity).
  assert (Map_get 1 (clients (step (ev_close 1) σ)) = None) as Hgone by (vm_compute; reflexivity).
  assert (survivor 2 (step (ev_close 1) σ)) as Hw.
  { split_and!; [|vm_compute; reflexivity..]. vm_compute. eexists. reflexivity. }
  split; [exact Hd|]. split; [exact Hgone|].
  exact (departure_announced (ev_close 1) σ 1%nat _ 2%nat (reachable_well_formed _ Hr) Hen Hd Hgone Hw).
Defined.

(** ** MessageRouter: updates that are queued *)

Lemma enqueue_visit_get message excludeWs ws σ w :
  Map_get w (pendingUpdates (enqueue_visit message excludeWs ws σ)) =
  if decide (w = ws) then
    if bool_decide (Some ws ≠ excludeWs) && is_OPEN ws σ
    then Some (default [] (Map_get ws (pendingUpdates σ)) ++ [message])
    else Map_get ws (pendingUpdates σ)
  else Map_get w (pendingUpdates σ).
Proof.
  unfold enqueue_visit. destruct (bool_decide (Some ws ≠ excludeWs) && is_OPEN ws σ).
  - unfold Map_has. destruct (Map_get ws (pendingUpdates σ)) as [q|] eqn:Hq; simpl.
    + rewrite Hq. simpl. destruct (decide (w = ws)) as [->|Hne].
      * by rewrite Map_get_set_eq.
      * by rewrite Map_get_set_ne.
    + rewrite Map_get_set_eq. simpl. destruct (decide (w = ws)) as [->|Hne].
      * by rewrite Map_get_set_eq.
      * by rewrite !Map_get_set_ne.
  - by destruct (decide (w = ws)) as [->|].
Qed.

Lemma enqueue_visit_sockets message excludeWs ws σ :
  sockets (enqueue_visit message excludeWs ws σ) = sockets σ.
Proof.
  unfold enqueue_visit. destruct (_ && _); [|done].
  destruct (Map_has ws (pendingUpdates σ)); simpl; by destruct (Map_get ws _).
Qed.

Lemma enqueue_visit_clients message excludeWs ws σ :
  clients (enqueue_visit message excludeWs ws σ) = clients σ.
Proof.
  unfold enqueue_visit. destruct (_ && _); [|done].
  destruct (Map_has ws (pendingUpdates σ)); simpl; by destruct (Map_get ws _).
Qed.

(** What one pass of [batchBroadcast] over the registry leaves in a queue. *)
Lemma enqueue_loop_get message excludeWs todo σ w :
  NoDup todo →
  Map_get w (pendingUpdates (foldl (λ σ ws, enqueue_visit message excludeWs ws σ) σ todo)) =
  if bool_decide (w ∈ todo) && bool_decide (Some w ≠ excludeWs) && is_OPEN w σ
  then Some (default [] (Map_get w (pendingUpdates σ)) ++ [message])
  else Map_get w (pendingUpdates σ).
Proof.
  revert σ. induction todo as [|ws todo IH]; intros σ Hnd; simpl.
  { destruct (bool_decide_reflect (w ∈ [])) as [[]%elem_of_nil|]; done. }
  apply NoDup_cons in Hnd as [Hws Hnd]. rewrite IH by done.
  rewrite (is_OPEN_sockets _ _ _ (enqueue_visit_sockets message excludeWs ws σ)).
  rewrite enqueue_visit_get. destruct (decide (w = ws)) as [->|Hne].
  - rewrite (bool_decide_eq_false_2 (ws ∈ todo)) by done.
    rewrite (bool_decide_eq_true_2 (ws ∈ ws :: todo)) by left. simpl.
    by destruct (bool_decide (Some ws ≠ excludeWs) && is_OPEN ws σ).
  - assert (bool_decide (w ∈ ws :: todo) = bool_decide (w ∈ todo)) as ->; [|done].
    apply bool_decide_ext. rewrite elem_of_cons. split; [by intros [?|?]|by right].
Qed.

Lemma batchBroadcast_pending message excludeWs σ :
  pendingUpdates (batchBroadcast message excludeWs false σ) =
  pendingUpdates (foldl (λ σ ws, enqueue_visit message excludeWs ws σ) σ (Map_keys (clients σ))).
Proof. unfold batchBroadcast. by destruct (updateBatchTimer _). Qed.

(** The queues after a significant update. *)
Lemma update_pending ws state now σ senderData :
  NoDup (Map_keys (clients σ)) →
  Map_get ws (clients σ) = Some senderData →
  hasSignificantChange (Some (ClientData.state senderData)) state = true →
  let σ' := step (ev_message ws (Some (in_player_update state)) now) σ in
  let update := player_update (ClientData.id senderData) (stamp now state) in
  clients σ' =
    Map_set ws (ClientData.mk (ClientData.id senderData) (stamp now state) now now)
      (Map_set ws (set_lastHeartbeat now senderData) (clients σ))
  ∧ sent σ' = sent σ ∧ console σ' = console σ ∧ sockets σ' = sockets σ
  ∧ chatHistory σ' = chatHistory σ
  ∧ is_Some (updateBatchTimer σ')
  ∧ ∀ w, Map_get w (pendingUpdates σ') =
         if bool_decide (w ∈ Map_keys (clients σ)) && bool_decide (w ≠ ws) && is_OPEN w σ
         then Some (default [] (Map_get w (pendingUpdates σ)) ++ [update])
         else Map_get w (pendingUpdates σ).
Proof.
  intros Hnd Hget Hsig σ' update. subst σ' update. unfold step, on_message. rewrite Hget.
  change (ClientData.state (set_lastHeartbeat now senderData)) with (ClientData.state senderData).
  rewrite Hsig. cbv zeta.
  set (d' := ClientData.mk _ _ _ _).
  set (σ1 := set_clients (Map_set ws d') (set_clients _ σ)).
  set (update := player_update _ _).
  destruct (batchBroadcast_frame update (Some ws) σ1) as (Hs & Hc & Hh & Hsent & Hcons & _).
  pose proof (batchBroadcast_schedule update (Some ws) σ1) as Hsch. simpl in Hsch.
  assert (Map_keys (clients σ1) = Map_keys (clients σ)) as Hkeys.
  { simpl. erewrite !Map_keys_set_present; [done|exact Hget|apply Map_get_set_eq]. }
  assert (NoDup (Map_keys (clients σ1))) as Hnd1 by (by rewrite Hkeys).
  split_and!; [by rewrite Hc|by rewrite Hsent|by rewrite Hcons|by rewrite Hs|by rewrite Hh| |].
  - destruct (updateBatchTimer σ); destruct Hsch as (-> & _); eauto.
  - intros w. rewrite batchBroadcast_pending, enqueue_loop_get, Hkeys by done.
    assert (bool_decide (Some w ≠ Some ws) = bool_decide (w ≠ ws)) as ->; [|done].
    apply bool_decide_ext. split; congruence.
Qed.

(** X2. A significant update from a registered sender puts nothing on the
    wire.  (The registry holds each socket once, as a [Map] does.)  The
    sender's entry takes the stamped state and the time of the
    message; the update is appended to the queue of every other registered
    socket that is open (a queue is created where there was none); the
    sender's own queue and the queues of the other sockets are as before; and
    a flush is scheduled. *)
Theorem significant_update_queued ws state now σ senderData :
  NoDup (Map_keys (clients σ)) →
  Map_get ws (clients σ) = Some senderData →
  hasSignificantChange (Some (ClientData.state senderData)) state = true →
  let σ' := step (ev_message ws (Some (in_player_update state)) now) σ in
  let update := player_update (ClientData.id senderData) (stamp now state) in
  Map_get ws (clients σ') =
    Some (ClientData.mk (ClientData.id senderData) (stamp now state) now now)
  ∧ (∀ w, w ≠ ws → Map_get w (clients σ') = Map_get w (clients σ))
  ∧ sent σ' = sent σ ∧ console σ' = console σ ∧ sockets σ' = sockets σ
  ∧ chatHistory σ' = chatHistory σ
  ∧ (∀ w, w ≠ ws → is_Some (Map_get w (clients σ)) → is_OPEN w σ = true →
          Map_get w (pendingUpdates σ') =
          Some (default [] (Map_get w (pendingUpdates σ)) ++ [update]))
  ∧ (∀ w, w = ws ∨ Map_get w (clients σ) = None ∨ is_OPEN w σ = false →
          Map_get w (pendingUpdates σ') = Map_get w (pendingUpdates σ))
  ∧ is_Some (updateBatchTimer σ').
Proof.
  intros Hnd Hget Hsig.
  destruct (update_pending ws state now σ senderData Hnd Hget Hsig)
    as (Hc & Hsent & Hcons & Hs & Hh & Ht & Hq).
  cbv zeta. split_and!; try done.
  - rewrite Hc. apply Map_get_set_eq.
  - intros w Hne. rewrite Hc. by rewrite !Map_get_set_ne.
  - intros w Hne [d Hd] Ho. rewrite Hq, Ho.
    rewrite bool_decide_eq_true_2 by (by eapply Map_get_Some_keys).
    by rewrite bool_decide_eq_true_2.
  - intros w Hcase. rewrite Hq. destruct Hcase as [->|[Hnone|Hclosed]].
    + rewrite (bool_decide_eq_false_2 (ws ≠ ws)) by (by intros ?). by rewrite andb_false_r.
    + rewrite bool_decide_eq_false_2; [done|]. by apply Map_get_None_keys.
    + by rewrite Hclosed, andb_false_r.
Qed.

Lemma significant_update_queued_witness :
  let σ' := step (ev_message 1 (Some (in_player_update (state_at 0.01))) 300) two_clients in
  sent σ' = sent two_clients
  ∧ Map_get 2 (pendingUpdates σ') = Some [player_update "ia" (stamp 300 (state_at 0.01))]
  ∧ Map_get 1 (pendingUpdates σ') = None.
Proof.
  assert (NoDup (Map_keys (clients two_clients))) as Hnd
    by apply (reachable_well_formed _ two_clients_reachable).
  assert (Map_get 1 (clients two_clients) = Some (ClientData.mk "ia" (initialState 100) 100 100))
    as Hget by (vm_compute; reflexivity).
  assert (hasSignificantChange (Some (initialState 100)) (state_at 0.01) = true)
    as Hsig by (vm_compute; reflexivity).
  assert (is_OPEN 2 two_clients = true) as Ho by (vm_compute; reflexivity).
  assert (is_Some (Map_get 2 (clients two_clients))) as Hreg by (vm_compute; eexists; reflexivity).
  destruct (significant_update_queued 1 _ 300 _ _ Hnd Hget Hsig) as (_ & _ & H1 & _ & _ & _ & H2 & H3 & _).
  split; [exact H1|]. split.
  - exact (H2 2%nat ltac:(discriminate) Hreg Ho).
  - exact (H3 1%nat (or_introl eq_refl)).
Defined.

(** ** MessageRouter: chat, emotes and pings *)

(** A broadcast to everyone, started in a state that has the sockets and the
    registered sockets of [σ]. *)
Lemma broadcastImmediate_relay message σ1 σ :
  NoDup (Map_keys (clients σ1)) → sockets σ1 = sockets σ → sent σ1 = sent σ →
  (∀ w, is_Some (Map_get w (clients σ1)) ↔ is_Some (Map_get w (clients σ))) →
  ∃ rest, sent (broadcastImmediate message None σ1) = sent σ ++ rest
    ∧ (∀ w, survivor w σ → delivered message (frames_to w rest))
    ∧ (∀ w, ¬ survivor w σ → Forall notice_frame (frames_to w rest))
    ∧ (∀ w, is_OPEN w σ = false → frames_to w rest = []).
Proof.
  intros Hnd Hs Hsent Hreg.
  assert (∀ w, recipient None w σ1 ↔ survivor w σ) as Hrec.
  { intros w. unfold recipient, survivor.
    rewrite Hreg, (is_OPEN_sockets _ _ _ Hs), (throws_sockets _ _ _ Hs). split.
    - by intros (_ & ? & ? & ?).
    - by intros (? & ? & ?). }
  destruct (broadcastImmediate_delivery message None σ1 Hnd) as (rest & Heq & Hdel).
  exists rest. rewrite <-Hsent. split_and!; [done| | |].
  - intros w Hw. apply Hdel. by apply Hrec.
  - intros w Hw. apply Hdel. by rewrite Hrec.
  - intros w Hclosed.
    destruct (cascade_sent_OPEN _ _ _ _ (broadcastImmediate_cascade message None σ1))
      as (rest' & Heq' & Hall).
    rewrite Heq in Heq'. apply app_inv_head in Heq' as <-.
    eapply frames_to_not_OPEN; [exact Hall|]. by rewrite (is_OPEN_sockets _ _ _ Hs).
Qed.

Lemma Map_set_registered {V} k (v v' : V) m w :
  Map_get k m = Some v' → is_Some (Map_get w (Map_set k v m)) ↔ is_Some (Map_get w m).
Proof.
  intros Hk. destruct (decide (k = w)) as [->|Hne].
  - rewrite Map_get_set_eq, Hk. split; eauto.
  - by rewrite Map_get_set_ne.
Qed.

(** X3. A chat message from a registered sender (in a registry that holds
    each socket once, as a [Map] does) is appended to the chat history and
    broadcast at once, with the sender's id and the time of the
    message, to every registered socket that is open and takes the write, the
    sender's own included.  Every other socket gets at most notices of
    sockets the broadcast found failing, and a socket that is not open gets
    nothing. *)
Theorem chat_message_relayed ws message now σ senderData :
  NoDup (Map_keys (clients σ)) → Map_get ws (clients σ) = Some senderData →
  let σ' := step (ev_message ws (Some (in_chat_message message)) now) σ in
  let relayed := chat_message (ClientData.id senderData) message now in
  chatHistory σ' =
    chat_append (ChatEntry.mk (ClientData.id senderData) message now) (chatHistory σ)
  ∧ ∃ rest, sent σ' = sent σ ++ rest
      ∧ (∀ w, survivor w σ → delivered relayed (frames_to w rest))
      ∧ (∀ w, ¬ survivor w σ → Forall notice_frame (frames_to w rest))
      ∧ (∀ w, is_OPEN w σ = false → frames_to w rest = []).
Proof.
  intros Hnd Hget. cbv zeta. split; [by rewrite step_chatHistory, Hget|].
  unfold step, on_message. rewrite Hget. cbv zeta.
  apply broadcastImmediate_relay; try done.
  - simpl. by erewrite Map_keys_set_present.
  - intros w. simpl. by eapply Map_set_registered.
Qed.

Lemma chat_message_relayed_witness :
  let σ' := step (ev_message 1 (Some (in_chat_message "hi")) 300) two_clients in
  ∃ rest, sent σ' = sent two_clients ++ rest
    ∧ delivered (chat_message "ia" "hi" 300) (frames_to 1 rest)
    ∧ delivered (chat_message "ia" "hi" 300) (frames_to 2 rest).
Proof.
  assert (NoDup (Map_keys (clients two_clients))) as Hnd
    by apply (reachable_well_formed _ two_clients_reachable).
  assert (Map_get 1 (clients two_clients) = Some (ClientData.mk "ia" (initialState 100) 100 100))
    as Hget by (vm_compute; reflexivity).
  assert (survivor 1 two_clients) as H1.
  { split_and!; [|vm_compute; reflexivity..]. vm_compute. eexists. reflexivity. }
  assert (survivor 2 two_clients) as H2.
  { split_and!; [|vm_compute; reflexivity..]. vm_compute. eexists. reflexivity. }
  destruct (chat_message_relayed 1 "hi" 300 _ _ Hnd Hget) as (_ & rest & Heq & Hdel & _).
  exists rest. exact (conj Heq (conj (Hdel _ H1) (Hdel _ H2))).
Defined.

(** X4. An emote command from a registered sender (in a registry that holds
    each socket once, as a [Map] does) is relayed only when the emote is
    [wave] or [dance]: then [emote_start] with the sender's id, the
    emote and the time of the message is broadcast at once to every registered
    socket that is open and takes the write, the sender's own included.  Any
    other emote puts nothing on the wire: of the whole server only the
    sender's [lastHeartbeat] changes.  The chat history is not touched. *)
Theorem emote_relayed_if_valid ws emote now σ senderData :
  NoDup (Map_keys (clients σ)) → Map_get ws (clients σ) = Some senderData →
  let σ' := step (ev_message ws (Some (in_emote_command emote)) now) σ in
  chatHistory σ' = chatHistory σ
  ∧ (emote = "wave"%string ∨ emote = "dance"%string →
     ∃ rest, sent σ' = sent σ ++ rest
       ∧ (∀ w, survivor w σ →
               delivered (emote_start (ClientData.id senderData) emote now) (frames_to w rest))
       ∧ (∀ w, ¬ survivor w σ → Forall notice_frame (frames_to w rest))
       ∧ (∀ w, is_OPEN w σ = false → frames_to w rest = []))
  ∧ (emote ≠ "wave"%string → emote ≠ "dance"%string →
     σ' = set_clients (Map_set ws (set_lastHeartbeat now senderData)) σ ∧ sent σ' = sent σ).
Proof.
  intros Hnd Hget. cbv zeta. split; [by rewrite step_chatHistory|].
  unfold step, on_message. rewrite Hget. cbv zeta. split.
  - intros Hvalid. rewrite bool_decide_eq_true_2.
    + apply broadcastImmediate_relay; try done.
      * simpl. by erewrite Map_keys_set_present.
      * intros w. simpl. by eapply Map_set_registered.
    + unfold validEmotes. destruct Hvalid as [->| ->]; [left|right; left].
  - intros Hw Hd. rewrite bool_decide_eq_false_2; [done|].
    unfold validEmotes. intros [?|[?|[]%elem_of_nil]%elem_of_cons]%elem_of_cons; done.
Qed.

Lemma emote_relayed_if_valid_witness :
  let σ' := step (ev_message 1 (Some (in_emote_command "dance")) 300) two_clients in
  ∃ rest, sent σ' = sent two_clients ++ rest
    ∧ delivered (emote_start "ia" "dance" 300) (frames_to 2 rest).
Proof.
  assert (NoDup (Map_keys (clients two_clients))) as Hnd
    by apply (reachable_well_formed _ two_clients_reachable).
  assert (Map_get 1 (clients two_clients) = Some (ClientData.mk "ia" (initialState 100) 100 100))
    as Hget by (vm_compute; reflexivity).
  assert (survivor 2 two_clients) as H2.
  { split_and!; [|vm_compute; reflexivity..]. vm_compute. eexists. reflexivity. }
  destruct (emote_relayed_if_valid 1 "dance" 300 _ _ Hnd Hget) as (_ & Hvalid & _).
  destruct (Hvalid (or_intror eq_refl)) as (rest & Heq & Hdel & _).
  exists rest. exact (conj Heq (Hdel _ H2)).
Defined.

(** X5. A ping from a registered sender is answered to the sender alone: one
    [pong] frame that echoes the client's timestamp and carries the time of
    the message.  When the write throws, the failure is logged and that is
    all: unlike a failed broadcast, it does not take the sender out of the
    registry.  In every case the registry changes by the sender's
    [lastHeartbeat] only, and queues, chat history and timers are as before. *)
Theorem ping_answered_to_sender ws timestamp now σ senderData :
  Map_get ws (clients σ) = Some senderData →
  let σ' := step (ev_message ws (Some (in_ping timestamp)) now) σ in
  clients σ' = Map_set ws (set_lastHeartbeat now senderData) (clients σ)
  ∧ pendingUpdates σ' = pendingUpdates σ ∧ chatHistory σ' = chatHistory σ
  ∧ timers σ' = timers σ ∧ sockets σ' = sockets σ
  ∧ (is_OPEN ws σ = true → throws ws σ = false →
     sent σ' = sent σ ++ [(ws, Text (pong timestamp now))] ∧ console σ' = console σ)
  ∧ (throws ws σ = true → sent σ' = sent σ ∧ console σ' = console σ ++ [err_process])
  ∧ (is_OPEN ws σ = false → sent σ' = sent σ).
Proof.
  intros Hget. cbv zeta. unfold step, on_message. rewrite Hget. cbv zeta.
  set (σ1 := set_clients _ σ).
  assert (is_OPEN ws σ1 = is_OPEN ws σ ∧ throws ws σ1 = throws ws σ) as [Eo Et] by done.
  destruct (ws_send ws (pong timestamp now) σ1) as [σ2|] eqn:Hsend.
  - assert (throws ws σ = false) as Hthr.
    { rewrite <-Et. destruct (throws ws σ1) eqn:E; [|done].
      apply ws_send_None with (m := pong timestamp now) in E. congruence. }
    destruct (is_OPEN ws σ) eqn:Hopen.
    + rewrite ws_send_OPEN in Hsend by congruence. injection Hsend as <-.
      split_and!; try done. congruence.
    + rewrite ws_send_not_OPEN in Hsend by congruence. injection Hsend as <-.
      split_and!; try done. congruence.
  - apply ws_send_None in Hsend. split_and!; try done; congruence.
Qed.

Lemma ping_answered_to_sender_witness :
  let σ' := step (ev_message 1 (Some (in_ping (Some 7))) 300) two_clients in
  sent σ' = sent two_clients ++ [(1%nat, Text (pong (Some 7) 300))].
Proof.
  assert (Map_get 1 (clients two_clients) = Some (ClientData.mk "ia" (initialState 100) 100 100))
    as Hget by (vm_compute; reflexivity).
  assert (is_OPEN 1 two_clients = true) as Ho by (vm_compute; reflexivity).
  assert (throws 1 two_clients = false) as Ht by (vm_compute; reflexivity).
  destruct (ping_answered_to_sender 1 (Some 7) 300 _ _ Hget) as (_ & _ & _ & _ & _ & H & _).
  exact (proj1 (H Ho Ht)).
Defined.

(** ** ConnectionRegistry: what changes an entry *)

(** X6. An entry of the registry is changed only by messages on its own
    socket.  In a well-formed state, as every state the server can be in is,
    across any event that can happen and leaves a socket registered, its id is the
    same; its [lastHeartbeat] becomes the time of the event when the event is
    a message on that socket that parses, and is unchanged otherwise; its
    state and [lastUpdate] become the stamped state and the time of the event
    when the event is a significant update on that socket, and are unchanged
    otherwise. *)
Theorem registry_entry_frame e σ w d d' :
  well_formed σ → enabled e σ →
  Map_get w (clients σ) = Some d → Map_get w (clients (step e σ)) = Some d' →
  ClientData.id d' = ClientData.id d
  ∧ ((∃ m now, e = ev_message w (Some m) now ∧ ClientData.lastHeartbeat d' = now)
     ∨ ((∀ m now, e ≠ ev_message w (Some m) now)
        ∧ ClientData.lastHeartbeat d' = ClientData.lastHeartbeat d))
  ∧ ((∃ st now, e = ev_message w (Some (in_player_update st)) now
                ∧ hasSignificantChange (Some (ClientData.state d)) st = true
                ∧ ClientData.state d' = stamp now st ∧ ClientData.lastUpdate d' = now)
     ∨ ((∀ st now, e = ev_message w (Some (in_player_update st)) now →
                   hasSignificantChange (Some (ClientData.state d)) st = false)
        ∧ ClientData.state d' = ClientData.state d
        ∧ ClientData.lastUpdate d' = ClientData.lastUpdate d)).
Proof.
  intros (W1 & _ & _ & W4 & W5) Hen Hd.
  assert (∀ σ', settled σ σ' → Map_get w (clients σ') = Some d' → d' = d) as Hsame.
  { intros σ' Hs Hd'. apply Hs in Hd'. congruence. }
  assert (d' = d → (∀ m now, e ≠ ev_message w (Some m) now) →
    ClientData.id d' = ClientData.id d
    ∧ ((∃ m now, e = ev_message w (Some m) now ∧ ClientData.lastHeartbeat d' = now)
       ∨ ((∀ m now, e ≠ ev_message w (Some m) now)
          ∧ ClientData.lastHeartbeat d' = ClientData.lastHeartbeat d))
    ∧ ((∃ st now, e = ev_message w (Some (in_player_update st)) now
                  ∧ hasSignificantChange (Some (ClientData.state d)) st = true
                  ∧ ClientData.state d' = stamp now st ∧ ClientData.lastUpdate d' = now)
       ∨ ((∀ st now, e = ev_message w (Some (in_player_update st)) now →
                     hasSignificantChange (Some (ClientData.state d)) st = false)
          ∧ ClientData.state d' = ClientData.state d
          ∧ ClientData.lastUpdate d' = ClientData.lastUpdate d))) as Hquiet.
  { intros -> Hne. split_and!; [done|right; done|right]. split_and!; [|done..].
    intros st now ->. by destruct (Hne (in_player_update st) now). }
  destruct e as [ws id t1 t2 t3 t4|ws messageString now|ws|ws|ws| |t|ws rs th]; simpl.
  - intros Hd'. apply Hquiet; [|done].
    destruct (on_connection_from ws id t1 t2 t3 t4 (accept ws σ)) as (σ1 & Hc & _ & _ & _ & Hs).
    apply Hs in Hd'. rewrite Hc in Hd'. simpl in Hd', Hen.
    assert (ws ≠ w) as Hne.
    { intros ->. assert (w ∈ dom (sockets σ)) as Hin by (apply W5, W4; by rewrite Hd).
      apply elem_of_dom in Hin as [s Hs']. congruence. }
    rewrite Map_get_set_ne in Hd' by done. congruence.
  - unfold on_message. destruct messageString as [message|]; [|intros Hd'; apply Hquiet; [simpl in Hd'; congruence|done]].
    destruct (Map_get ws (clients σ)) as [sd|] eqn:Hsd; [|intros Hd'; apply Hquiet; [congruence|]].
    2:{ intros m t [= -> _ _]. congruence. }
    destruct (decide (ws = w)) as [->|Hne].
    + assert (sd = d) as -> by congruence. clear Hquiet.
      assert (∀ σ1 σ', settled σ1 σ' → clients σ1 = Map_set w (set_lastHeartbeat now d) (clients σ) →
                Map_get w (clients σ') = Some d' → d' = set_lastHeartbeat now d) as Hhb.
      { intros σ1 σ' Hs Hc Hd'. apply Hs in Hd'. rewrite Hc, Map_get_set_eq in Hd'. congruence. }
      assert (d' = set_lastHeartbeat now d →
              (∀ st, message = in_player_update st →
                     hasSignificantChange (Some (ClientData.state d)) st = false) →
        ClientData.id d' = ClientData.id d
        ∧ ((∃ m now0, ev_message w (Some message) now = ev_message w (Some m) now0
                      ∧ ClientData.lastHeartbeat d' = now0)
           ∨ ((∀ m now0, ev_message w (Some message) now ≠ ev_message w (Some m) now0)
              ∧ ClientData.lastHeartbeat d' = ClientData.lastHeartbeat d))
        ∧ ((∃ st now0, ev_message w (Some message) now = ev_message w (Some (in_player_update st)) now0
                      ∧ hasSignificantChange (Some (ClientData.state d)) st = true
                      ∧ ClientData.state d' = stamp now0 st ∧ ClientData.lastUpdate d' = now0)
           ∨ ((∀ st now0, ev_message w (Some message) now = ev_message w (Some (in_player_update st)) now0 →
                          hasSignificantChange (Some (ClientData.state d)) st = false)
              ∧ ClientData.state d' = ClientData.state d
              ∧ ClientData.lastUpdate d' = ClientData.lastUpdate d))) as Hmsg.
      { intros -> Hins. split_and!; [done|left; eauto|right]. split_and!; [|done..].
        intros st now0 [= ->]. by apply Hins. }
      destruct message as [state|message|emote|ts|ty]; simpl.
      * change (ClientData.state (set_lastHeartbeat now d)) with (ClientData.state d).
        destruct (hasSignificantChange (Some (ClientData.state d)) state) eqn:Hsig.
        -- match goal with |- context [batchBroadcast ?m ?x false ?s] =>
             destruct (batchBroadcast_frame m x s) as (_ & -> & _) end.
           simpl. rewrite Map_get_set_eq. intros [= <-]. simpl.
           split_and!; [done|left; eauto|left]. eauto 10.
        -- simpl. rewrite Map_get_set_eq. intros [= <-]. apply Hmsg; [done|]. by intros st [= <-].
      * intros Hd'. apply Hmsg; [|done].
        eapply Hhb; [apply broadcastImmediate_settled| |exact Hd']. done.
      * destruct (bool_decide _).
        -- intros Hd'. apply Hmsg; [|done].
           eapply Hhb; [apply broadcastImmediate_settled| |exact Hd']. done.
        -- simpl. rewrite Map_get_set_eq. intros [= <-]. by apply Hmsg.
      * destruct (ws_send _ _ _) as [σ'|] eqn:Hsend.
        -- intros Hd'. apply Hmsg; [|done].
           eapply Hhb; [by eapply ws_send_settled| |exact Hd']. done.
        -- simpl. rewrite Map_get_set_eq. intros [= <-]. by apply Hmsg.
      * simpl. rewrite Map_get_set_eq. intros [= <-]. by apply Hmsg.
    + intros Hd'. apply Hquiet; [|intros m t [= -> _ _]; done].
      assert (∀ σ1 σ', settled σ1 σ' → (∀ x, ws ≠ x → Map_get x (clients σ1) = Map_get x (clients σ)) →
                Map_get w (clients σ') = Some d' → d' = d) as Hoth.
      { intros σ1 σ' Hs Hc Hd0. apply Hs in Hd0. rewrite Hc in Hd0 by done. congruence. }
      assert (∀ x v, ws ≠ x → Map_get x (Map_set ws v (clients σ)) = Map_get x (clients σ)) as Hset.
      { intros x v Hx. by apply Map_get_set_ne. }
      destruct message as [state|message|emote|ts|ty]; simpl in Hd'.
      * destruct (hasSignificantChange _ _).
        -- match type of Hd' with context [batchBroadcast ?m ?x false ?s] =>
             destruct (batchBroadcast_frame m x s) as (_ & Hc & _); rewrite Hc in Hd' end.
           simpl in Hd'. rewrite !Map_get_set_ne in Hd' by done. congruence.
        -- simpl in Hd'. rewrite Hset in Hd' by done. congruence.
      * eapply Hoth; [apply broadcastImmediate_settled| |exact Hd']. simpl. intros x Hx. by apply Hset.
      * destruct (bool_decide _).
        -- eapply Hoth; [apply broadcastImmediate_settled| |exact Hd']. simpl. intros x Hx. by apply Hset.
        -- simpl in Hd'. rewrite Hset in Hd' by done. congruence.
      * destruct (ws_send _ _ _) as [σ'|] eqn:Hsend.
        -- eapply Hoth; [by eapply ws_send_settled| |exact Hd']. simpl. intros x Hx. by apply Hset.
        -- simpl in Hd'. rewrite Hset in Hd' by done. congruence.
      * simpl in Hd'. rewrite Hset in Hd' by done. congruence.
  - intros Hd'. apply Hquiet; [simpl in Hd'; congruence|done].
  - intros Hd'. apply Hquiet; [|done]. unfold on_close in Hd'.
    apply (handleClientDisconnect_settled ws (closed ws σ)) in Hd'. simpl in Hd'. congruence.
  - intros Hd'. apply Hquiet; [|done]. unfold on_error in Hd'.
    eapply handleClientDisconnect_settled in Hd'. simpl in Hd'. congruence.
  - intros Hd'. apply Hquiet; [|done]. eapply Hsame; [apply heartbeatInterval_settled|done].
  - intros Hd'. apply Hquiet; [|done]. unfold flushBatchedUpdates in Hd'. simpl in Hd'.
    eapply flush_loop_settled in Hd'. simpl in Hd'. congruence.
  - intros Hd'. apply Hquiet; [simpl in Hd'; congruence|done].
Qed.

Lemma registry_entry_frame_witness :
  let σ' := step (ev_message 1 (Some (in_player_update (state_at 0.01))) 300) two_clients in
  ∃ d', Map_get 1 (clients σ') = Some d' ∧ ClientData.id d' = "ia"%string.
Proof.
  intros σ'.
  assert (enabled (ev_message 1 (Some (in_player_update (state_at 0.01))) 300) two_clients) as Hen
    by (vm_compute; eexists; reflexivity).
  assert (Map_get 1 (clients two_clients) = Some (ClientData.mk "ia" (initialState 100) 100 100))
    as H1 by (vm_compute; reflexivity).
  assert (Map_get 1 (clients σ') = Some (ClientData.mk "ia" (stamp 300 (state_at 0.01)) 300 300))
    as H1' by (vm_compute; reflexivity).
  destruct (registry_entry_frame _ _ 1%nat _ _ (reachable_well_formed _ two_clients_reachable)
              Hen H1 H1') as (Hid & _).
  eexists. exact (conj H1' Hid).
Defined.

(** ** The queues *)

Lemma cascade_queues_ok V M σ σ' : rtc (cascade_step V M) σ σ' → queues_ok σ → queues_ok σ'.
Proof.
  induction 1 as [|σ1 σ2 σ3 Hstep _ IH]; [done|]. intros Hq. apply IH. clear IH.
  destruct Hstep as [| |w d σ1 _ Hd]; try done.
  intros ws q Hws. simpl in *. apply Map_get_delete_Some in Hws as [Hne Hws].
  rewrite Map_get_delete_ne by done. by apply Hq.
Qed.

Lemma enqueue_visit_queues_ok message excludeWs ws σ :
  is_player_update message → is_Some (Map_get ws (clients σ)) →
  queues_ok σ → queues_ok (enqueue_visit message excludeWs ws σ).
Proof.
  intros Hm Hreg Hq w q. rewrite enqueue_visit_get.
  rewrite enqueue_visit_clients.
  destruct (decide (w = ws)) as [->|Hne]; [|by apply Hq].
  destruct (_ && _); [|by apply Hq]. intros [= <-]. split_and!; [done|by destruct (default _ _)|].
  apply Forall_app. split; [|by repeat constructor].
  destruct (Map_get ws (pendingUpdates σ)) as [q0|] eqn:Hq0; simpl; [|constructor].
  by apply Hq in Hq0 as (_ & _ & ?).
Qed.

Lemma enqueue_loop_queues_ok message excludeWs todo σ :
  is_player_update message → (∀ ws, ws ∈ todo → is_Some (Map_get ws (clients σ))) →
  queues_ok σ → queues_ok (foldl (λ σ ws, enqueue_visit message excludeWs ws σ) σ todo).
Proof.
  intros Hm. revert σ. induction todo as [|ws todo IH]; intros σ Hreg Hq; simpl; [done|].
  apply IH.
  - intros w Hw. rewrite enqueue_visit_clients. apply Hreg. by right.
  - apply enqueue_visit_queues_ok; [done| |done]. apply Hreg. by left.
Qed.

Lemma queues_ok_same σ σ' :
  (∀ w, is_Some (Map_get w (clients σ)) → is_Some (Map_get w (clients σ'))) →
  pendingUpdates σ' = pendingUpdates σ → queues_ok σ → queues_ok σ'.
Proof.
  intros Hc Hp Hq ws q. rewrite Hp. intros (? & ? & ?)%Hq. split_and!; auto.
Qed.

Lemma ws_send_queues_ok ws m σ σ' : ws_send ws m σ = Some σ' → queues_ok σ → queues_ok σ'.
Proof. intros [->|[_ ->]]%ws_send_Some; [done|]. by apply queues_ok_same. Qed.

Lemma handleClientDisconnect_queues_ok ws σ :
  queues_ok σ → queues_ok (handleClientDisconnect ws σ).
Proof. eapply cascade_queues_ok, handleClientDisconnect_cascade. Qed.

Lemma broadcastImmediate_queues_ok message excludeWs σ :
  queues_ok σ → queues_ok (broadcastImmediate message excludeWs σ).
Proof. eapply cascade_queues_ok, broadcastImmediate_cascade. Qed.

Lemma sweep_visit_queues_ok ws σ : queues_ok σ → queues_ok (sweep_visit ws σ).
Proof.
  intros Hq. unfold sweep_visit. destruct (sockets σ !! ws) as [s|]; [|done].
  destruct (negb (Socket.isAlive s)).
  - eapply queues_ok_same; [| |by apply (handleClientDisconnect_queues_ok ws)]; done.
  - destruct (is_OPEN ws _); by eapply queues_ok_same.
Qed.

Lemma well_formed_fresh ws σ :
  well_formed σ → sockets σ !! ws = None → Map_get ws (clients σ) = None.
Proof.
  intros (_ & _ & _ & W4 & W5) Hfresh.
  destruct (Map_get ws (clients σ)) as [d|] eqn:Hd; [|done].
  assert (ws ∈ dom (sockets σ)) as Hin by (apply W5, W4; by rewrite Hd).
  apply elem_of_dom in Hin as [s Hs]. congruence.
Qed.

Lemma step_queues_ok e σ : well_formed σ → enabled e σ → queues_ok σ → queues_ok (step e σ).
Proof.
  intros Hwf Hen Hq.
  destruct e as [ws id t1 t2 t3 t4|ws messageString now|ws|ws|ws| |t|ws rs th].
  - simpl in Hen. pose proof (well_formed_fresh ws σ Hwf Hen) as Hnone.
    destruct (on_connection_eq ws id t1 t2 t3 t4 σ Hen Hnone) as (σe & -> & _ & Hcl & _ & Hp).
    apply broadcastImmediate_queues_ok. apply (queues_ok_same σ); [|exact Hp|exact Hq].
    intros w [d Hd]. rewrite Hcl. erewrite Map_get_app_Some; eauto.
  - simpl. unfold on_message. destruct messageString as [message|]; [|by eapply queues_ok_same].
    destruct (Map_get ws (clients σ)) as [sd|] eqn:Hsd; [|done].
    set (σ1 := set_clients (Map_set ws (set_lastHeartbeat now sd)) σ).
    assert (queues_ok σ1) as Hq1.
    { apply (queues_ok_same σ); [|done|exact Hq]. intros w Hw. simpl. by eapply Map_set_registered. }
    destruct message as [state|message|emote|ts|ty]; simpl.
    + destruct (hasSignificantChange _ _); [|done].
      set (d2 := ClientData.mk _ _ _ _). set (u := player_update _ _).
      set (σ2 := set_clients (Map_set ws d2) σ1).
      assert (queues_ok σ2) as Hq2.
      { apply (queues_ok_same σ1); [|done|exact Hq1]. intros w Hw. simpl.
        eapply Map_set_registered; [apply Map_get_set_eq|done]. }
      unfold batchBroadcast.
      assert (queues_ok (foldl (λ σ ws0, enqueue_visit u (Some ws) ws0 σ) σ2 (Map_keys (clients σ2))))
        as Hq3.
      { apply enqueue_loop_queues_ok; [by eexists _, _, _| |done].
        intros w Hw. destruct (Map_get w (clients σ2)) eqn:E; [eauto|].
        by apply Map_get_None_keys in E. }
      destruct (updateBatchTimer _); [done|]. by eapply queues_ok_same.
    + apply broadcastImmediate_queues_ok. by eapply queues_ok_same.
    + destruct (bool_decide _); [|done]. by apply broadcastImmediate_queues_ok.
    + destruct (ws_send _ _ _) as [σ'|] eqn:Hsend; [by eapply ws_send_queues_ok|].
      by eapply queues_ok_same.
    + done.
  - by eapply queues_ok_same.
  - simpl. unfold on_close. apply handleClientDisconnect_queues_ok. by eapply queues_ok_same.
  - simpl. unfold on_error. apply handleClientDisconnect_queues_ok. by eapply queues_ok_same.
  - simpl. unfold heartbeatInterval. generalize (wss_clients σ) as todo. intros todo.
    clear Hwf Hen. revert σ Hq. induction todo as [|w todo IH]; intros σ Hq; simpl; [done|].
    apply IH. by apply sweep_visit_queues_ok.
  - intros ws q. simpl. unfold flushBatchedUpdates. simpl. done.
  - by eapply queues_ok_same.
Qed.

Lemma reachable_queues_ok σ : reachable σ → queues_ok σ.
Proof.
  induction 1 as [|e σ Hr IH Hen]; [by intros ws q|].
  apply step_queues_ok; [by apply reachable_well_formed|done|done].
Qed.

(** An event that does not enqueue adds no queue. *)
Lemma step_pending_keys e σ :
  enqueues e σ = false →
  sublist (Map_keys (pendingUpdates (step e σ))) (Map_keys (pendingUpdates σ)).
Proof.
  intros Hq.
  assert (∀ σ1 σ', settled σ1 σ' → pendingUpdates σ1 = pendingUpdates σ →
            sublist (Map_keys (pendingUpdates σ')) (Map_keys (pendingUpdates σ))) as Hs.
  { intros σ1 σ' (_&_&_&_&_&_&_&_&_&S10) <-. done. }
  destruct e as [ws id t1 t2 t3 t4|ws [message|] now|ws|ws|ws| |t|ws rs th]; simpl; try done.
  - destruct (on_connection_from ws id t1 t2 t3 t4 (accept ws σ)) as (σ1 & _ & Hp & _ & _ & Hs1).
    by eapply Hs.
  - unfold on_message. simpl in Hq. destruct (Map_get ws (clients σ)) as [d|]; [|done].
    destruct message as [state|message|emote|ts|ty]; simpl.
    + change (ClientData.state (set_lastHeartbeat now d)) with (ClientData.state d). by rewrite Hq.
    + eapply Hs; [apply broadcastImmediate_settled|done].
    + destruct (bool_decide _); [|done]. eapply Hs; [apply broadcastImmediate_settled|done].
    + destruct (ws_send _ _ _) as [σ'|] eqn:Hsend; [|done].
      eapply Hs; [by eapply ws_send_settled|done].
    + done.
  - unfold on_close. eapply Hs; [apply handleClientDisconnect_settled|done].
  - unfold on_error. eapply Hs; [apply handleClientDisconnect_settled|done].
  - eapply Hs; [apply heartbeatInterval_settled|done].
  - unfold flushBatchedUpdates. simpl. apply sublist_nil_l.
Qed.

Lemma reachable_pending_scheduled σ :
  reachable σ → pendingUpdates σ ≠ [] → is_Some (updateBatchTimer σ).
Proof.
  induction 1 as [|e σ Hr IH Hen]; [done|]. intros Hne.
  destruct (enqueues e σ) eqn:Hq.
  - pose proof (step_schedule_enqueue e σ Hq) as H. simpl in H.
    destruct (updateBatchTimer σ); destruct H as [-> _]; eauto.
  - pose proof (step_pending_keys e σ Hq) as Hsub.
    assert (pendingUpdates σ ≠ []) as Hne0.
    { intros E. rewrite E in Hsub. apply sublist_nil_r in Hsub.
      destruct (pendingUpdates (step e σ)); done. }
    pose proof (step_schedule_other e σ Hq) as [_ H]. simpl in H.
    destruct e; try (destruct H as [-> _]; by apply IH).
    exfalso. apply Hne. by destruct (flushBatchedUpdates_schedule (set_timers (filter (λ t, t ≠ timer)) σ))
      as (_ & _ & _ & ?).
Qed.

(** X7. In every state the server can be in, a queue belongs to a registered
    socket, is not empty, and holds nothing but stamped [player_update]
    messages; and as long as there is a queue, [updateBatchTimer] names a
    timeout that is set, and it is the only one: what is queued is flushed
    when it fires. *)
Theorem queues_owned_and_scheduled σ :
  reachable σ →
  (∀ ws queue, Map_get ws (pendingUpdates σ) = Some queue →
     is_Some (Map_get ws (clients σ)) ∧ queue ≠ []
     ∧ Forall (λ m, ∃ id now state, m = player_update id (stamp now state)) queue)
  ∧ (pendingUpdates σ ≠ [] →
     ∃ t, updateBatchTimer σ = Some t ∧ timers σ = [t] ∧ enabled (ev_flush t) σ).
Proof.
  intros Hr. split; [apply (reachable_queues_ok σ Hr)|].
  intros Hne. destruct (reachable_pending_scheduled σ Hr Hne) as [t Ht].
  pose proof (reachable_timers σ Hr) as Hts. unfold scheduled in Hts. rewrite Ht in Hts.
  exists t. split_and!; [done|done|]. simpl. rewrite Hts. by left.
Qed.

Lemma queues_owned_and_scheduled_witness :
  let σ := step (ev_message 1 (Some (in_player_update (state_at 0.01))) 300) two_clients in
  Map_keys (pendingUpdates σ) = [2%nat] ∧ ∃ t, updateBatchTimer σ = Some t ∧ timers σ = [t].
Proof.
  intros σ.
  assert (reachable σ) as Hr.
  { constructor; [exact two_clients_reachable|]. vm_compute. eexists. reflexivity. }
  assert (Map_keys (pendingUpdates σ) = [2%nat]) as Hk by (vm_compute; reflexivity).
  assert (pendingUpdates σ ≠ []) as Hne.
  { intros E. rewrite E in Hk. discriminate Hk. }
  destruct (queues_owned_and_scheduled σ Hr) as [_ H].
  destruct (H Hne) as (t & H1 & H2 & _).
  split; [exact Hk|]. exists t. exact (conj H1 H2).
Defined.

(** ** What goes on the wire *)

Lemma relays_refl σ : relays σ σ.
Proof. split; [done|]. exists []. by rewrite app_nil_r. Qed.

Lemma relays_trans σ1 σ2 σ3 : relays σ1 σ2 → relays σ2 σ3 → relays σ1 σ3.
Proof.
  intros [D1 (r1 & E1 & F1)] [D2 (r2 & E2 & F2)]. split; [congruence|].
  exists (r1 ++ r2). split; [by rewrite E2, E1, app_assoc|].
  apply Forall_app. split; [done|]. eapply Forall_impl; [exact F2|].
  intros p [? ?]. by rewrite <-D1.
Qed.

Lemma relays_quiet σ σ' : sockets σ' = sockets σ → sent σ' = sent σ → relays σ σ'.
Proof. intros Hs He. split; [by rewrite Hs|]. exists []. by rewrite app_nil_r. Qed.

Lemma is_OPEN_dom ws σ : is_OPEN ws σ = true → ws ∈ dom (sockets σ).
Proof.
  unfold is_OPEN. intros H. apply elem_of_dom. destruct (sockets σ !! ws); [eauto|done].
Qed.

Lemma cascade_relays V M σ σ' :
  (∀ w m, M w m → wire_message m ∧ ¬ is_greeting m) →
  rtc (cascade_step V M) σ σ' → relays σ σ'.
Proof.
  intros HM Hc. split; [by rewrite (cascade_sockets _ _ _ _ Hc)|].
  destruct (cascade_sent _ _ _ _ Hc) as (rest & Heq & Hall). exists rest. split; [done|].
  eapply Forall_impl; [exact Hall|]. intros [w f] (m & d & Hf & Hm & _ & Ho & _). simpl in *.
  subst f. split; [by apply HM in Hm|by apply is_OPEN_dom].
Qed.

Lemma notice_relayed m : is_notice m → wire_message m ∧ ¬ is_greeting m.
Proof. intros [id ->]. split; [constructor|by intros ?]. Qed.

Lemma handleClientDisconnect_relays ws σ : relays σ (handleClientDisconnect ws σ).
Proof.
  eapply cascade_relays; [|apply handleClientDisconnect_cascade].
  intros w m. apply notice_relayed.
Qed.

Lemma broadcastImmediate_relays message excludeWs σ :
  wire_message message → ¬ is_greeting message →
  relays σ (broadcastImmediate message excludeWs σ).
Proof.
  intros Hw Hg. eapply cascade_relays; [|apply broadcastImmediate_cascade].
  intros w m [[-> _]|Hn]; [done|by apply notice_relayed].
Qed.

Lemma ws_send_relays ws m σ σ' :
  wire_message m → ¬ is_greeting m → ws_send ws m σ = Some σ' → relays σ σ'.
Proof.
  intros Hw Hg [->|[Ho ->]]%ws_send_Some; [apply relays_refl|].
  split; [done|]. exists [(ws, Text m)]. split; [done|].
  constructor; [|constructor]. split; [done|by apply is_OPEN_dom].
Qed.

Lemma flush_payload_wire messages data :
  Forall is_player_update messages → flush_payload messages = Some data →
  wire_message data ∧ ¬ is_greeting data.
Proof.
  intros Hall. destruct messages as [|m1 [|m2 ms]]; simpl; [done| |]; intros [= <-].
  - apply Forall_cons in Hall as [(id & t & s & ->) _]. split; [constructor|by intros ?].
  - split; [|by intros ?]. apply wire_batch_update; [simpl; lia|done].
Qed.

Lemma flush_loop_relays todo σ :
  (∀ ws q, Map_get ws (pendingUpdates σ) = Some q → Forall is_player_update q) →
  relays σ (flush_loop todo σ).
Proof.
  revert σ. induction todo as [|ws todo IH]; intros σ Hq; simpl; [apply relays_refl|].
  assert (∀ σ1, settled σ σ1 → relays σ σ1 → relays σ (flush_loop todo σ1)) as Hnext.
  { intros σ1 Hs Hr. eapply relays_trans; [exact Hr|]. apply IH.
    intros w q Hw. apply Hs in Hw. by eapply Hq. }
  destruct (Map_get ws (pendingUpdates σ)) as [messages|] eqn:Hget;
    [|apply Hnext; [apply settled_refl|apply relays_refl]].
  apply Hnext; [apply flush_visit_settled|].
  unfold flush_visit. destruct (is_OPEN ws σ); [|apply relays_refl].
  destruct (flush_payload messages) as [data|] eqn:Hpay; [|apply relays_refl].
  destruct (flush_payload_wire messages data (Hq _ _ Hget) Hpay) as [Hw Hg].
  destruct (ws_send ws data σ) as [σ'|] eqn:Hsend; [by eapply ws_send_relays|].
  eapply relays_trans; [|apply handleClientDisconnect_relays]. by apply relays_quiet.
Qed.

Lemma sweep_visit_relays ws σ : relays σ (sweep_visit ws σ).
Proof.
  unfold sweep_visit. destruct (sockets σ !! ws) as [s|] eqn:Hs; [|apply relays_refl].
  destruct (negb (Socket.isAlive s)).
  - eapply relays_trans; [apply handleClientDisconnect_relays|].
    split; [simpl; by rewrite dom_alter_L|]. exists []. by rewrite app_nil_r.
  - destruct (is_OPEN ws (set_isAlive ws false σ)) eqn:Ho.
    + split; [simpl; by rewrite dom_alter_L|]. exists [(ws, PingFrame)]. split; [done|].
      constructor; [|constructor]. split; [done|]. apply elem_of_dom. eauto.
    + split; [simpl; by rewrite dom_alter_L|]. exists []. by rewrite app_nil_r.
Qed.

Lemma heartbeatInterval_relays σ : relays σ (heartbeatInterval σ).
Proof.
  unfold heartbeatInterval. generalize (wss_clients σ) as todo. intros todo. revert σ.
  induction todo as [|ws todo IH]; intros σ; simpl; [apply relays_refl|].
  eapply relays_trans; [apply sweep_visit_relays|apply IH].
Qed.

Lemma on_message_relays ws messageString now σ :
  queues_ok σ → relays σ (on_message ws messageString now σ).
Proof.
  intros Hq. unfold on_message. destruct messageString as [message|]; [|by apply relays_quiet].
  destruct (Map_get ws (clients σ)) as [sd|]; [|apply relays_refl].
  set (σ1 := set_clients (Map_set ws (set_lastHeartbeat now sd)) σ).
  assert (relays σ σ1) as H1 by by apply relays_quiet.
  destruct message as [state|message|emote|ts|ty]; simpl.
  - destruct (hasSignificantChange _ _); [|done].
    match goal with |- context [batchBroadcast ?m ?x false ?s] =>
      destruct (batchBroadcast_frame m x s) as (Hs & _ & _ & He & _) end.
    apply relays_quiet; [by rewrite Hs|by rewrite He].
  - eapply relays_trans; [|apply broadcastImmediate_relays; [constructor|by intros ?]].
    by apply relays_quiet.
  - destruct (bool_decide (emote ∈ validEmotes)) eqn:Hv; [|done].
    apply bool_decide_eq_true in Hv.
    eapply relays_trans; [exact H1|]. apply broadcastImmediate_relays; [by constructor|by intros ?].
  - destruct (ws_send _ _ _) as [σ'|] eqn:Hsend.
    + eapply relays_trans; [exact H1|]. eapply ws_send_relays; [constructor|by intros ?|exact Hsend].
    + by apply relays_quiet.
  - done.
Qed.

(** What an event puts on the wire: the greeting, for a connection, and then
    frames that belong to no greeting, each for a socket object. *)
Lemma step_wire e σ :
  well_formed σ → queues_ok σ → enabled e σ →
  ∃ rest, sent (step e σ) = sent σ ++ greets e σ ++ rest
    ∧ Forall (λ p, relay_frame p.2 ∧ p.1 ∈ dom (sockets (step e σ))) rest.
Proof.
  intros Hwf Hq Hen.
  assert (∀ σ1, relays σ1 (step e σ) → sent σ1 = sent σ ++ greets e σ →
            ∃ rest, sent (step e σ) = sent σ ++ greets e σ ++ rest
              ∧ Forall (λ p, relay_frame p.2 ∧ p.1 ∈ dom (sockets (step e σ))) rest) as Hfrom.
  { intros σ1 [Hd (rest & Heq & Hall)] Hs. exists rest. split; [by rewrite Heq, Hs, app_assoc|].
    eapply Forall_impl; [exact Hall|]. intros p [? ?]. by rewrite Hd. }
  destruct e as [ws id t1 t2 t3 t4|ws messageString now|ws|ws|ws| |t|ws rs th].
  - simpl in Hen. pose proof (well_formed_fresh ws σ Hwf Hen) as Hnone.
    destruct (on_connection_eq ws id t1 t2 t3 t4 σ Hen Hnone) as (σe & Heq & Hsent & _).
    apply (Hfrom σe); [|done]. rewrite Heq.
    apply broadcastImmediate_relays; [constructor|by intros ?].
  - apply (Hfrom σ); [by apply on_message_relays|by rewrite app_nil_r].
  - apply (Hfrom σ); [|by rewrite app_nil_r]. split; [simpl; by rewrite dom_alter_L|].
    exists []. by rewrite app_nil_r.
  - apply (Hfrom (closed ws σ)); [|by rewrite app_nil_r]. apply handleClientDisconnect_relays.
  - apply (Hfrom (console_write (err_socket match Map_get ws (clients σ) with
         | Some clientData => if bool_decide (ClientData.id clientData = ""%string)
                              then "unknown"%string else ClientData.id clientData
         | None => "unknown"%string end) σ)); [|by rewrite app_nil_r].
    apply handleClientDisconnect_relays.
  - apply (Hfrom σ); [apply heartbeatInterval_relays|by rewrite app_nil_r].
  - apply (Hfrom (set_timers (filter (λ t0, t0 ≠ t)) σ)); [|by rewrite app_nil_r].
    simpl. unfold flushBatchedUpdates.
    pose proof (flush_loop_relays (Map_keys (pendingUpdates σ)) (set_timers (filter (λ t0, t0 ≠ t)) σ))
      as [Hd (rest & Heq & Hall)].
    { intros w q Hw. by apply Hq in Hw as (_ & _ & ?). }
    split; [done|]. by exists rest.
  - apply (Hfrom σ); [|by rewrite app_nil_r]. split; [simpl; by rewrite dom_alter_L|].
    exists []. by rewrite app_nil_r.
Qed.

Lemma reachable_chatHistory_length σ : reachable σ → length (chatHistory σ) ≤ MAX_CHAT_HISTORY.
Proof.
  induction 1 as [|e σ Hr IH Hen]; [simpl; unfold MAX_CHAT_HISTORY; lia|].
  rewrite step_chatHistory.
  destruct e as [| ? [[]|] ?| | | | | |]; try done.
  destruct (Map_get _ _); [|done]. by apply chat_append_length.
Qed.

Lemma relay_frame_wire f : relay_frame f → wire_frame f.
Proof. destruct f; [by intros [? _]|done]. Qed.

(** X8. Every frame the server has put on the wire is a ping or one of the
    ten messages of the protocol, and these are well formed:
    [existing_players] and [chat_history] are never empty, [chat_history]
    holds at most 25 entries, a [player_update] carries the two timestamps the
    server stamps, a [batch_update] holds at least two messages, all of them
    such [player_update]s (never a batch within a batch), and an
    [emote_start] names [wave] or [dance]. *)
Theorem wire_protocol σ : reachable σ → Forall (λ p, wire_frame p.2) (sent σ).
Proof.
  induction 1 as [|e σ Hr IH Hen]; [constructor|].
  destruct (step_wire e σ (reachable_well_formed σ Hr) (reachable_queues_ok σ Hr) Hen)
    as (rest & -> & Hall).
  rewrite !Forall_app. split_and!; [done| |].
  - destruct e; [|exact (Forall_nil_2 _)..]. unfold greets, greeting.
    pose proof (reachable_chatHistory_length σ Hr) as Hlen.
    rewrite !Forall_app. split_and!.
    + repeat constructor.
    + destruct (playersData_of (clients σ)) eqn:E; [constructor|].
      constructor; [|constructor]. by constructor.
    + destruct (chatHistory σ) eqn:E; [constructor|].
      constructor; [|constructor]. by constructor.
  - eapply Forall_impl; [exact Hall|]. intros p [? _]. by apply relay_frame_wire.
Qed.

Lemma wire_protocol_witness :
  let σ := run [ev_message 1 (Some (in_chat_message "hi")) 300; ev_heartbeat] two_clients in
  Forall (λ p, wire_frame p.2) (sent σ).
Proof.
  apply wire_protocol. apply run_reachable; [exact two_clients_reachable|].
  repeat split; vm_compute; eexists; reflexivity.
Defined.

(** ** The id a client is told *)

Lemma on_message_entry_id ws messageString now σ w d' :
  Map_get w (clients (on_message ws messageString now σ)) = Some d' →
  ∃ d, Map_get w (clients σ) = Some d ∧ ClientData.id d' = ClientData.id d.
Proof.
  unfold on_message. destruct messageString as [message|]; [|by eauto].
  destruct (Map_get ws (clients σ)) as [sd|] eqn:Hsd; [|by eauto].
  assert (∀ dd m, ClientData.id dd = ClientData.id sd →
            (∀ x, Map_get x m = Some d' →
                  ∃ d, Map_get x (clients σ) = Some d ∧ ClientData.id d' = ClientData.id d) →
            Map_get w (Map_set ws dd m) = Some d' →
            ∃ d, Map_get w (clients σ) = Some d ∧ ClientData.id d' = ClientData.id d) as Hset.
  { intros dd m Hid Hm. destruct (decide (ws = w)) as [->|Hne].
    - rewrite Map_get_set_eq. intros [= <-]. eauto.
    - rewrite Map_get_set_ne by done. apply Hm. }
  assert (∀ x, Map_get x (clients σ) = Some d' →
               ∃ d, Map_get x (clients σ) = Some d ∧ ClientData.id d' = ClientData.id d) as H0
    by eauto.
  assert (∀ σ', settled (set_clients (Map_set ws (set_lastHeartbeat now sd)) σ) σ' →
            Map_get w (clients σ') = Some d' →
            ∃ d, Map_get w (clients σ) = Some d ∧ ClientData.id d' = ClientData.id d) as Hs.
  { intros σ' Hs Hd'. apply Hs in Hd'. simpl in Hd'. eapply Hset; [|exact H0|exact Hd']. done. }
  destruct message as [state|message|emote|ts|ty]; simpl.
  - destruct (hasSignificantChange _ _); [|by apply Hset].
    match goal with |- context [batchBroadcast ?m ?x false ?s] =>
      destruct (batchBroadcast_frame m x s) as (_ & -> & _) end.
    simpl. apply Hset; [done|]. intros x Hx.
    destruct (decide (ws = x)) as [->|Hne].
    + rewrite Map_get_set_eq in Hx. injection Hx as <-. eauto.
    + rewrite Map_get_set_ne in Hx by done. eauto.
  - intros Hd'. eapply broadcastImmediate_settled in Hd'. simpl in Hd'.
    eapply Hset; [|exact H0|exact Hd']. done.
  - destruct (bool_decide _); [|by apply Hset]. apply Hs, broadcastImmediate_settled.
  - destruct (ws_send _ _ _) as [σ'|] eqn:Hsend; [|by apply Hset].
    apply Hs. by eapply ws_send_settled.
  - by apply Hset.
Qed.

(** An entry of the registry keeps its id, and a new entry has the id of the
    connection that made it. *)
Lemma step_entry_id e σ w d' :
  Map_get w (clients (step e σ)) = Some d' →
  (∃ d, Map_get w (clients σ) = Some d ∧ ClientData.id d' = ClientData.id d)
  ∨ ∃ t1 t2 t3 t4, e = ev_connection w (ClientData.id d') t1 t2 t3 t4.
Proof.
  assert (∀ σ1 σ', settled σ1 σ' → clients σ1 = clients σ → Map_get w (clients σ') = Some d' →
            ∃ d, Map_get w (clients σ) = Some d ∧ ClientData.id d' = ClientData.id d) as Hs.
  { intros σ1 σ' Hs Hc Hd'. apply Hs in Hd'. rewrite Hc in Hd'. eauto. }
  destruct e as [ws id t1 t2 t3 t4|ws messageString now|ws|ws|ws| |t|ws rs th]; simpl.
  - destruct (on_connection_from ws id t1 t2 t3 t4 (accept ws σ)) as (σ1 & Hc & _ & _ & _ & Hs1).
    intros Hd'. apply Hs1 in Hd'. rewrite Hc in Hd'. simpl in Hd'.
    destruct (decide (ws = w)) as [->|Hne].
    + rewrite Map_get_set_eq in Hd'. injection Hd' as <-. right. simpl. eauto.
    + rewrite Map_get_set_ne in Hd' by done. left. eauto.
  - intros Hd'. left. by eapply on_message_entry_id.
  - intros Hd'. left. eauto.
  - intros Hd'. left. unfold on_close in Hd'.
    eapply (Hs (closed ws σ)); [apply handleClientDisconnect_settled|done|exact Hd'].
  - intros Hd'. left. unfold on_error in Hd'.
    eapply Hs; [apply handleClientDisconnect_settled| |exact Hd']. done.
  - intros Hd'. left. eapply (Hs σ); [apply heartbeatInterval_settled|done|exact Hd'].
  - intros Hd'. left. unfold flushBatchedUpdates in Hd'. simpl in Hd'.
    eapply Hs; [apply flush_loop_settled| |exact Hd']. done.
  - intros Hd'. left. eauto.
Qed.

(** Only a connection makes a socket object. *)
Lemma step_sockets_new e σ w :
  w ∈ dom (sockets (step e σ)) →
  w ∈ dom (sockets σ) ∨ ∃ id t1 t2 t3 t4, e = ev_connection w id t1 t2 t3 t4.
Proof.
  destruct e as [ws id t1 t2 t3 t4|ws messageString now|ws|ws|ws| |t|ws rs th]; simpl.
  - rewrite on_connection_sockets. simpl. rewrite dom_alter_L, dom_insert_L.
    intros [->%elem_of_singleton|?]%elem_of_union; [right; eauto 10|by left].
  - rewrite on_message_sockets. by left.
  - rewrite dom_alter_L. by left.
  - unfold on_close. rewrite handleClientDisconnect_sockets. simpl. rewrite dom_alter_L. by left.
  - unfold on_error. rewrite handleClientDisconnect_sockets. by left.
  - destruct (heartbeatInterval_settled σ) as (_&_&_&_&_&_&_& -> &_). by left.
  - unfold flushBatchedUpdates. simpl. rewrite flush_loop_sockets. by left.
  - rewrite dom_alter_L. by left.
Qed.

Lemma frames_to_relayed ws (D : gset nat) rest :
  Forall (λ p : nat * Frame, relay_frame p.2 ∧ p.1 ∈ D) rest →
  Forall (λ f, ¬ is_assign_id f) (frames_to ws rest) ∧ (ws ∉ D → frames_to ws rest = []).
Proof.
  induction 1 as [|[w f] rest [Hf Hw] _ [IH1 IH2]]; [by split; [constructor|]|].
  unfold frames_to in *. simpl in *. destruct (decide (w = ws)) as [->|Hne]; [|done].
  split; [|done]. constructor; [|done].
  intros (id & st & t & ->). by destruct Hf as [_ []].
Qed.

Lemma frames_to_greeting ws w clientId st t playersData history :
  frames_to w (greeting ws clientId st t playersData history) =
  if decide (ws = w)
  then Text (assign_id clientId st t)
       :: match playersData with [] => [] | _ :: _ => [Text (existing_players playersData)] end
       ++ match history with [] => [] | _ :: _ => [Text (chat_history history)] end
  else [].
Proof.
  unfold greeting, frames_to. destruct playersData, history; simpl; by destruct (decide (ws = w)).
Qed.

(** X9. In every state the server can be in, the first frame a socket was
    ever sent is [assign_id] with the default state, no later frame to it is
    an [assign_id], and as long as the socket is registered the id it was
    told is the id the registry has for it.  Nothing is sent to a socket
    object that does not exist. *)
Theorem assign_id_first σ :
  reachable σ →
  ∀ ws,
    (ws ∉ dom (sockets σ) → frames_to ws (sent σ) = [])
    ∧ (ws ∈ dom (sockets σ) →
       ∃ id t0 t rest,
         frames_to ws (sent σ) = Text (assign_id id (initialState t0) t) :: rest
         ∧ Forall (λ f, ¬ is_assign_id f) rest
         ∧ ∀ d, Map_get ws (clients σ) = Some d → ClientData.id d = id).
Proof.
  induction 1 as [|e σ Hr IH Hen]; intros ws.
  { split; [done|]. simpl. by rewrite dom_empty_L. }
  pose proof (reachable_well_formed σ Hr) as Hwf.
  destruct (step_wire e σ Hwf (reachable_queues_ok σ Hr) Hen) as (rest & Heq & Hall).
  destruct (frames_to_relayed ws _ rest Hall) as [Hrel Hout].
  rewrite Heq, !frames_to_app.
  assert (∀ id t1 t2 t3 t4, e = ev_connection ws id t1 t2 t3 t4 → ws ∉ dom (sockets σ)) as Hnew.
  { intros id t1 t2 t3 t4 ->. simpl in Hen. by apply not_elem_of_dom. }
  assert (ws ∈ dom (sockets σ) → frames_to ws (greets e σ) = []) as Hold.
  { intros Hin. destruct e; try done. unfold greets. rewrite frames_to_greeting.
    destruct (decide (ws0 = ws)) as [->|]; [|done]. by destruct (Hnew _ _ _ _ _ eq_refl). }
  destruct (IH ws) as [IH1 IH2]. split.
  - intros Hnot. assert (ws ∉ dom (sockets σ)) as Hnot0.
    { intros Hin. by apply Hnot, step_sockets_dom. }
    rewrite IH1, Hout by done. simpl. rewrite app_nil_r.
    destruct e; try done. unfold greets. rewrite frames_to_greeting.
    destruct (decide (ws0 = ws)) as [->|]; [|done]. exfalso. apply Hnot. simpl.
    rewrite on_connection_sockets. simpl. rewrite dom_alter_L, dom_insert_L.
    apply elem_of_union. left. by apply elem_of_singleton.
  - intros Hin. destruct (step_sockets_new e σ ws Hin) as [Hin0|(id & t1 & t2 & t3 & t4 & ->)].
    + destruct (IH2 Hin0) as (id & t0 & t & rest0 & -> & Hno & Hid).
      rewrite (Hold Hin0). simpl. exists id, t0, t, (rest0 ++ frames_to ws rest).
      split_and!; [done|by apply Forall_app|].
      intros d' Hd'. destruct (step_entry_id e σ ws d' Hd') as [(d & Hd & ->)|(t1 & t2 & t3 & t4 & ->)].
      * by apply Hid.
      * by destruct (Hnew _ _ _ _ _ eq_refl).
    + rewrite IH1 by (by eapply Hnew). unfold greets.
      rewrite app_nil_l, frames_to_greeting, decide_True by done.
      eexists id, t1, t4, _. split_and!; [simpl; reflexivity| |].
      * rewrite !Forall_app. split_and!; [| |done].
        -- destruct (playersData_of (clients σ)); repeat constructor. by intros (? & ? & ? & ?).
        -- destruct (chatHistory σ); repeat constructor. by intros (? & ? & ? & ?).
      * intros d' Hd'.
        destruct (step_entry_id _ σ ws d' Hd') as [(d & Hd & _)|(? & ? & ? & ? & [= <-])]; [|done].
        destruct Hwf as (_ & _ & _ & W4 & W5). exfalso. apply (Hnew _ _ _ _ _ eq_refl).
        apply W5, W4. by rewrite Hd.
Qed.

Lemma assign_id_first_witness :
  let σ := run [ev_message 1 (Some (in_chat_message "hi")) 300; ev_heartbeat] two_clients in
  ∃ id t0 t rest,
    frames_to 2 (sent σ) = Text (assign_id id (initialState t0) t) :: rest
    ∧ Forall (λ f, ¬ is_assign_id f) rest.
Proof.
  intros σ.
  assert (reachable σ) as Hr.
  { apply run_reachable; [exact two_clients_reachable|].
    repeat split; vm_compute; eexists; reflexivity. }
  assert (2%nat ∈ dom (sockets σ)) as Hin.
  { apply elem_of_dom. vm_compute. eexists. reflexivity. }
  destruct (proj2 (assign_id_first σ Hr 2%nat) Hin) as (id & t0 & t & rest & H1 & H2 & _).
  exists id, t0, t, rest. exact (conj H1 H2).
Defined.

(** ** LivenessMonitor: a connection that answers *)

Lemma sweep_visit_throws w ws σ : throws ws (sweep_visit w σ) = throws ws σ.
Proof.
  unfold sweep_visit. destruct (sockets σ !! w) as [s|] eqn:Hs; [|done].
  assert (∀ f σ1, sockets σ1 = sockets σ →
            (∀ s, Socket.sendThrows (f s) = Socket.sendThrows s) →
            throws ws (set_sockets (alter f w) σ1) = throws ws σ) as Halter.
  { intros f σ1 Hs1 Hf. unfold throws. simpl. rewrite Hs1.
    destruct (decide (w = ws)) as [->|Hne].
    - rewrite (lookup_alter_eq f (sockets σ) ws).
      destruct (sockets σ !! ws); simpl; [apply Hf|done].
    - by rewrite (lookup_alter_ne f (sockets σ) w ws). }
  destruct (negb (Socket.isAlive s)).
  - unfold ws_terminate. apply Halter; [apply handleClientDisconnect_sockets|done].
  - destruct (is_OPEN w _); [|by apply Halter].
    change (throws ws (put_frame w PingFrame (set_isAlive w false σ)))
      with (throws ws (set_isAlive w false σ)). by apply Halter.
Qed.

Lemma sweep_visit_socket ws σ s :
  sockets σ !! ws = Some s → sockets (sweep_visit ws σ) !! ws = Some (swept s).
Proof.
  intros Hs. unfold sweep_visit, swept. rewrite Hs. destruct (Socket.isAlive s) eqn:Ha; simpl.
  - destruct (is_OPEN ws _); simpl; by rewrite lookup_alter_eq, Hs.
  - rewrite lookup_alter_eq, handleClientDisconnect_sockets, Hs. simpl. by rewrite Ha.
Qed.

Lemma failing_dec ws σ : failing ws σ ∨ ¬ failing ws σ.
Proof.
  unfold failing. destruct (is_OPEN ws σ), (throws ws σ); auto; right; by intros [? ?].
Qed.

(** A sweep makes no socket fail that did not. *)
Lemma sweep_visit_failing w ws σ :
  (w = ws → alive ws σ) → failing ws (sweep_visit w σ) → failing ws σ.
Proof.
  intros Ha [Ho Ht]. rewrite sweep_visit_throws in Ht. split; [|done].
  unfold is_OPEN in *. destruct (decide (w = ws)) as [->|Hne].
  - destruct (Ha eq_refl) as (s & Hs & Hal).
    rewrite (sweep_visit_socket ws σ s Hs) in Ho. rewrite Hs. unfold swept in Ho.
    by rewrite Hal in Ho.
  - by rewrite sweep_visit_other in Ho.
Qed.

(** A sweep's turn at another socket leaves a registered socket alone,
    unless it is open and refuses writes. *)
Lemma sweep_visit_keeps w ws σ d :
  w ≠ ws → Map_get ws (clients σ) = Some d → ¬ failing ws σ →
  Map_get ws (clients (sweep_visit w σ)) = Some d.
Proof.
  intros Hne Hd Hf. unfold sweep_visit. destruct (sockets σ !! w) as [s|]; [|done].
  destruct (negb (Socket.isAlive s)); simpl.
  - rewrite (cascade_clients_keep _ _ _ _ ws (handleClientDisconnect_cascade w σ)); [done|].
    by intros [->|?].
  - by destruct (is_OPEN w _).
Qed.

Lemma sweep_loop_keeps ws d todo σ :
  NoDup todo → Map_get ws (clients σ) = Some d → ¬ failing ws σ →
  (ws ∈ todo → alive ws σ) →
  let σ' := foldl (λ σ w, sweep_visit w σ) σ todo in
  Map_get ws (clients σ') = Some d
  ∧ (ws ∈ todo → marked ws σ')
  ∧ (ws ∉ todo → sockets σ' !! ws = sockets σ !! ws).
Proof.
  revert σ. induction todo as [|w todo IH]; intros σ Hnd Hd Hf Ha; simpl.
  { split_and!; [done| |done]. by intros ?%elem_of_nil. }
  apply NoDup_cons in Hnd as [Hw Hnd].
  assert (¬ failing ws (sweep_visit w σ)) as Hf'.
  { intros H. apply Hf. eapply sweep_visit_failing; [|exact H]. intros ->. apply Ha. by left. }
  destruct (decide (w = ws)) as [->|Hne].
  - destruct (Ha ltac:(left)) as (s & Hs & Hal).
    destruct (sweep_visit_alive ws σ s Hs Hal) as (Hm & Hc & _).
    destruct (IH (sweep_visit ws σ) Hnd) as (I1 & _ & I3); [by rewrite Hc|done|done|].
    split_and!; [done| |by intros []%not_elem_of_cons].
    intros _. destruct Hm as (s' & Hs' & Ha'). exists s'. by rewrite I3.
  - pose proof (sweep_visit_other w ws σ Hne) as Hs.
    destruct (IH (sweep_visit w σ) Hnd) as (I1 & I2 & I3).
    + by apply sweep_visit_keeps.
    + done.
    + intros Hin. destruct Ha as (s & ? & ?); [by right|]. exists s. by rewrite Hs.
    + split_and!; [done| |].
      * intros [?|?]%elem_of_cons; [done|auto].
      * intros [_ ?]%not_elem_of_cons. rewrite I3 by done. done.
Qed.

(** X10. A registered connection whose socket takes writes and that answers
    every ping is never evicted by the liveness monitor.  A sweep that finds
    its [isAlive] true leaves its entry as it is, marks it and, if the socket
    is open, pings it; the pong makes it alive again; and so on through any
    number of answered sweeps. *)
Theorem responsive_connection_kept ws d σ :
  reachable σ → Map_get ws (clients σ) = Some d → throws ws σ = false → alive ws σ →
  (let σ1 := step ev_heartbeat σ in
   Map_get ws (clients σ1) = Some d ∧ marked ws σ1
   ∧ (is_OPEN ws σ = true → ∃ rest, sent σ1 = sent σ ++ rest ∧ (ws, PingFrame) ∈ rest)
   ∧ alive ws (step (ev_pong ws) σ1))
  ∧ ∀ n, let σn := run (answered_sweeps ws n) σ in
         enabled_all (answered_sweeps ws n) σ
         ∧ Map_get ws (clients σn) = Some d ∧ alive ws σn.
Proof.
  assert (∀ σ, reachable σ → Map_get ws (clients σ) = Some d → throws ws σ = false → alive ws σ →
    let σ1 := step ev_heartbeat σ in
    Map_get ws (clients σ1) = Some d ∧ marked ws σ1
    ∧ (is_OPEN ws σ = true → ∃ rest, sent σ1 = sent σ ++ rest ∧ (ws, PingFrame) ∈ rest)
    ∧ alive ws (step (ev_pong ws) σ1)
    ∧ throws ws (step (ev_pong ws) σ1) = false) as Hround.
  { clear σ. intros σ Hr Hd Ht Ha. cbv zeta.
    pose proof (reachable_well_formed σ Hr) as (_ & _ & W3 & W4 & _).
    assert (ws ∈ wss_clients σ) as Hin by (apply W4; by rewrite Hd).
    assert (¬ failing ws σ) as Hnf by (intros [_ ?]; congruence).
    destruct (sweep_loop_keeps ws d (wss_clients σ) σ W3 Hd Hnf (λ _, Ha)) as (K1 & K2 & _).
    destruct (K2 Hin) as (s1 & Hs1 & Ha1). fold (heartbeatInterval σ) in *.
    assert (sockets (heartbeatInterval σ) !! ws = Some s1 →
            throws ws (heartbeatInterval σ) = false) as Ht1.
    { intros _. destruct Ha as (s & Hs & _).
      pose proof (heartbeatInterval_announces σ) as [A _].
      destruct (A ws d K1) as (_ & _ & <-). done. }
    split_and!.
    - exact K1.
    - by exists s1.
    - intros Ho. destruct Ha as (s & Hs & Hal). eapply sweep_pings; [done|done|done|].
      unfold is_OPEN in Ho. rewrite Hs in Ho. by apply bool_decide_eq_true in Ho.
    - exists (Socket.mk (Socket.readyState s1) true (Socket.sendThrows s1)).
      split; [|done]. simpl. by rewrite lookup_alter_eq, Hs1.
    - specialize (Ht1 Hs1). unfold throws in *. simpl.
      rewrite lookup_alter_eq. by rewrite Hs1 in *. }
  intros Hr Hd Ht Ha. split.
  { destruct (Hround σ Hr Hd Ht Ha) as (? & ? & ? & ? & _). done. }
  intros n. revert σ Hr Hd Ht Ha. induction n as [|n IH]; intros σ Hr Hd Ht Ha; [done|].
  destruct (Hround σ Hr Hd Ht Ha) as (H1 & (s1 & Hs1 & _) & _ & H4 & H5).
  assert (enabled (ev_pong ws) (step ev_heartbeat σ)) as Hen by (simpl; eauto).
  assert (reachable (step (ev_pong ws) (step ev_heartbeat σ))) as Hr2.
  { constructor; [by constructor|done]. }
  destruct (IH _ Hr2 H1 H5 H4) as (I1 & I2 & I3).
  cbv zeta. unfold answered_sweeps in *. simpl. split_and!; done.
Qed.

Lemma responsive_connection_kept_witness :
  Map_get 1 (clients (run (answered_sweeps 1 3) two_clients))
  = Some (ClientData.mk "ia" (initialState 100) 100 100).
Proof.
  assert (Map_get 1 (clients two_clients) = Some (ClientData.mk "ia" (initialState 100) 100 100))
    as Hd by (vm_compute; reflexivity).
  assert (throws 1 two_clients = false) as Ht by (vm_compute; reflexivity).
  assert (alive 1 two_clients) as Ha by (vm_compute; eexists; split; reflexivity).
  destruct (responsive_connection_kept 1 _ two_clients two_clients_reachable Hd Ht Ha) as [_ H].
  exact (proj1 (proj2 (H 3%nat))).
Defined.

(** ** Every notice is for a departure *)

Lemma accounts_refl A σ : accounts A σ σ.
Proof. split; [done|]. exists []. by rewrite app_nil_r. Qed.

Lemma accounts_trans A σ1 σ2 σ3 : accounts A σ1 σ2 → accounts A σ2 σ3 → accounts A σ1 σ3.
Proof.
  intros [S1 (r1 & E1 & F1)] [S2 (r2 & E2 & F2)]. split; [by auto|].
  exists (r1 ++ r2). split; [by rewrite E2, E1, app_assoc|]. apply Forall_app. split.
  - eapply Forall_impl; [exact F1|]. intros p Hp m Hm. destruct (Hp m Hm) as [Hreg Hcase].
    split; [done|]. destruct Hcase as [?|(r & d & -> & Hne & Hr & Hg)]; [by left|right].
    exists r, d. split_and!; try done.
    destruct (Map_get r (clients σ3)) as [d3|] eqn:H3; [|done]. apply S2 in H3. congruence.
  - eapply Forall_impl; [exact F2|]. intros p Hp m Hm. destruct (Hp m Hm) as [[dp Hreg] Hcase].
    split; [apply S1 in Hreg; by rewrite Hreg|].
    destruct Hcase as [?|(r & d & -> & Hne & Hr & Hg)]; [by left|right].
    exists r, d. split_and!; auto.
Qed.

Lemma accounts_mono (A A' : OutMsg → Prop) σ σ' :
  (∀ m, A m → A' m) → accounts A σ σ' → accounts A' σ σ'.
Proof.
  intros HA [S (rest & E & F)]. split; [done|]. exists rest. split; [done|].
  eapply Forall_impl; [exact F|]. intros p Hp m Hm. destruct (Hp m Hm) as [? [?|?]]; auto.
Qed.

Lemma accounts_quiet A σ σ' : clients σ' = clients σ → sent σ' = sent σ → accounts A σ σ'.
Proof. intros Hc He. split; [by rewrite Hc|]. exists []. by rewrite app_nil_r. Qed.

Lemma ws_send_accounts (A : OutMsg → Prop) ws m σ σ' :
  A m → is_Some (Map_get ws (clients σ)) → ws_send ws m σ = Some σ' → accounts A σ σ'.
Proof.
  intros HA Hreg [->|[_ ->]]%ws_send_Some; [apply accounts_refl|].
  split; [done|]. exists [(ws, Text m)]. split; [done|]. constructor; [|constructor].
  intros m' [= <-]. auto.
Qed.

Lemma broadcast_loop_accounts (bound : nat) message excludeWs :
  (∀ ws σ, length (clients σ) ≤ bound → accounts (λ _, False) σ (handleClientDisconnect ws σ)) →
  ∀ todo σ, length (clients σ) ≤ bound →
    accounts (eq message) σ (broadcast_loop handleClientDisconnect message excludeWs todo σ).
Proof.
  intros Hd todo. induction todo as [|ws todo IH]; intros σ Hb; simpl; [apply accounts_refl|].
  destruct (Map_get ws (clients σ)) as [d|] eqn:Hget; [|by apply IH].
  unfold broadcast_visit.
  destruct (bool_decide (Some ws ≠ excludeWs) && is_OPEN ws σ); [|by apply IH].
  destruct (ws_send ws message σ) as [σ'|] eqn:Hsend.
  - eapply accounts_trans; [eapply ws_send_accounts; [done| |exact Hsend]; by rewrite Hget|].
    apply IH. by apply ws_send_Some in Hsend as [->|[_ ->]].
  - set (σ1 := console_write (err_broadcast (ClientData.id d)) σ).
    eapply accounts_trans; [by apply (accounts_quiet _ σ σ1)|].
    eapply accounts_trans; [eapply accounts_mono; [|by apply Hd]; done|]. apply IH.
    etrans; [apply (cascade_clients_length _ _ _ _ (handleClientDisconnect_cascade ws σ1))|done].
Qed.

Lemma handleClientDisconnect_accounts_bounded (bound : nat) ws σ :
  length (clients σ) ≤ bound → accounts (λ _, False) σ (handleClientDisconnect ws σ).
Proof.
  revert ws σ. induction bound as [|bound IH]; intros ws σ Hb; rewrite handleClientDisconnect_eq.
  - destruct (clients σ); [apply accounts_refl|simpl in Hb; lia].
  - destruct (Map_get ws (clients σ)) as [d|] eqn:Hget; [|apply accounts_refl].
    set (σ0 := forget_client ws d σ).
    assert (length (clients σ0) ≤ bound) as Hb0.
    { pose proof (Map_delete_length_lt _ _ _ Hget). simpl. lia. }
    pose proof (broadcast_loop_accounts bound (player_left (ClientData.id d)) None IH
                  (Map_keys (clients σ0)) σ0 Hb0) as [S0 (rest & E0 & F0)].
    fold (broadcastImmediate (player_left (ClientData.id d)) None σ0) in *.
    assert (Map_get ws (clients (broadcastImmediate (player_left (ClientData.id d)) None σ0))
            = None) as Hgone.
    { destruct (Map_get ws (clients (broadcastImmediate _ _ _))) as [d'|] eqn:Hd'; [|done].
      apply S0 in Hd'. simpl in Hd'. by rewrite Map_get_delete_eq in Hd'. }
    split.
    + intros w dw Hdw. apply S0 in Hdw. simpl in Hdw. by apply Map_get_delete_Some in Hdw as [_ ?].
    + exists rest. split; [done|]. eapply Forall_impl; [exact F0|].
      intros [w f] Hp m Hm. destruct (Hp m Hm) as [[dw Hw] Hcase]. simpl in *.
      apply Map_get_delete_Some in Hw as [Hne Hw]. split; [by rewrite Hw|]. right.
      destruct Hcase as [<-|(r & dr & -> & Hner & Hr & Hg)].
      * by exists ws, d.
      * apply Map_get_delete_Some in Hr as [_ Hr]. by exists r, dr.
Qed.

Lemma handleClientDisconnect_accounts A ws σ : accounts A σ (handleClientDisconnect ws σ).
Proof.
  eapply accounts_mono; [|by apply (handleClientDisconnect_accounts_bounded (length (clients σ)))].
  done.
Qed.

Lemma broadcastImmediate_accounts message excludeWs σ :
  accounts (eq message) σ (broadcastImmediate message excludeWs σ).
Proof.
  apply (broadcast_loop_accounts (length (clients σ))); [|done].
  intros ws s _. apply handleClientDisconnect_accounts.
Qed.

Lemma flush_payload_update messages data :
  Forall is_player_update messages → flush_payload messages = Some data →
  ∀ id, data ≠ player_left id.
Proof.
  intros Hall. destruct messages as [|m1 [|m2 ms]]; simpl; [done| |]; intros [= <-] id; [|done].
  by apply Forall_cons in Hall as [(? & ? & ? & ->) _].
Qed.

Lemma flush_loop_accounts todo σ :
  queues_ok σ → accounts (λ m, ∀ id, m ≠ player_left id) σ (flush_loop todo σ).
Proof.
  revert σ. induction todo as [|ws todo IH]; intros σ Hq; simpl; [apply accounts_refl|].
  destruct (Map_get ws (pendingUpdates σ)) as [messages|] eqn:Hget; [|by apply IH].
  destruct (Hq _ _ Hget) as (Hreg & _ & Hall).
  unfold flush_visit. destruct (is_OPEN ws σ); [|by apply IH].
  destruct (flush_payload messages) as [data|] eqn:Hpay; [|by apply IH].
  pose proof (flush_payload_update messages data Hall Hpay) as Hdata.
  destruct (ws_send ws data σ) as [σ'|] eqn:Hsend.
  - eapply accounts_trans; [by eapply ws_send_accounts|]. apply IH.
    by eapply ws_send_queues_ok.
  - set (σ1 := console_write err_batch σ).
    eapply accounts_trans; [by apply (accounts_quiet _ σ σ1)|].
    eapply accounts_trans; [apply handleClientDisconnect_accounts|]. apply IH.
    apply handleClientDisconnect_queues_ok. by apply (queues_ok_same σ).
Qed.

Lemma sweep_visit_accounts A ws σ : accounts A σ (sweep_visit ws σ).
Proof.
  unfold sweep_visit. destruct (sockets σ !! ws) as [s|]; [|apply accounts_refl].
  destruct (negb (Socket.isAlive s)).
  - eapply accounts_trans; [apply handleClientDisconnect_accounts|]. by apply accounts_quiet.
  - destruct (is_OPEN ws _); [|by apply accounts_quiet].
    split; [done|]. exists [(ws, PingFrame)]. split; [done|]. by repeat constructor.
Qed.

Lemma heartbeatInterval_accounts A σ : accounts A σ (heartbeatInterval σ).
Proof.
  unfold heartbeatInterval. generalize (wss_clients σ) as todo. intros todo. revert σ.
  induction todo as [|ws todo IH]; intros σ; simpl; [apply accounts_refl|].
  eapply accounts_trans; [apply sweep_visit_accounts|apply IH].
Qed.

Lemma accounts_notice (A : OutMsg → Prop) σ σ' rest w id :
  accounts A σ σ' → sent σ' = sent σ ++ rest → (∀ m, A m → m ≠ player_left id) →
  Text (player_left id) ∈ frames_to w rest →
  ∃ r d, r ≠ w ∧ Map_get r (clients σ) = Some d ∧ ClientData.id d = id
         ∧ Map_get r (clients σ') = None.
Proof.
  intros [_ (rest' & E & F)] E' HA Hin. rewrite E in E'. apply app_inv_head in E' as <-.
  clear E. induction F as [|[w0 f] rest Hp _ IH]; [by apply elem_of_nil in Hin|].
  unfold frames_to in Hin. simpl in Hin. destruct (decide (w0 = w)) as [->|Hne]; [|by apply IH].
  apply elem_of_cons in Hin as [<-|Hin]; [|by apply IH].
  destruct (Hp _ eq_refl) as [_ [Hm|(r & d & [= ->] & Hr & Hd & Hg)]]; [by destruct (HA _ Hm)|].
  by exists r, d.
Qed.

(** X11. A [player_left] is sent only for a departure: whenever an event
    sends a socket [player_left] with some id, another socket with that id
    was registered before the event and is not registered after it. *)
Theorem notice_only_for_departed e σ rest w id :
  reachable σ → enabled e σ →
  sent (step e σ) = sent σ ++ rest → Text (player_left id) ∈ frames_to w rest →
  ∃ r d, r ≠ w ∧ Map_get r (clients σ) = Some d ∧ ClientData.id d = id
         ∧ Map_get r (clients (step e σ)) = None.
Proof.
  intros Hr Hen Heq Hin.
  pose proof (reachable_well_formed σ Hr) as Hwf.
  pose proof (reachable_queues_ok σ Hr) as Hq.
  assert (∀ (A : OutMsg → Prop) σ1, accounts A σ1 (step e σ) → clients σ1 = clients σ →
            sent σ1 = sent σ → (∀ m, A m → m ≠ player_left id) →
            ∃ r d, r ≠ w ∧ Map_get r (clients σ) = Some d ∧ ClientData.id d = id
                   ∧ Map_get r (clients (step e σ)) = None) as Hfrom.
  { intros A σ1 Hacc Hc Hs HA. rewrite <-Hc. eapply accounts_notice; [exact Hacc| |exact HA|exact Hin].
    by rewrite Hs. }
  destruct e as [ws cid t1 t2 t3 t4|ws messageString now|ws|ws|ws| |t|ws rs th].
  - simpl in Hen. pose proof (well_formed_fresh ws σ Hwf Hen) as Hnone.
    destruct (on_connection_eq ws cid t1 t2 t3 t4 σ Hen Hnone) as (σe & Hstep & Hsent & Hcl & Hsock & _).
    rewrite Hstep in *. rewrite <-(app_nil_r (sent σ)), <-app_assoc in Heq at 1. simpl in Heq.
    pose proof (broadcastImmediate_accounts (player_joined cid (initialState t1)) (Some ws) σe)
      as Hacc.
    destruct Hacc as [S (rest' & E & F)].
    assert (rest = greeting ws cid (initialState t1) t4 (playersData_of (clients σ)) (chatHistory σ)
                   ++ rest') as ->.
    { rewrite E, Hsent, <-app_assoc in Heq. by apply app_inv_head in Heq. }
    rewrite frames_to_app, frames_to_greeting in Hin. apply elem_of_app in Hin as [Hin|Hin].
    { exfalso. destruct (decide (ws = w)); [|by apply elem_of_nil in Hin].
      apply elem_of_cons in Hin as [?|Hin]; [done|].
      apply elem_of_app in Hin as [Hin|Hin].
      - destruct (playersData_of _); [by apply elem_of_nil in Hin|].
        by apply list_elem_of_singleton in Hin.
      - destruct (chatHistory _); [by apply elem_of_nil in Hin|].
        by apply list_elem_of_singleton in Hin. }
    destruct (accounts_notice (eq (player_joined cid (initialState t1))) σe
                (broadcastImmediate (player_joined cid (initialState t1)) (Some ws) σe)
                rest' w id) as (r & d & Hne & Hd & Hid & Hg);
      [by split; eauto|done|by intros m <-|done|].
    exists r, d. split_and!; try done. rewrite Hcl in Hd.
    assert (r ≠ ws) as Hrws.
    { intros ->. assert (¬ failing ws σe) as Hnf.
      { intros [_ Ht]. unfold throws in Ht. by rewrite Hsock, lookup_insert_eq in Ht. }
      rewrite (cascade_clients_keep _ _ _ _ ws (broadcastImmediate_cascade _ _ σe) Hnf) in Hg.
      congruence. }
    clear -Hd Hrws. induction (clients σ) as [|[k v] m IH]; simpl in *.
    + by rewrite decide_False in Hd by done.
    + destruct (decide (k = r)); [done|]. by apply IH.
  - simpl in *. unfold on_message in *. destruct messageString as [message|].
    2:{ simpl in Heq. rewrite <-(app_nil_r (sent σ)) in Heq at 1. apply app_inv_head in Heq as <-.
        by apply elem_of_nil in Hin. }
    destruct (Map_get ws (clients σ)) as [sd|] eqn:Hsd.
    2:{ rewrite <-(app_nil_r (sent σ)) in Heq at 1. apply app_inv_head in Heq as <-.
        by apply elem_of_nil in Hin. }
    set (σ1 := set_clients (Map_set ws (set_lastHeartbeat now sd)) σ) in *.
    assert (∀ (A : OutMsg → Prop) σ', accounts A σ1 σ' → sent σ' = sent σ ++ rest →
              (∀ m, A m → m ≠ player_left id) →
              ∃ r d, r ≠ w ∧ Map_get r (clients σ) = Some d ∧ ClientData.id d = id
                     ∧ Map_get r (clients σ') = None) as Hmsg.
    { intros A σ' Hacc Hs HA.
      destruct (accounts_notice A σ1 σ' rest w id Hacc Hs HA Hin) as (r & d & Hne & Hd & Hid & Hg).
      simpl in Hd. destruct (decide (ws = r)) as [->|Hner].
      - rewrite Map_get_set_eq in Hd. injection Hd as <-. by exists r, sd.
      - rewrite Map_get_set_ne in Hd by done. by exists r, d. }
    assert (∀ σ', sent σ' = sent σ → sent σ' = sent σ ++ rest → False) as Hquiet.
    { intros σ' E1 E2. rewrite E1 in E2. rewrite <-(app_nil_r (sent σ)) in E2 at 1.
      apply app_inv_head in E2 as <-. by apply elem_of_nil in Hin. }
    destruct message as [state|message|emote|ts|ty]; simpl in *.
    + exfalso. destruct (hasSignificantChange _ _); [|by eapply (Hquiet σ1)].
      match type of Heq with context [batchBroadcast ?m ?x false ?s] =>
        destruct (batchBroadcast_frame m x s) as (_ & _ & _ & He & _) end.
      eapply Hquiet; [|exact Heq]. by rewrite He.
    + eapply (Hmsg (eq (chat_message (ClientData.id sd) message now))); [|exact Heq|by intros m <-].
      eapply accounts_trans; [|apply broadcastImmediate_accounts]. by apply accounts_quiet.
    + destruct (bool_decide _); [|exfalso; by eapply (Hquiet σ1)].
      eapply (Hmsg (eq (emote_start (ClientData.id sd) emote now))); [|exact Heq|by intros m <-].
      apply broadcastImmediate_accounts.
    + destruct (ws_send ws (pong ts now) σ1) as [σ'|] eqn:Hsend; [|exfalso; by eapply (Hquiet σ1)].
      eapply (Hmsg (eq (pong ts now))); [|exact Heq|by intros m <-].
      eapply ws_send_accounts; [done| |exact Hsend]. simpl. rewrite Map_get_set_eq. eauto.
    + exfalso. by eapply (Hquiet σ1).
  - exfalso. simpl in Heq. rewrite <-(app_nil_r (sent σ)) in Heq at 1. apply app_inv_head in Heq as <-.
    by apply elem_of_nil in Hin.
  - apply (Hfrom (λ _, False) (closed ws σ)); [apply handleClientDisconnect_accounts|done..].
  - apply (Hfrom (λ _, False) (console_write (err_socket match Map_get ws (clients σ) with
         | Some clientData => if bool_decide (ClientData.id clientData = ""%string)
                              then "unknown"%string else ClientData.id clientData
         | None => "unknown"%string end) σ)); [apply handleClientDisconnect_accounts|done..].
  - apply (Hfrom (λ _, False) σ); [apply heartbeatInterval_accounts|done..].
  - apply (Hfrom (λ m, ∀ id, m ≠ player_left id) (set_timers (filter (λ t0, t0 ≠ t)) σ));
      [|done|done|by intros m Hm].
    simpl. unfold flushBatchedUpdates.
    destruct (flush_loop_accounts (Map_keys (pendingUpdates σ)) (set_timers (filter (λ t0, t0 ≠ t)) σ))
      as [S (rest' & E & F)]; [by apply (queues_ok_same σ)|].
    split; [done|]. by exists rest'.
  - exfalso. simpl in Heq. rewrite <-(app_nil_r (sent σ)) in Heq at 1. apply app_inv_head in Heq as <-.
    by apply elem_of_nil in Hin.
Qed.

Lemma notice_only_for_departed_witness :
  let σ := step ev_heartbeat two_clients in
  sent (step (ev_close 1) σ) = sent σ ++ [(2%nat, Text (player_left "ia"))]
  ∧ ∃ r d, r ≠ 2%nat ∧ Map_get r (clients σ) = Some d ∧ ClientData.id d = "ia"%string
           ∧ Map_get r (clients (step (ev_close 1) σ)) = None.
Proof.
  intros σ.
  assert (reachable σ) as Hr by (constructor; [exact two_clients_reachable|exact I]).
  assert (enabled (ev_close 1) σ) as Hen by (vm_compute; eexists; reflexivity).
  assert (sent (step (ev_close 1) σ) = sent σ ++ [(2%nat, Text (player_left "ia"))]) as Heq
    by (vm_compute; reflexivity).
  assert (Text (player_left "ia") ∈ frames_to 2 [(2%nat, Text (player_left "ia"))]) as Hin.
  { rewrite frames_to_single_eq. left. }
  split; [exact Heq|].
  exact (notice_only_for_departed (ev_close 1) σ _ 2%nat "ia" Hr Hen Heq Hin).
Defined.

(** ** BatchScheduler: from an update to its delivery *)

(** X12. A significant update reaches every other client at the next flush.
    When the timeout set for the flush fires, every other registered socket
    that is open and takes writes is sent the update: on its own when nothing
    else was queued for that socket, and otherwise as the last entry of one
    [batch_update] after what was queued before, in order.  After the flush
    no queue is left and no timeout is set. *)
Theorem update_delivered_at_flush ws state now σ senderData w :
  reachable σ → Map_get ws (clients σ) = Some senderData →
  hasSignificantChange (Some (ClientData.state senderData)) state = true →
  w ≠ ws → survivor w σ →
  let σ1 := step (ev_message ws (Some (in_player_update state)) now) σ in
  let update := player_update (ClientData.id senderData) (stamp now state) in
  ∃ t, updateBatchTimer σ1 = Some t ∧ enabled (ev_flush t) σ1
    ∧ let σ2 := step (ev_flush t) σ1 in
      pendingUpdates σ2 = [] ∧ updateBatchTimer σ2 = None ∧ timers σ2 = []
      ∧ ∃ rest, sent σ2 = sent σ ++ rest
          ∧ delivered match Map_get w (pendingUpdates σ) with
                      | Some queue => batch_update (queue ++ [update])
                      | None => update
                      end (frames_to w rest).
Proof.
  intros Hr Hget Hsig Hne (Hreg & Ho & Hthr). cbv zeta.
  pose proof (reachable_well_formed σ Hr) as Hwf.
  assert (enabled (ev_message ws (Some (in_player_update state)) now) σ) as Hen.
  { simpl. apply elem_of_dom. destruct Hwf as (_ & _ & _ & W4 & W5). apply W5, W4. by rewrite Hget. }
  assert (reachable (step (ev_message ws (Some (in_player_update state)) now) σ)) as Hr1
    by by constructor.
  destruct (update_pending ws state now σ senderData (proj1 Hwf) Hget Hsig)
    as (_ & Hsent & _ & Hs & _ & [t Ht] & Hq).
  set (σ1 := step (ev_message ws (Some (in_player_update state)) now) σ) in *.
  set (update := player_update (ClientData.id senderData) (stamp now state)) in *.
  pose proof (reachable_timers σ1 Hr1) as Hts. unfold scheduled in Hts. rewrite Ht in Hts.
  exists t. split_and!; [done|simpl; rewrite Hts; by left|..].
  - by destruct (flushBatchedUpdates_schedule (set_timers (filter (λ t', t' ≠ t)) σ1)) as (_&_&_&?).
  - by destruct (flushBatchedUpdates_schedule (set_timers (filter (λ t', t' ≠ t)) σ1)) as (?&_).
  - destruct (flushBatchedUpdates_schedule (set_timers (filter (λ t', t' ≠ t)) σ1)) as (_&E&_).
    simpl in *. rewrite E, Hts. rewrite filter_cons_False; [done|]. by intros ?.
  - set (σf := set_timers (filter (λ t', t' ≠ t)) σ1).
    destruct (flush_loop_delivery (Map_keys (pendingUpdates σf)) σf) as (rest & Heq & Hdel).
    { apply (reachable_well_formed σ1 Hr1). }
    exists rest. split; [simpl; unfold flushBatchedUpdates; simpl; by rewrite <-Hsent|].
    assert (Map_get w (pendingUpdates σf) =
            Some (default [] (Map_get w (pendingUpdates σ)) ++ [update])) as Hw.
    { simpl. rewrite Hq, Ho. destruct Hreg as [d Hd].
      rewrite bool_decide_eq_true_2 by (by eapply Map_get_Some_keys).
      by rewrite bool_decide_eq_true_2. }
    apply Hdel; [by eapply Map_get_Some_keys|]. apply due_Some.
    exists (default [] (Map_get w (pendingUpdates σ)) ++ [update]).
    split_and!; [done| |unfold is_OPEN in *; simpl; by rewrite Hs|unfold throws in *; simpl; by rewrite Hs].
    destruct (Map_get w (pendingUpdates σ)) as [queue|] eqn:Hqueue; [|done]. simpl.
    destruct (reachable_queues_ok σ Hr w queue Hqueue) as (_ & Hnil & _).
    destruct queue as [|m1 [|m2 ms]]; done.
Qed.

Lemma update_delivered_at_flush_witness :
  let σ1 := step (ev_message 1 (Some (in_player_update (state_at 0.01))) 300) two_clients in
  ∃ t, updateBatchTimer σ1 = Some t
    ∧ ∃ rest, sent (step (ev_flush t) σ1) = sent two_clients ++ rest
        ∧ delivered (player_update "ia" (stamp 300 (state_at 0.01))) (frames_to 2 rest).
Proof.
  assert (Map_get 1 (clients two_clients) = Some (ClientData.mk "ia" (initialState 100) 100 100))
    as Hget by (vm_compute; reflexivity).
  assert (hasSignificantChange (Some (initialState 100)) (state_at 0.01) = true)
    as Hsig by (vm_compute; reflexivity).
  assert (survivor 2 two_clients) as H2.
  { split_and!; [|vm_compute; reflexivity..]. vm_compute. eexists. reflexivity. }
  assert (Map_get 2 (pendingUpdates two_clients) = None) as Hq by (vm_compute; reflexivity).
  destruct (update_delivered_at_flush 1 _ 300 _ _ 2%nat two_clients_reachable Hget Hsig
              ltac:(discriminate) H2) as (t & Ht & _ & _ & _ & _ & rest & Heq & Hdel).
  exists t. split; [exact Ht|]. exists rest. split; [exact Heq|].
  rewrite Hq in Hdel. exact Hdel.
Defined.

(** ** ChatHistory: the last 25 messages *)

Lemma chat_append_drop entry history :
  length history ≤ MAX_CHAT_HISTORY →
  chat_append entry history =
  drop (length (history ++ [entry]) - MAX_CHAT_HISTORY) (history ++ [entry]).
Proof.
  intros Hlen. destruct (decide (length history = MAX_CHAT_HISTORY)) as [Heq|Hne].
  - rewrite chat_append_full by done. rewrite length_app, Heq. simpl.
    replace (MAX_CHAT_HISTORY + 1 - MAX_CHAT_HISTORY)%nat with 1%nat by lia.
    destruct history; [done|]. simpl. by rewrite drop_0.
  - rewrite chat_append_below by lia. rewrite length_app. simpl.
    replace (length history + 1 - MAX_CHAT_HISTORY)%nat with 0%nat by lia. done.
Qed.

Lemma drop_recent {A} (k : nat) (l t : list A) :
  k = (length l - MAX_CHAT_HISTORY)%nat →
  drop (length (drop k l ++ t) - MAX_CHAT_HISTORY) (drop k l ++ t) =
  drop (length (l ++ t) - MAX_CHAT_HISTORY) (l ++ t).
Proof.
  intros Hk. assert (k ≤ length l) as Hle by lia.
  assert (drop k l ++ t = drop k (l ++ t)) as -> by (by rewrite drop_app_le).
  rewrite drop_drop, length_drop. f_equal. rewrite length_app in *. lia.
Qed.

(** X13. The chat history is the last 25 chat messages: after any run it
    holds what it held before followed by what registered senders said during
    the run, in order, cut down to the 25 most recent entries. *)
Theorem chat_history_is_recent es σ :
  (length (chatHistory σ) ≤ 25)%nat →
  chatHistory (run es σ) =
  drop (length (chatHistory σ ++ transcript es σ) - 25) (chatHistory σ ++ transcript es σ).
Proof.
  change 25%nat with MAX_CHAT_HISTORY.
  revert σ. induction es as [|e es IH]; intros σ Hlen.
  { simpl. rewrite app_nil_r. replace (_ - _)%nat with 0%nat by lia. done. }
  assert (chatHistory (step e σ) =
          drop (length (chatHistory σ ++ says e σ) - MAX_CHAT_HISTORY) (chatHistory σ ++ says e σ)
          ∧ length (chatHistory (step e σ)) ≤ MAX_CHAT_HISTORY) as [Hstep Hlen'].
  { rewrite step_chatHistory. unfold says.
    assert (chatHistory σ = drop (length (chatHistory σ ++ []) - MAX_CHAT_HISTORY)
                                 (chatHistory σ ++ [])) as Hsame.
    { rewrite app_nil_r. replace (_ - _)%nat with 0%nat by lia. done. }
    destruct e as [| ? [[]|] ?| | | | | |]; try done.
    destruct (Map_get _ _); [|done]. split; [by apply chat_append_drop|by apply chat_append_length]. }
  unfold run. simpl. fold (run es (step e σ)). rewrite IH by done. rewrite Hstep.
  rewrite drop_recent by done. by rewrite <-app_assoc.
Qed.

Lemma chat_history_is_recent_witness :
  chatHistory (run [ev_message 1 (Some (in_chat_message "a")) 300; ev_heartbeat;
                    ev_message 2 (Some (in_chat_message "b")) 301] two_clients)
  = [ChatEntry.mk "ia" "a" 300; ChatEntry.mk "ib" "b" 301].
Proof.
  assert (length (chatHistory two_clients) ≤ 25)%nat as Hlen by (vm_compute; lia).
  rewrite (chat_history_is_recent _ two_clients Hlen). vm_compute. reflexivity.
Defined.

(** ** Broadcasts and flushes when every write succeeds *)

Lemma broadcast_loop_order (d : Ws → Server → Server) message excludeWs σ0 todo σ :
  sockets σ = sockets σ0 → clients σ = clients σ0 →
  (∀ ws, ws ∈ todo → is_Some (Map_get ws (clients σ0)) ∧ throws ws σ0 = false) →
  broadcast_loop d message excludeWs todo σ =
  foldl (λ σ ws, put_frame ws (Text message) σ) σ
        (filter (λ ws, Some ws ≠ excludeWs ∧ is_OPEN ws σ0 = true) todo).
Proof.
  revert σ. induction todo as [|ws todo IH]; intros σ Hs Hc Hok; simpl; [done|].
  destruct (Hok ws) as [[cd Hcd] Ht]; [by left|]. rewrite Hc, Hcd. unfold broadcast_visit.
  rewrite (is_OPEN_sockets _ _ _ Hs).
  assert (∀ w, w ∈ todo → is_Some (Map_get w (clients σ0)) ∧ throws w σ0 = false) as Hok'.
  { intros w Hw. apply Hok. by right. }
  destruct (decide (Some ws ≠ excludeWs ∧ is_OPEN ws σ0 = true)) as [[Hex Ho]|Hn].
  - rewrite filter_cons_True by done. rewrite bool_decide_eq_true_2, Ho by done. simpl.
    rewrite ws_send_OPEN; [|by rewrite (is_OPEN_sockets _ _ _ Hs)|by rewrite (throws_sockets _ _ _ Hs)].
    by apply IH.
  - rewrite filter_cons_False by done.
    destruct (bool_decide (Some ws ≠ excludeWs)) eqn:Hex; simpl; [|by apply IH].
    apply bool_decide_eq_true in Hex.
    destruct (is_OPEN ws σ0) eqn:Ho; [by destruct Hn|]. by apply IH.
Qed.

Lemma put_frames_sent message todo σ :
  let σ' := foldl (λ σ ws, put_frame ws (Text message) σ) σ todo in
  sent σ' = sent σ ++ ((λ ws, (ws, Text message)) <$> todo)
  ∧ clients σ' = clients σ ∧ pendingUpdates σ' = pendingUpdates σ ∧ sockets σ' = sockets σ
  ∧ console σ' = console σ.
Proof.
  revert σ. induction todo as [|ws todo IH]; intros σ; simpl; [by rewrite app_nil_r|].
  destruct (IH (put_frame ws (Text message) σ)) as (-> & -> & -> & -> & ->). simpl.
  by rewrite <-app_assoc.
Qed.

(** X14. When no registered socket refuses writes, a broadcast is one frame
    with the message for each registered socket that is open and is not the
    excluded one, in the order of the registry, and nothing else: no entry is
    removed, no queue is touched, nothing is logged. *)
Theorem broadcast_in_registration_order message excludeWs σ :
  (∀ ws, is_Some (Map_get ws (clients σ)) → throws ws σ = false) →
  let σ' := broadcastImmediate message excludeWs σ in
  σ' = foldl (λ σ ws, put_frame ws (Text message) σ) σ (recipients excludeWs σ)
  ∧ sent σ' = sent σ ++ ((λ ws, (ws, Text message)) <$> recipients excludeWs σ)
  ∧ clients σ' = clients σ ∧ pendingUpdates σ' = pendingUpdates σ ∧ console σ' = console σ.
Proof.
  intros Hok. cbv zeta.
  assert (broadcastImmediate message excludeWs σ =
          foldl (λ σ ws, put_frame ws (Text message) σ) σ (recipients excludeWs σ)) as ->.
  { unfold broadcastImmediate, recipients. apply broadcast_loop_order; [done|done|].
    intros ws Hin. assert (is_Some (Map_get ws (clients σ))) as Hreg.
    { destruct (Map_get ws (clients σ)) eqn:E; [eauto|]. by apply Map_get_None_keys in E. }
    auto. }
  destruct (put_frames_sent message (recipients excludeWs σ) σ) as (? & ? & ? & _ & ?). done.
Qed.

Lemma broadcast_in_registration_order_witness :
  sent (broadcastImmediate (chat_message "ia" "hi" 300) None two_clients)
  = sent two_clients ++ [(1%nat, Text (chat_message "ia" "hi" 300));
                         (2%nat, Text (chat_message "ia" "hi" 300))].
Proof.
  assert (∀ ws, is_Some (Map_get ws (clients two_clients)) → throws ws two_clients = false) as Hok.
  { intros ws _. unfold throws.
    destruct (sockets two_clients !! ws) as [s|] eqn:Hs; [|reflexivity].
    assert (map_Forall (λ _ s, Socket.sendThrows s = false) (sockets two_clients)) as Hall.
    { apply map_Forall_to_list. vm_compute. repeat constructor. }
    exact (Hall ws s Hs). }
  destruct (broadcast_in_registration_order (chat_message "ia" "hi" 300) None two_clients Hok)
    as (_ & H & _).
  rewrite H. vm_compute. reflexivity.
Defined.

(** X20. When no registered socket refuses writes, [handleClientDisconnect]
    for a registered socket removes its entry and its queue, logs the
    departure, and sends [player_left] with its id once to each socket that is
    still registered and is open, in the order of the registry; it sends
    nothing else, removes no other entry and logs nothing else. *)
Theorem disconnect_in_registration_order ws σ clientData :
  Map_get ws (clients σ) = Some clientData →
  (∀ w, is_Some (Map_get w (clients σ)) → throws w σ = false) →
  let σ' := handleClientDisconnect ws σ in
  clients σ' = Map_delete ws (clients σ)
  ∧ pendingUpdates σ' = Map_delete ws (pendingUpdates σ)
  ∧ console σ' = console σ ++ [log_disconnected (ClientData.id clientData)]
  ∧ sent σ' = sent σ ++ ((λ w, (w, Text (player_left (ClientData.id clientData))))
                          <$> recipients None (forget_client ws clientData σ))
  ∧ ws ∉ recipients None (forget_client ws clientData σ).
Proof.
  intros Hget Hok. cbv zeta. rewrite handleClientDisconnect_eq, Hget.
  set (σ0 := forget_client ws clientData σ).
  assert (broadcastImmediate (player_left (ClientData.id clientData)) None σ0 =
          foldl (λ σ w, put_frame w (Text (player_left (ClientData.id clientData))) σ) σ0
                (recipients None σ0)) as ->.
  { unfold broadcastImmediate, recipients. apply broadcast_loop_order; [done|done|].
    intros w Hin. destruct (Map_get w (clients σ0)) as [d|] eqn:Hd;
      [|by apply Map_get_None_keys in Hd].
    split; [by eauto|]. simpl in Hd. apply Map_get_delete_Some in Hd as [_ Hd].
    change (throws w σ0) with (throws w σ). apply Hok. by rewrite Hd. }
  destruct (put_frames_sent (player_left (ClientData.id clientData)) (recipients None σ0) σ0)
    as (Hsent & Hc & Hp & _ & Hl).
  split_and!; [by rewrite Hc|by rewrite Hp|by rewrite Hl|by rewrite Hsent|].
  unfold recipients. intros [_ Hin]%list_elem_of_filter. simpl in Hin.
  apply Map_get_None_keys in Hin; [done|]. apply Map_get_delete_eq.
Qed.

Lemma disconnect_in_registration_order_witness :
  sent (handleClientDisconnect 1 two_clients)
  = sent two_clients ++ [(2%nat, Text (player_left "ia"))].
Proof.
  assert (Map_get 1 (clients two_clients) = Some (ClientData.mk "ia" (initialState 100) 100 100))
    as Hget by (vm_compute; reflexivity).
  assert (∀ ws, is_Some (Map_get ws (clients two_clients)) → throws ws two_clients = false) as Hok.
  { intros ws _. unfold throws.
    destruct (sockets two_clients !! ws) as [s|] eqn:Hs; [|reflexivity].
    assert (map_Forall (λ _ s, Socket.sendThrows s = false) (sockets two_clients)) as Hall.
    { apply map_Forall_to_list. vm_compute. repeat constructor. }
    exact (Hall ws s Hs). }
  destruct (disconnect_in_registration_order 1 two_clients _ Hget Hok) as (_ & _ & _ & H & _).
  rewrite H. vm_compute. reflexivity.
Defined.

Lemma Map_get_elem_of {V} k (v : V) m : NoDup (Map_keys m) → (k, v) ∈ m → Map_get k m = Some v.
Proof.
  unfold Map_keys. induction m as [|[k' v'] m IH]; simpl; [by intros _ ?%elem_of_nil|].
  intros [Hk Hnd]%NoDup_cons [[= -> ->]|Hin]%elem_of_cons.
  - by rewrite decide_True.
  - destruct (decide (k' = k)) as [->|]; [|by apply IH].
    destruct Hk. apply list_elem_of_fmap. by exists (k, v).
Qed.

Lemma flush_loop_order σ0 (todo : list (Ws * list OutMsg)) σ :
  sockets σ = sockets σ0 → pendingUpdates σ = pendingUpdates σ0 →
  (∀ ws q, (ws, q) ∈ todo → Map_get ws (pendingUpdates σ0) = Some q ∧ throws ws σ0 = false) →
  flush_loop (Map_keys todo) σ =
  foldl (λ σ p, put_frame p.1 p.2 σ) σ (omap (flush_frame σ0) todo).
Proof.
  revert σ. induction todo as [|[ws q] todo IH]; intros σ Hs Hp Hok; simpl; [done|].
  destruct (Hok ws q) as [Hq Ht]; [by left|]. rewrite Hp, Hq.
  assert (∀ w q', (w, q') ∈ todo → Map_get w (pendingUpdates σ0) = Some q' ∧ throws w σ0 = false)
    as Hok'.
  { intros w q' Hw. apply Hok. by right. }
  unfold flush_visit, flush_frame. simpl. rewrite (is_OPEN_sockets _ _ _ Hs).
  destruct (is_OPEN ws σ0) eqn:Ho; [|by apply IH].
  destruct (flush_payload q) as [data|]; simpl; [|by apply IH].
  rewrite ws_send_OPEN; [|by rewrite (is_OPEN_sockets _ _ _ Hs)|by rewrite (throws_sockets _ _ _ Hs)].
  by apply IH.
Qed.

Lemma put_frames_frame (frames : list (Ws * Frame)) σ :
  let σ' := foldl (λ σ p, put_frame p.1 p.2 σ) σ frames in
  sent σ' = sent σ ++ frames ∧ clients σ' = clients σ ∧ console σ' = console σ
  ∧ sockets σ' = sockets σ.
Proof.
  revert σ. induction frames as [|[w f] frames IH]; intros σ; simpl; [by rewrite app_nil_r|].
  destruct (IH (put_frame w f σ)) as (-> & -> & -> & ->). simpl. by rewrite <-app_assoc.
Qed.

(** X15. When no socket that has a queue refuses writes (and no socket has
    two queues, as in a [Map]), a flush is one frame for each queue whose
    socket is open, in the order in which the
    queues were created: the single message of the queue, or one
    [batch_update] with all its messages.  Nothing else is sent, no entry of
    the registry is removed, nothing is logged, and afterwards no queue is
    left and [updateBatchTimer] is null. *)
Theorem flush_in_queue_order σ :
  NoDup (Map_keys (pendingUpdates σ)) →
  (∀ ws, is_Some (Map_get ws (pendingUpdates σ)) → throws ws σ = false) →
  let σ' := flushBatchedUpdates σ in
  sent σ' = sent σ ++ omap (flush_frame σ) (pendingUpdates σ)
  ∧ clients σ' = clients σ ∧ console σ' = console σ
  ∧ pendingUpdates σ' = [] ∧ updateBatchTimer σ' = None.
Proof.
  intros Hnd Hok. cbv zeta. unfold flushBatchedUpdates. simpl.
  rewrite (flush_loop_order σ (pendingUpdates σ) σ); [|done|done|].
  - destruct (put_frames_frame (omap (flush_frame σ) (pendingUpdates σ)) σ) as (? & ? & ? & _).
    done.
  - intros ws q Hin. pose proof (Map_get_elem_of _ _ _ Hnd Hin) as Hq. split; [done|].
    apply Hok. by rewrite Hq.
Qed.

Lemma flush_in_queue_order_witness :
  let σ := run [ev_message 1 (Some (in_player_update (state_at 0.01))) 300;
                ev_message 1 (Some (in_player_update (state_at 0.02))) 301] two_clients in
  sent (flushBatchedUpdates σ) =
  sent σ ++ [(2%nat, Text (batch_update [player_update "ia" (stamp 300 (state_at 0.01));
                                         player_update "ia" (stamp 301 (state_at 0.02))]))].
Proof.
  intros σ.
  assert (NoDup (Map_keys (pendingUpdates σ))) as Hnd.
  { apply reachable_well_formed. apply run_reachable; [exact two_clients_reachable|].
    repeat split; vm_compute; eexists; reflexivity. }
  assert (∀ ws, is_Some (Map_get ws (pendingUpdates σ)) → throws ws σ = false) as Hok.
  { intros ws _. unfold throws.
    destruct (sockets σ !! ws) as [s|] eqn:Hs; [|reflexivity].
    assert (map_Forall (λ _ s, Socket.sendThrows s = false) (sockets σ)) as Hall.
    { apply map_Forall_to_list. vm_compute. repeat constructor. }
    exact (Hall ws s Hs). }
  destruct (flush_in_queue_order σ Hnd Hok) as (H & _).
  rewrite H. vm_compute. reflexivity.
Defined.

(** ** Ids *)

Lemma substring_length (n m : nat) (s : string) :
  String.length (String.substring n m s) = Nat.min m (String.length s - n).
Proof.
  revert n m. induction s as [|c s IH]; intros n m.
  - destruct n, m; simpl; lia.
  - destruct n as [|n].
    + destruct m as [|m]; simpl; [done|]. rewrite IH. simpl. lia.
    + simpl. apply IH.
Qed.

(** X16. An id is what follows the first two characters of the base 36
    expansion of the random number, cut to six characters: it never has more
    than six characters, has exactly six when the expansion has at least six
    digits after the point, and is shorter otherwise, down to the empty id
    when the expansion is a bare [0].  Nothing compares it with the ids in
    use. *)
Theorem generateUniqueId_length :
  (∀ random36,
     String.length (generateUniqueId random36) = Nat.min 6 (String.length random36 - 2))
  ∧ (∀ digits, generateUniqueId ("0." +:+ digits) = String.substring 0 6 digits)
  ∧ generateUniqueId "0" = ""%string.
Proof.
  split_and!; [|done..]. intros random36. apply substring_length.
Qed.

(** ** The HTTP responder *)

(** X17. The HTTP responder serves one document.  The answer is 200 exactly
    when the URL is [/] or [/roadblocks.html], character for character, and
    the page could be read; then the body is the content of that file, sent
    as [text/html].  It is 500 exactly when the URL is one of the two and the
    read failed, and only then is an error logged; it is 404 for every other
    URL.  The only file ever read is the page: the answer does not depend on
    what any other path holds, whatever the URL. *)
Theorem responder_serves_one_page filePath readFile url :
  let served := url = "/"%string ∨ url = "/roadblocks.html"%string in
  let (res, logged) := requestListener filePath readFile url in
  (Response.statusCode res = 200%nat ↔ served ∧ is_Some (readFile filePath))
  ∧ (Response.statusCode res = 200%nat →
     readFile filePath = Some (Response.body res)
     ∧ Response.contentType res = Some "text/html"%string)
  ∧ (Response.statusCode res = 500%nat ↔ served ∧ readFile filePath = None)
  ∧ (Response.statusCode res = 404%nat ↔ ¬ served)
  ∧ (logged = true ↔ Response.statusCode res = 500%nat)
  ∧ (Response.statusCode res = 200%nat ∨ Response.statusCode res = 404%nat
     ∨ Response.statusCode res = 500%nat)
  ∧ ∀ readFile', readFile' filePath = readFile filePath →
      requestListener filePath readFile' url = (res, logged).
Proof.
  cbv zeta. unfold requestListener.
  destruct (bool_decide (url = "/"%string) || bool_decide (url = "/roadblocks.html"%string))
    eqn:Hurl.
  - assert (url = "/"%string ∨ url = "/roadblocks.html"%string) as Hserved.
    { apply orb_true_iff in Hurl as [H|H]; apply bool_decide_eq_true in H; auto. }
    destruct (readFile filePath) as [data|] eqn:Hread; simpl.
    + split_and!; try done; try (split; [done|by intros [_ ?]]); auto.
      intros readFile' H. by rewrite H.
    + split_and!; try done; try (split; [done|by intros [_ [? ?]]]); auto.
      intros readFile' H. by rewrite H.
  - assert (¬ (url = "/"%string ∨ url = "/roadblocks.html"%string)) as Hnot.
    { apply orb_false_iff in Hurl as [H1 H2].
      apply bool_decide_eq_false in H1, H2. by intros [?|?]. }
    simpl. split_and!; try done; try (split; [done|by intros [? _]]); auto.
Qed.

(** ** LivenessMonitor: what a sweep does to every socket *)

Lemma pings_to_app ws t1 t2 : pings_to ws (t1 ++ t2) = (pings_to ws t1 + pings_to ws t2)%nat.
Proof. unfold pings_to. by rewrite frames_to_app, filter_app, length_app. Qed.

Lemma cascade_pings V M σ σ' rest ws :
  rtc (cascade_step V M) σ σ' → sent σ' = sent σ ++ rest → pings_to ws rest = 0%nat.
Proof.
  intros (rest' & Heq & Hall)%cascade_sent Heq'.
  rewrite Heq in Heq'. apply app_inv_head in Heq' as ->. clear Heq.
  induction Hall as [|[w f] rest Hp _ IH]; [done|].
  unfold pings_to, frames_to in *. simpl. destruct (decide (w = ws)); [|done].
  destruct Hp as (m & _ & Hf & _). simpl in Hf. subst f.
  rewrite filter_cons_False by done. done.
Qed.

Lemma sweep_visit_pings w σ ws :
  ∃ rest, sent (sweep_visit w σ) = sent σ ++ rest
    ∧ pings_to ws rest = if bool_decide (w = ws) && answering ws σ then 1%nat else 0%nat.
Proof.
  assert (bool_decide (w = ws) && answering ws σ =
          bool_decide (w = ws) && answering w σ) as ->.
  { case_bool_decide as Hw; [by subst w|done]. }
  unfold sweep_visit, answering. destruct (sockets σ !! w) as [s|] eqn:Hs.
  2:{ exists []. rewrite app_nil_r, andb_false_r. done. }
  destruct (Socket.isAlive s) eqn:Ha; simpl.
  - assert (is_OPEN w (set_isAlive w false σ) = bool_decide (Socket.readyState s = OPEN)) as ->.
    { unfold is_OPEN. simpl. by rewrite lookup_alter_eq, Hs. }
    destruct (bool_decide (Socket.readyState s = OPEN)) eqn:Ho.
    + exists [(w, PingFrame)]. split; [done|]. unfold pings_to, frames_to. simpl.
      rewrite andb_true_r. destruct (decide (w = ws)) as [->|Hne].
      * by rewrite bool_decide_eq_true_2.
      * by rewrite bool_decide_eq_false_2.
    + exists []. rewrite app_nil_r, andb_false_r. done.
  - destruct (cascade_sent _ _ _ _ (handleClientDisconnect_cascade w σ)) as (rest & Heq & _).
    exists rest. split; [done|].
    rewrite (cascade_pings _ _ _ _ rest ws (handleClientDisconnect_cascade w σ) Heq).
    by rewrite andb_false_r.
Qed.

Lemma sweep_loop_pings todo σ :
  NoDup todo →
  ∃ rest, sent (foldl (λ σ w, sweep_visit w σ) σ todo) = sent σ ++ rest
    ∧ ∀ ws, pings_to ws rest = if bool_decide (ws ∈ todo) && answering ws σ then 1%nat else 0%nat.
Proof.
  revert σ. induction todo as [|w todo IH]; intros σ Hnd; simpl.
  { exists []. rewrite app_nil_r. split; [done|]. intros ws.
    destruct (bool_decide_reflect (ws ∈ [])) as [[]%elem_of_nil|]; done. }
  apply NoDup_cons in Hnd as [Hw Hnd].
  destruct (IH (sweep_visit w σ) Hnd) as (r2 & -> & H2).
  assert (∃ r1, sent (sweep_visit w σ) = sent σ ++ r1
                ∧ ∀ ws, pings_to ws r1 = if bool_decide (w = ws) && answering ws σ then 1%nat else 0%nat)
    as (r1 & -> & H1).
  { destruct (sweep_visit_pings w σ w) as (r1 & Heq & _). exists r1. split; [done|].
    intros ws. destruct (sweep_visit_pings w σ ws) as (r1' & Heq' & Hp).
    rewrite Heq in Heq'. by apply app_inv_head in Heq' as <-. }
  exists (r1 ++ r2). split; [by rewrite app_assoc|]. intros ws.
  rewrite pings_to_app, H1, H2. destruct (decide (w = ws)) as [->|Hne].
  - rewrite (bool_decide_eq_true_2 (ws = ws)) by done.
    rewrite (bool_decide_eq_false_2 (ws ∈ todo)) by done.
    rewrite (bool_decide_eq_true_2 (ws ∈ ws :: todo)) by left. simpl.
    destruct (answering ws σ); done.
  - rewrite (bool_decide_eq_false_2 (w = ws)) by done. simpl.
    assert (answering ws (sweep_visit w σ) = answering ws σ) as ->.
    { unfold answering. by rewrite sweep_visit_other. }
    assert (bool_decide (ws ∈ w :: todo) = bool_decide (ws ∈ todo)) as ->; [|done].
    apply bool_decide_ext. rewrite elem_of_cons. split; [by intros [?|?]|by right].
Qed.

Lemma sweep_loop_sockets todo σ ws :
  NoDup todo →
  sockets (foldl (λ σ w, sweep_visit w σ) σ todo) !! ws =
  if bool_decide (ws ∈ todo) then swept <$> sockets σ !! ws else sockets σ !! ws.
Proof.
  revert σ. induction todo as [|w todo IH]; intros σ Hnd; simpl.
  { destruct (bool_decide_reflect (ws ∈ [])) as [[]%elem_of_nil|]; done. }
  apply NoDup_cons in Hnd as [Hw Hnd]. rewrite IH by done.
  destruct (decide (w = ws)) as [->|Hne].
  - rewrite (bool_decide_eq_false_2 (ws ∈ todo)) by done.
    rewrite (bool_decide_eq_true_2 (ws ∈ ws :: todo)) by left.
    destruct (sockets σ !! ws) as [s|] eqn:Hs; simpl; [by apply sweep_visit_socket|].
    unfold sweep_visit. by rewrite Hs.
  - rewrite sweep_visit_other by done.
    assert (bool_decide (ws ∈ w :: todo) = bool_decide (ws ∈ todo)) as ->; [|done].
    apply bool_decide_ext. rewrite elem_of_cons. split; [by intros [?|?]|by right].
Qed.

(** X18. What a sweep does to every socket.  The library lists no socket
    twice ([wss.clients] is a [Set]), so each socket it lists is visited
    once: one that has answered its last ping is marked and, if it
    is open, is sent exactly one ping; one that has not is sent no ping, is
    terminated, and is no longer registered afterwards.  A socket the library
    does not list is not touched and gets no ping. *)
Theorem sweep_outcome σ :
  NoDup (wss_clients σ) →
  let σ' := step ev_heartbeat σ in
  (∀ ws, sockets σ' !! ws =
         if bool_decide (ws ∈ wss_clients σ) then swept <$> sockets σ !! ws
         else sockets σ !! ws)
  ∧ (∀ ws, ws ∈ wss_clients σ → marked ws σ → Map_get ws (clients σ') = None)
  ∧ ∃ rest, sent σ' = sent σ ++ rest
      ∧ ∀ ws, pings_to ws rest =
              if bool_decide (ws ∈ wss_clients σ) && answering ws σ then 1%nat else 0%nat.
Proof.
  intros Hnd. cbv zeta. simpl. unfold heartbeatInterval. split_and!.
  - intros ws. by apply sweep_loop_sockets.
  - intros ws Hin Hm. apply sweep_evicts. by right.
  - by apply sweep_loop_pings.
Qed.

Lemma sweep_outcome_witness :
  let σ := step ev_heartbeat two_clients in
  ∃ rest, sent (step ev_heartbeat two_clients) = sent two_clients ++ rest
    ∧ pings_to 1 rest = 1%nat
    ∧ sockets σ !! 1%nat = Some (Socket.mk OPEN false false)
    ∧ Map_get 1 (clients (step ev_heartbeat σ)) = None.
Proof.
  intros σ.
  assert (NoDup (wss_clients two_clients)) as Hnd
    by apply (reachable_well_formed _ two_clients_reachable).
  assert (NoDup (wss_clients σ)) as Hnd'.
  { apply reachable_well_formed. constructor; [exact two_clients_reachable|exact I]. }
  destruct (sweep_outcome two_clients Hnd) as (Hs & _ & rest & Heq & Hp).
  destruct (sweep_outcome σ Hnd') as (_ & Hev & _).
  exists rest. split; [exact Heq|]. split; [exact (Hp 1%nat)|]. split; [exact (Hs 1%nat)|].
  apply Hev; [vm_compute; left|]. eexists. split; vm_compute; reflexivity.
Defined.

(** ** The registry and the library's list *)

(** X19. In every state the server can be in, no socket has two entries in
    the registry or two queues, the library lists no socket twice, every
    registered socket is one the library lists, and every listed socket is a
    socket object: the liveness sweep, which goes through the library's list,
    visits every registered connection. *)
Theorem registered_sockets_listed σ :
  reachable σ →
  NoDup (Map_keys (clients σ)) ∧ NoDup (Map_keys (pendingUpdates σ)) ∧ NoDup (wss_clients σ)
  ∧ (∀ ws, is_Some (Map_get ws (clients σ)) → ws ∈ wss_clients σ)
  ∧ (∀ ws, ws ∈ wss_clients σ → is_Some (sockets σ !! ws)).
Proof.
  intros (W1 & W2 & W3 & W4 & W5)%reachable_well_formed. split_and!; try done.
  intros ws Hin. by apply elem_of_dom, W5.
Qed.

Lemma registered_sockets_listed_witness :
  NoDup (wss_clients two_clients) ∧ ∀ ws, is_Some (Map_get ws (clients two_clients)) → ws ∈ wss_clients two_clients.
Proof.
  destruct (registered_sockets_listed two_clients two_clients_reachable) as (_ & _ & H3 & H4 & _).
  exact (conj H3 H4).
Defined.

(** ** Why a connection leaves the registry *)

Lemma flush_loop_keeps ws todo σ :
  ¬ failing ws σ → Map_get ws (clients (flush_loop todo σ)) = Map_get ws (clients σ).
Proof.
  revert σ. induction todo as [|w todo IH]; intros σ Hf; simpl; [done|].
  assert (∀ σ1, sockets σ1 = sockets σ → Map_get ws (clients σ1) = Map_get ws (clients σ) →
            Map_get ws (clients (flush_loop todo σ1)) = Map_get ws (clients σ)) as Hnext.
  { intros σ1 Hs Hc. rewrite IH; [done|]. intros [Ho Ht]. apply Hf.
    by rewrite (is_OPEN_sockets _ _ _ Hs), (throws_sockets _ _ _ Hs) in *. }
  destruct (Map_get w (pendingUpdates σ)) as [messages|]; [|by apply Hnext].
  unfold flush_visit. destruct (is_OPEN w σ) eqn:Ho; [|by apply Hnext].
  destruct (flush_payload messages) as [data|]; [|by apply Hnext].
  destruct (ws_send w data σ) as [σ'|] eqn:Hsend.
  - apply ws_send_Some in Hsend as [->|[_ ->]]; by apply Hnext.
  - apply ws_send_None in Hsend. set (σ1 := console_write err_batch σ).
    assert (failing w σ1) as Hfw by done.
    pose proof (handleClientDisconnect_cascade_failing w σ1 Hfw) as Hc.
    apply Hnext; [by rewrite (cascade_sockets _ _ _ _ Hc)|].
    by rewrite (cascade_clients_keep _ _ _ _ ws Hc).
Qed.

(** X21. A connection leaves the registry for one of four reasons only.  If,
    in a well-formed state, an event that can happen takes a registered socket
    out of the registry, the event is the
    [close] or the [error] event of that socket, or it is a sweep that found
    the socket's last ping unanswered, or the socket was open and refusing
    writes when the event happened. *)
Theorem removal_has_cause e σ ws d :
  well_formed σ → enabled e σ →
  Map_get ws (clients σ) = Some d → Map_get ws (clients (step e σ)) = None →
  e = ev_close ws ∨ e = ev_error ws ∨ (e = ev_heartbeat ∧ marked ws σ) ∨ failing ws σ.
Proof.
  intros Hwf Hen Hd Hgone.
  destruct (failing_dec ws σ) as [?|Hf]; [by auto|].
  assert (∀ σ1, sockets σ1 !! ws = sockets σ !! ws → ¬ failing ws σ1) as Hf1.
  { intros σ1 Hs [Ho Ht]. apply Hf. unfold failing, is_OPEN, throws in *. by rewrite Hs in *. }
  assert (∀ σ1 σ', rtc (cascade_step (λ w, failing w σ1) (λ _ _, True)) σ1 σ' →
            sockets σ1 !! ws = sockets σ !! ws →
            Map_get ws (clients σ') = Map_get ws (clients σ1)) as Hkeep.
  { intros σ1 σ' Hc Hs. apply (cascade_clients_keep _ _ _ _ ws Hc). by apply Hf1. }
  assert (∀ m x σ1, sockets σ1 !! ws = sockets σ !! ws →
            Map_get ws (clients (broadcastImmediate m x σ1)) = Map_get ws (clients σ1)) as Hbc.
  { intros m x σ1 Hs. apply Hkeep; [|done].
    eapply cascade_mono; [| |apply broadcastImmediate_cascade]; done. }
  assert (∀ w σ1, w ≠ ws → sockets σ1 !! ws = sockets σ !! ws →
            Map_get ws (clients (handleClientDisconnect w σ1)) = Map_get ws (clients σ1)) as Hdc.
  { intros w σ1 Hne Hs.
    apply (cascade_clients_keep _ _ _ _ ws (handleClientDisconnect_cascade w σ1)).
    intros [->|?]; [done|]. by apply (Hf1 σ1). }
  destruct e as [w cid t1 t2 t3 t4|w messageString now|w|w|w| |t|w rs th].
  - exfalso. simpl in Hen. pose proof (well_formed_fresh w σ Hwf Hen) as Hnone.
    destruct (on_connection_eq w cid t1 t2 t3 t4 σ Hen Hnone) as (σe & Hstep & _ & Hcl & Hsock & _).
    rewrite Hstep, Hbc in Hgone.
    + rewrite Hcl in Hgone. by erewrite Map_get_app_Some in Hgone.
    + rewrite Hsock. apply lookup_insert_ne. intros ->. congruence.
  - exfalso. simpl in Hgone. unfold on_message in Hgone.
    destruct messageString as [message|]; [|simpl in Hgone; congruence].
    destruct (Map_get w (clients σ)) as [sd|] eqn:Hsd; [|congruence].
    assert (∀ v, Map_get ws (Map_set w v (clients σ)) = None → False) as Hset.
    { intros v H. destruct (decide (w = ws)) as [->|Hne].
      - by rewrite Map_get_set_eq in H.
      - rewrite Map_get_set_ne in H by done. congruence. }
    destruct message as [state|message|emote|ts|ty]; simpl in Hgone.
    + destruct (hasSignificantChange _ _); [|exact (Hset _ Hgone)].
      match type of Hgone with context [batchBroadcast ?m ?x false ?s] =>
        destruct (batchBroadcast_frame m x s) as (_ & Hc & _); rewrite Hc in Hgone end.
      simpl in Hgone. destruct (decide (w = ws)) as [->|Hne].
      * by rewrite Map_get_set_eq in Hgone.
      * rewrite !Map_get_set_ne in Hgone by done. congruence.
    + rewrite Hbc in Hgone by done. exact (Hset _ Hgone).
    + destruct (bool_decide _); [|exact (Hset _ Hgone)].
      rewrite Hbc in Hgone by done. exact (Hset _ Hgone).
    + destruct (ws_send _ _ _) as [σ'|] eqn:Hsend; [|exact (Hset _ Hgone)].
      apply ws_send_Some in Hsend as [->|[_ ->]]; exact (Hset _ Hgone).
    + exact (Hset _ Hgone).
  - exfalso. simpl in Hgone. congruence.
  - destruct (decide (w = ws)) as [->|Hne]; [by left|]. exfalso.
    simpl in Hgone. unfold on_close in Hgone. rewrite Hdc in Hgone; [simpl in Hgone; congruence|done|].
    simpl. by rewrite lookup_alter_ne.
  - destruct (decide (w = ws)) as [->|Hne]; [by right; left|]. exfalso.
    simpl in Hgone. unfold on_error in Hgone. rewrite Hdc in Hgone; [simpl in Hgone; congruence|done|done].
  - right. right. left. split; [done|].
    destruct Hwf as (_ & _ & W3 & W4 & W5).
    assert (ws ∈ dom (sockets σ)) as Hin by (apply W5, W4; by rewrite Hd).
    apply elem_of_dom in Hin as [s Hs]. destruct (Socket.isAlive s) eqn:Ha; [|by exists s].
    exfalso. simpl in Hgone. unfold heartbeatInterval in Hgone.
    destruct (sweep_loop_keeps ws d (wss_clients σ) σ W3 Hd Hf) as (K & _); [|congruence].
    intros _. by exists s.
  - exfalso. simpl in Hgone. unfold flushBatchedUpdates in Hgone. simpl in Hgone.
    rewrite flush_loop_keeps in Hgone; [simpl in Hgone; congruence|]. by apply Hf1.
  - exfalso. simpl in Hgone. congruence.
Qed.

Lemma removal_has_cause_witness :
  let σ := step (ev_transport 2 OPEN true) two_clients in
  let e := ev_message 1 (Some (in_chat_message "hi")) 300 in
  Map_get 2 (clients (step e σ)) = None ∧ failing 2 σ.
Proof.
  intros σ e.
  assert (reachable σ) as Hr.
  { constructor; [exact two_clients_reachable|]. vm_compute. eexists. reflexivity. }
  assert (enabled e σ) as Hen by (vm_compute; eexists; reflexivity).
  assert (Map_get 2 (clients σ) = Some (ClientData.mk "ib" (initialState 200) 200 200)) as Hd
    by (vm_compute; reflexivity).
  assert (Map_get 2 (clients (step e σ)) = None) as Hgone by (vm_compute; reflexivity).
  split; [exact Hgone|].
  destruct (removal_has_cause e σ 2%nat _ (reachable_well_formed σ Hr) Hen Hd Hgone)
    as [H|[H|[[H _]|H]]]; [discriminate H..|exact H].
Defined.

(** ** A notice is sent once *)

Lemma notices_to_app id w t1 t2 :
  notices_to id w (t1 ++ t2) = (notices_to id w t1 + notices_to id w t2)%nat.
Proof. unfold notices_to. by rewrite frames_to_app, filter_app, length_app. Qed.

Lemma notices_to_other id w w0 m : m ≠ player_left id → notices_to id w [(w0, Text m)] = 0%nat.
Proof.
  intros Hm. unfold notices_to, frames_to. simpl. destruct (decide (w0 = w)); [|done].
  simpl. rewrite filter_cons_False; [done|]. congruence.
Qed.

Lemma notices_to_one_each_other id w message todo :
  message ≠ player_left id → notices_to id w (one_each message todo) = 0%nat.
Proof.
  intros Hm. induction todo as [|w0 todo IH]; [done|].
  change (one_each message (w0 :: todo)) with ([(w0, Text message)] ++ one_each message todo).
  by rewrite notices_to_app, IH, notices_to_other.
Qed.

Lemma notices_to_absent id w message todo :
  w ∉ todo → notices_to id w (one_each message todo) = 0%nat.
Proof.
  induction todo as [|w0 todo IH]; [done|]. intros [Hne Hin]%not_elem_of_cons.
  change (one_each message (w0 :: todo)) with ([(w0, Text message)] ++ one_each message todo).
  rewrite notices_to_app, IH by done. unfold notices_to. by rewrite frames_to_single_ne.
Qed.

Lemma notices_to_single id w w0 f : (notices_to id w [(w0, f)] ≤ 1)%nat.
Proof.
  unfold notices_to, frames_to. simpl. destruct (decide (w0 = w)); [|simpl; lia].
  simpl. destruct (decide (f = Text (player_left id))).
  - by rewrite filter_cons_True.
  - rewrite filter_cons_False by done. simpl. lia.
Qed.

Lemma notices_to_one_each id w message todo :
  NoDup todo → (notices_to id w (one_each message todo) ≤ 1)%nat.
Proof.
  induction todo as [|w0 todo IH]; [simpl; unfold notices_to; simpl; lia|].
  intros [Hnin Hnd]%NoDup_cons.
  change (one_each message (w0 :: todo)) with ([(w0, Text message)] ++ one_each message todo).
  rewrite notices_to_app. destruct (decide (w0 = w)) as [->|Hne].
  - rewrite (notices_to_absent id w message todo) by done.
    pose proof (notices_to_single id w w (Text message)). lia.
  - unfold notices_to at 1. rewrite frames_to_single_ne by done. simpl. by apply IH.
Qed.

Lemma departs_trans r σ1 σ2 σ3 :
  (∀ w d, Map_get w (clients σ2) = Some d → Map_get w (clients σ1) = Some d) →
  (∀ w d, Map_get w (clients σ3) = Some d → Map_get w (clients σ2) = Some d) →
  (departs r σ1 σ2 + departs r σ2 σ3 ≤ departs r σ1 σ3)%nat.
Proof.
  intros S1 S2. unfold departs, Map_has.
  destruct (Map_get r (clients σ3)) as [d3|] eqn:H3.
  { apply S2 in H3. rewrite H3. simpl. rewrite andb_false_r. simpl. lia. }
  destruct (Map_get r (clients σ2)) as [d2|] eqn:H2.
  { apply S1 in H2. rewrite H2. simpl. lia. }
  simpl. destruct (Map_get r (clients σ1)); simpl; lia.
Qed.

Lemma departs_same r σ1 σ1' σ2 :
  Map_has r (clients σ1') = Map_has r (clients σ1) → departs r σ1' σ2 = departs r σ1 σ2.
Proof. unfold departs. by intros ->. Qed.

Lemma tallies_refl id r σ : tallies id r [] σ σ.
Proof. split; [done|]. exists []. rewrite app_nil_r. split; [done|]. intros w. unfold notices_to. simpl. lia. Qed.

Lemma tallies_trans id r a1 a2 σ1 σ2 σ3 :
  tallies id r a1 σ1 σ2 → tallies id r a2 σ2 σ3 → tallies id r (a1 ++ a2) σ1 σ3.
Proof.
  intros [S1 (r1 & E1 & T1)] [S2 (r2 & E2 & T2)]. split; [by auto|].
  exists (r1 ++ r2). split; [by rewrite E2, E1, app_assoc|]. intros w.
  rewrite !notices_to_app. pose proof (departs_trans r σ1 σ2 σ3 S1 S2).
  specialize (T1 w). specialize (T2 w). lia.
Qed.

Lemma tallies_quiet id r σ σ' :
  clients σ' = clients σ → sent σ' = sent σ → tallies id r [] σ σ'.
Proof.
  intros Hc He. split; [by rewrite Hc|]. exists []. rewrite app_nil_r. split; [done|].
  intros w. unfold notices_to. simpl. lia.
Qed.

Lemma tallies_allow id r a a' σ σ' :
  (∀ w, notices_to id w a ≤ notices_to id w a')%nat → tallies id r a σ σ' → tallies id r a' σ σ'.
Proof.
  intros Ha [S (rest & E & T)]. split; [done|]. exists rest. split; [done|].
  intros w. specialize (T w). specialize (Ha w). lia.
Qed.

Lemma ws_send_tallies id r ws m σ σ' :
  ws_send ws m σ = Some σ' → tallies id r [(ws, Text m)] σ σ'.
Proof.
  intros [->|[_ ->]]%ws_send_Some.
  - eapply tallies_allow; [|apply tallies_refl]. intros w. unfold notices_to at 1. simpl. lia.
  - split; [done|]. exists [(ws, Text m)]. split; [done|]. intros w. lia.
Qed.

Lemma broadcast_loop_tallies (bound : nat) id r message excludeWs :
  (∀ ws σ, length (clients σ) ≤ bound → NoDup (Map_keys (clients σ)) → sole_bearer id r σ →
           tallies id r [] σ (handleClientDisconnect ws σ)) →
  ∀ todo σ, length (clients σ) ≤ bound → NoDup (Map_keys (clients σ)) → sole_bearer id r σ →
    tallies id r (one_each message todo) σ
      (broadcast_loop handleClientDisconnect message excludeWs todo σ).
Proof.
  intros Hd todo. induction todo as [|ws todo IH]; intros σ Hb Hnd Hsole; simpl;
    [apply tallies_refl|].
  change (one_each message (ws :: todo)) with ([(ws, Text message)] ++ one_each message todo).
  assert (∀ σ', tallies id r (one_each message todo) σ σ' →
                tallies id r ([(ws, Text message)] ++ one_each message todo) σ σ') as Hskip.
  { intros σ'. apply tallies_allow. intros w. rewrite notices_to_app. lia. }
  destruct (Map_get ws (clients σ)) as [d|] eqn:Hget; [|by apply Hskip, IH].
  unfold broadcast_visit.
  destruct (bool_decide (Some ws ≠ excludeWs) && is_OPEN ws σ); [|by apply Hskip, IH].
  destruct (ws_send ws message σ) as [σ'|] eqn:Hsend.
  - apply (tallies_trans id r [(ws, Text message)] (one_each message todo) σ σ');
      [by eapply ws_send_tallies|].
    assert (clients σ' = clients σ) as Hc by (by apply ws_send_Some in Hsend as [->|[_ ->]]).
    apply IH; unfold sole_bearer; by rewrite Hc.
  - set (σ1 := console_write (err_broadcast (ClientData.id d)) σ).
    pose proof (handleClientDisconnect_settled ws σ1) as (_ & _ & _ & _ & Hkeep & _).
    apply Hskip. apply (tallies_trans id r [] (one_each message todo) σ σ1);
      [by apply tallies_quiet|].
    apply (tallies_trans id r [] (one_each message todo) σ1 (handleClientDisconnect ws σ1));
      [by apply Hd|].
    apply IH.
    + etrans; [apply (cascade_clients_length _ _ _ _ (handleClientDisconnect_cascade ws σ1))|done].
    + by apply (cascade_clients_NoDup _ _ _ _ (handleClientDisconnect_cascade ws σ1)).
    + intros w dw Hw. apply Hkeep in Hw. by apply Hsole.
Qed.

Lemma handleClientDisconnect_tallies_bounded (bound : nat) id r ws σ :
  length (clients σ) ≤ bound → NoDup (Map_keys (clients σ)) → sole_bearer id r σ →
  tallies id r [] σ (handleClientDisconnect ws σ).
Proof.
  revert ws σ. induction bound as [|bound IH]; intros ws σ Hb Hnd Hsole;
    rewrite handleClientDisconnect_eq.
  - destruct (clients σ); [apply tallies_refl|simpl in Hb; lia].
  - destruct (Map_get ws (clients σ)) as [d|] eqn:Hget; [|apply tallies_refl].
    set (σ0 := forget_client ws d σ).
    assert (length (clients σ0) ≤ bound) as Hb0.
    { pose proof (Map_delete_length_lt _ _ _ Hget). simpl. lia. }
    assert (NoDup (Map_keys (clients σ0))) as Hnd0 by (by apply Map_keys_NoDup_delete).
    assert (sole_bearer id r σ0) as Hsole0.
    { intros w dw Hw. simpl in Hw. apply Map_get_delete_Some in Hw as [_ Hw]. by apply Hsole. }
    pose proof (broadcast_loop_tallies bound id r (player_left (ClientData.id d)) None IH
                  (Map_keys (clients σ0)) σ0 Hb0 Hnd0 Hsole0) as [S0 (rest & E0 & T0)].
    fold (broadcastImmediate (player_left (ClientData.id d)) None σ0) in *.
    set (σ' := broadcastImmediate (player_left (ClientData.id d)) None σ0) in *.
    split.
    + intros w dw Hdw. apply S0 in Hdw. simpl in Hdw. by apply Map_get_delete_Some in Hdw as [_ ?].
    + exists rest. split; [done|]. intros w. specialize (T0 w).
      destruct (decide (ws = r)) as [->|Hne].
      * assert (departs r σ0 σ' = 0%nat) as H0.
        { unfold departs, Map_has. simpl. by rewrite Map_get_delete_eq. }
        assert (departs r σ σ' = 1%nat) as H1.
        { unfold departs, Map_has. rewrite Hget.
          destruct (Map_get r (clients σ')) as [d'|] eqn:Hd'; [|done].
          apply S0 in Hd'. simpl in Hd'. by rewrite Map_get_delete_eq in Hd'. }
        pose proof (notices_to_one_each id w (player_left (ClientData.id d))
                      (Map_keys (clients σ0)) Hnd0).
        lia.
      * assert (ClientData.id d ≠ id) as Hid by (intros Hid; apply Hne; by eapply Hsole).
        rewrite notices_to_one_each_other in T0 by congruence.
        rewrite (departs_same r σ σ0) in T0; [done|].
        unfold Map_has. simpl. by rewrite Map_get_delete_ne.
Qed.

Lemma handleClientDisconnect_tallies id r ws σ :
  NoDup (Map_keys (clients σ)) → sole_bearer id r σ →
  tallies id r [] σ (handleClientDisconnect ws σ).
Proof. by apply (handleClientDisconnect_tallies_bounded (length (clients σ))). Qed.

Lemma broadcastImmediate_tallies id r message excludeWs σ :
  NoDup (Map_keys (clients σ)) → sole_bearer id r σ → message ≠ player_left id →
  tallies id r [] σ (broadcastImmediate message excludeWs σ).
Proof.
  intros Hnd Hsole Hm.
  apply (tallies_allow id r (one_each message (Map_keys (clients σ)))).
  { intros w. by rewrite notices_to_one_each_other. }
  apply (broadcast_loop_tallies (length (clients σ))); [|done..].
  intros ws s _. apply handleClientDisconnect_tallies.
Qed.

Lemma tallies_same id r rest σ σ' :
  clients σ' = clients σ → sent σ' = sent σ ++ rest → tallies id r rest σ σ'.
Proof. intros Hc He. split; [by rewrite Hc|]. exists rest. split; [done|]. intros w. lia. Qed.

Lemma settled_sole_bearer id r σ σ' :
  settled σ σ' → NoDup (Map_keys (clients σ)) → sole_bearer id r σ →
  NoDup (Map_keys (clients σ')) ∧ sole_bearer id r σ'.
Proof.
  intros (_ & _ & _ & _ & S5 & _ & _ & _ & S9 & _) Hnd Hsole. split.
  - exact (sublist_NoDup _ _ Hnd S9).
  - intros w d Hd. apply S5 in Hd. by apply Hsole.
Qed.

Lemma ws_send_tallies_other id r ws m σ σ' :
  m ≠ player_left id → ws_send ws m σ = Some σ' → tallies id r [] σ σ'.
Proof.
  intros Hm Hsend. apply (tallies_allow id r [(ws, Text m)]); [|by eapply ws_send_tallies].
  intros w. by rewrite notices_to_other.
Qed.

Lemma flush_loop_tallies id r todo σ :
  queues_ok σ → NoDup (Map_keys (clients σ)) → sole_bearer id r σ →
  tallies id r [] σ (flush_loop todo σ).
Proof.
  revert σ. induction todo as [|ws todo IH]; intros σ Hq Hnd Hsole; simpl; [apply tallies_refl|].
  destruct (Map_get ws (pendingUpdates σ)) as [messages|] eqn:Hget; [|by apply IH].
  destruct (Hq _ _ Hget) as (Hreg & _ & Hall).
  unfold flush_visit. destruct (is_OPEN ws σ); [|by apply IH].
  destruct (flush_payload messages) as [data|] eqn:Hpay; [|by apply IH].
  pose proof (flush_payload_update messages data Hall Hpay id) as Hdata.
  destruct (ws_send ws data σ) as [σ'|] eqn:Hsend.
  - apply (tallies_trans id r [] [] σ σ'); [by eapply ws_send_tallies_other|].
    destruct (settled_sole_bearer id r σ σ') as [? ?]; [by eapply ws_send_settled|done..|].
    apply IH; [by eapply ws_send_queues_ok|done..].
  - set (σ1 := console_write err_batch σ).
    apply (tallies_trans id r [] [] σ σ1); [by apply tallies_quiet|].
    apply (tallies_trans id r [] [] σ1 (handleClientDisconnect ws σ1));
      [by apply handleClientDisconnect_tallies|].
    destruct (settled_sole_bearer id r σ1 (handleClientDisconnect ws σ1)) as [? ?];
      [apply handleClientDisconnect_settled|done..|].
    apply IH; [|done..].
    apply handleClientDisconnect_queues_ok. by apply (queues_ok_same σ).
Qed.

Lemma sweep_visit_tallies id r ws σ :
  NoDup (Map_keys (clients σ)) → sole_bearer id r σ → tallies id r [] σ (sweep_visit ws σ).
Proof.
  intros Hnd Hsole.
  unfold sweep_visit. destruct (sockets σ !! ws) as [s|]; [|apply tallies_refl].
  destruct (negb (Socket.isAlive s)).
  - apply (tallies_trans id r [] [] σ (handleClientDisconnect ws σ));
      [by apply handleClientDisconnect_tallies|]. by apply tallies_quiet.
  - destruct (is_OPEN ws _); [|by apply tallies_quiet].
    apply (tallies_allow id r [(ws, PingFrame)]); [|by apply tallies_same].
    intros w. unfold notices_to, frames_to. simpl. destruct (decide (ws = w)); simpl; lia.
Qed.

Lemma heartbeatInterval_tallies id r σ :
  NoDup (Map_keys (clients σ)) → sole_bearer id r σ → tallies id r [] σ (heartbeatInterval σ).
Proof.
  unfold heartbeatInterval. generalize (wss_clients σ) as todo. intros todo. revert σ.
  induction todo as [|ws todo IH]; intros σ Hnd Hsole; simpl; [apply tallies_refl|].
  apply (tallies_trans id r [] [] σ (sweep_visit ws σ)); [by apply sweep_visit_tallies|].
  destruct (settled_sole_bearer id r σ (sweep_visit ws σ)) as [? ?];
    [apply sweep_visit_settled|done..|]. by apply IH.
Qed.

Lemma Map_get_app_ne {V} k k' (v : V) m : k' ≠ k → Map_get k (m ++ [(k', v)]) = Map_get k m.
Proof.
  intros Hne. induction m as [|[k0 v0] m IH]; simpl.
  - by rewrite decide_False.
  - destruct (decide (k0 = k)); [done|exact IH].
Qed.

(** What an event sends on from a state [σ0] it has brought the server to,
    seen from the state [σ] before the event. *)
Lemma tallies_event id r σ σ0 σ' pre :
  tallies id r [] σ0 σ' → sent σ0 = sent σ ++ pre → (∀ w, notices_to id w pre = 0%nat) →
  Map_has r (clients σ0) = Map_has r (clients σ) →
  ∃ rest, sent σ' = sent σ ++ rest ∧ ∀ w, (notices_to id w rest ≤ departs r σ σ')%nat.
Proof.
  intros [_ (rest & E & T)] Hpre Hzero Hhas. exists (pre ++ rest).
  split; [by rewrite E, Hpre, app_assoc|]. intros w. rewrite notices_to_app, Hzero.
  specialize (T w). rewrite (departs_same r σ σ0) in T by done.
  unfold notices_to in T at 2. simpl in T. lia.
Qed.

Lemma notices_to_greeting id w ws clientId st t playersData history :
  notices_to id w (greeting ws clientId st t playersData history) = 0%nat.
Proof.
  unfold notices_to. rewrite frames_to_greeting. destruct (decide (ws = w)); [|done].
  rewrite filter_cons_False by done. destruct playersData, history; simpl; try done;
    repeat (rewrite filter_cons_False by done); done.
Qed.

Lemma step_sole_bearer id r e σ :
  sole_bearer id r σ → ¬ assigns id e → sole_bearer id r (step e σ).
Proof.
  intros Hsole Hno w d' Hd' Hid.
  destruct (step_entry_id e σ w d' Hd') as [(d & Hd & Heq)|(t1 & t2 & t3 & t4 & ->)].
  - apply (Hsole w d); congruence.
  - by destruct Hno.
Qed.

(** During an event a socket is told at most once that the sole bearer of an
    id has left, and only if it leaves in that event. *)
Lemma step_tallies id r e σ :
  well_formed σ → queues_ok σ → enabled e σ → r ∈ dom (sockets σ) →
  sole_bearer id r σ → ¬ assigns id e →
  ∃ rest, sent (step e σ) = sent σ ++ rest
          ∧ ∀ w, (notices_to id w rest ≤ departs r σ (step e σ))%nat.
Proof.
  intros Hwf Hq Hen Hdom Hsole Hno. pose proof Hwf as (W1 & _).
  assert (∀ σ0 σ', tallies id r [] σ0 σ' → Map_has r (clients σ0) = Map_has r (clients σ) →
            sent σ0 = sent σ →
            ∃ rest, sent σ' = sent σ ++ rest ∧ ∀ w, (notices_to id w rest ≤ departs r σ σ')%nat)
    as Hfrom.
  { intros σ0 σ' Ht Hc Hs. eapply (tallies_event id r σ σ0 σ' []); [done| |done|done].
    by rewrite app_nil_r. }
  assert (∀ σ', sent σ' = sent σ →
            ∃ rest, sent σ' = sent σ ++ rest ∧ ∀ w, (notices_to id w rest ≤ departs r σ σ')%nat)
    as Hquiet.
  { intros σ' E. exists []. rewrite app_nil_r. split; [done|]. intros w.
    unfold notices_to. simpl. lia. }
  destruct e as [ws cid t1 t2 t3 t4|ws messageString now|ws|ws|ws| |t|ws rs th].
  - simpl in Hen. pose proof (well_formed_fresh ws σ Hwf Hen) as Hnone.
    destruct (on_connection_eq ws cid t1 t2 t3 t4 σ Hen Hnone) as (σe & -> & Hsent & Hcl & _).
    assert (ws ≠ r) as Hne.
    { intros ->. apply elem_of_dom in Hdom as [s Hs]. congruence. }
    eapply tallies_event; [|exact Hsent|intros w; apply notices_to_greeting|].
    + apply broadcastImmediate_tallies; [| |done].
      * rewrite Hcl. unfold Map_keys. rewrite fmap_app. apply NoDup_app. split; [done|].
        split; [|apply NoDup_singleton]. intros x Hx ->%list_elem_of_singleton.
        by apply Map_get_None_keys in Hnone.
      * intros w d. rewrite Hcl. destruct (decide (ws = w)) as [<-|Hnew].
        -- rewrite <-(Map_set_absent ws _ (clients σ)) by done. rewrite Map_get_set_eq.
           intros [= <-] Hid. by destruct Hno.
        -- rewrite Map_get_app_ne by done. apply Hsole.
    + unfold Map_has. by rewrite Hcl, Map_get_app_ne.
  - simpl. unfold on_message. destruct messageString as [message|]; [|by apply Hquiet].
    destruct (Map_get ws (clients σ)) as [sd|] eqn:Hsd; [|by apply Hquiet].
    set (σ1 := set_clients (Map_set ws (set_lastHeartbeat now sd)) σ).
    assert (NoDup (Map_keys (clients σ1))) as Hnd1 by (by apply Map_keys_NoDup_set).
    assert (sole_bearer id r σ1) as Hsole1.
    { intros w d. simpl. destruct (decide (ws = w)) as [<-|Hnew].
      - rewrite Map_get_set_eq. intros [= <-] Hid. by apply (Hsole ws sd).
      - rewrite Map_get_set_ne by done. apply Hsole. }
    assert (Map_has r (clients σ1) = Map_has r (clients σ)) as Hhas.
    { unfold Map_has. simpl. destruct (decide (ws = r)) as [<-|Hnew].
      - by rewrite Map_get_set_eq, Hsd.
      - by rewrite Map_get_set_ne. }
    destruct message as [state|message|emote|ts|ty]; simpl.
    + destruct (hasSignificantChange _ _); [|by apply Hquiet].
      match goal with |- context [batchBroadcast ?m ?x false ?s] =>
        destruct (batchBroadcast_frame m x s) as (_ & _ & _ & He & _) end.
      apply Hquiet. by rewrite He.
    + apply (Hfrom (set_chatHistory (chat_append (ChatEntry.mk (ClientData.id sd) message now)) σ1));
        [|done|done]. by apply broadcastImmediate_tallies.
    + destruct (bool_decide _); [|by apply Hquiet].
      apply (Hfrom σ1); [|done|done]. by apply broadcastImmediate_tallies.
    + destruct (ws_send ws (pong ts now) σ1) as [σ'|] eqn:Hsend; [|by apply Hquiet].
      apply (Hfrom σ1); [|done|done]. by apply (ws_send_tallies_other id r ws (pong ts now) σ1 σ').
    + by apply (Hquiet σ1).
  - by apply Hquiet.
  - simpl. unfold on_close. apply (Hfrom (closed ws σ)); [|done|done].
    by apply handleClientDisconnect_tallies.
  - simpl. unfold on_error.
    match goal with |- context [console_write ?l σ] => apply (Hfrom (console_write l σ)) end;
      [|done|done]. by apply handleClientDisconnect_tallies.
  - apply (Hfrom σ); [|done|done]. by apply heartbeatInterval_tallies.
  - simpl. set (σt := set_timers (filter (λ t0, t0 ≠ t)) σ).
    apply (Hfrom σt (flushBatchedUpdates σt)); [|done|done]. unfold flushBatchedUpdates.
    apply (tallies_trans id r [] [] σt (flush_loop (Map_keys (pendingUpdates σt)) σt));
      [|by apply tallies_quiet].
    apply flush_loop_tallies; [by apply (queues_ok_same σ)|done|done].
  - by apply Hquiet.
Qed.

(** Over a run a socket is told that the sole bearer of an id has left at
    most as often as it leaves the registry. *)
Lemma run_tallies id r es σ :
  reachable σ → enabled_all es σ → r ∈ dom (sockets σ) →
  sole_bearer id r σ → Forall (λ e, ¬ assigns id e) es →
  ∃ rest, sent (run es σ) = sent σ ++ rest
          ∧ ∀ w, (notices_to id w rest ≤ departures r es σ)%nat.
Proof.
  revert σ. induction es as [|e es IH]; intros σ Hr Hen Hdom Hsole Hno.
  { exists []. rewrite app_nil_r. split; [done|]. intros w. unfold notices_to. simpl. lia. }
  destruct Hen as [Hen Hens]. apply Forall_cons in Hno as [Hno Hnos].
  destruct (step_tallies id r e σ) as (r1 & E1 & T1);
    [by apply reachable_well_formed|by apply reachable_queues_ok|done..|].
  destruct (IH (step e σ)) as (r2 & E2 & T2);
    [by constructor|done|by apply step_sockets_dom|by apply step_sole_bearer|done|].
  exists (r1 ++ r2). split.
  - unfold run in *. simpl. by rewrite E2, E1, app_assoc.
  - intros w. rewrite notices_to_app. specialize (T1 w). specialize (T2 w).
    unfold departs in T1. simpl. lia.
Qed.

(** ** The event at which a socket leaves *)

(** An event first changes entries of the registry, keeping their ids, and
    puts a greeting on the wire; what follows announces every departure. *)
Lemma step_announces e σ :
  well_formed σ → enabled e σ →
  ∃ σ0 pre, sent σ0 = sent σ ++ pre
    ∧ (∀ r d, Map_get r (clients σ) = Some d →
              ∃ d', Map_get r (clients σ0) = Some d' ∧ ClientData.id d' = ClientData.id d)
    ∧ announces σ0 (step e σ).
Proof.
  intros Hwf Hen.
  assert (∀ σ0 σ', clients σ0 = clients σ → sent σ0 = sent σ → announces σ0 σ' →
            ∃ σ0 pre, sent σ0 = sent σ ++ pre
              ∧ (∀ r d, Map_get r (clients σ) = Some d →
                        ∃ d', Map_get r (clients σ0) = Some d' ∧ ClientData.id d' = ClientData.id d)
              ∧ announces σ0 σ') as Hfrom.
  { intros σ0 σ' Hc Hs Ha. exists σ0, []. rewrite app_nil_r. split; [done|]. split; [|done].
    intros r d Hd. exists d. by rewrite Hc. }
  destruct e as [ws cid t1 t2 t3 t4|ws messageString now|ws|ws|ws| |t|ws rs th].
  - simpl in Hen. pose proof (well_formed_fresh ws σ Hwf Hen) as Hnone.
    destruct (on_connection_eq ws cid t1 t2 t3 t4 σ Hen Hnone) as (σe & -> & Hsent & Hcl & _).
    eexists σe, _. split; [exact Hsent|]. split; [|apply broadcastImmediate_announces].
    intros r d Hd. exists d. rewrite Hcl. split; [by apply Map_get_app_Some|done].
  - simpl. unfold on_message. destruct messageString as [message|];
      [|apply (Hfrom σ); [done..|by apply announces_quiet]].
    destruct (Map_get ws (clients σ)) as [sd|] eqn:Hsd;
      [|apply (Hfrom σ); [done..|apply announces_refl]].
    set (σ1 := set_clients (Map_set ws (set_lastHeartbeat now sd)) σ).
    assert (∀ σ0 σ', clients σ0 = clients σ1 → sent σ0 = sent σ → announces σ0 σ' →
              ∃ σ0 pre, sent σ0 = sent σ ++ pre
                ∧ (∀ r d, Map_get r (clients σ) = Some d →
                          ∃ d', Map_get r (clients σ0) = Some d'
                                ∧ ClientData.id d' = ClientData.id d)
                ∧ announces σ0 σ') as Hmsg.
    { intros σ0 σ' Hc Hs Ha. exists σ0, []. rewrite app_nil_r. split; [done|]. split; [|done].
      intros r d Hd. rewrite Hc. simpl. destruct (decide (ws = r)) as [<-|Hne].
      - rewrite Map_get_set_eq. eexists. split; [done|]. simpl. congruence.
      - exists d. by rewrite Map_get_set_ne. }
    destruct message as [state|message|emote|ts|ty]; simpl.
    + destruct (hasSignificantChange _ _); [|apply (Hmsg σ1); [done..|apply announces_refl]].
      match goal with |- context [batchBroadcast ?m ?x false ?s] =>
        destruct (batchBroadcast_frame m x s) as (_ & Hc & _ & He & _);
        exists (batchBroadcast m x false s), [] end.
      rewrite app_nil_r. split; [by rewrite He|]. split; [|apply announces_refl].
      intros r d Hd. rewrite Hc. simpl. destruct (decide (ws = r)) as [<-|Hne].
      * rewrite Map_get_set_eq. eexists. split; [done|]. simpl. congruence.
      * exists d. by rewrite !Map_get_set_ne.
    + match goal with |- context [broadcastImmediate _ _ ?s] => apply (Hmsg s) end;
        [done..|apply broadcastImmediate_announces].
    + destruct (bool_decide _); [|apply (Hmsg σ1); [done..|apply announces_refl]].
      apply (Hmsg σ1); [done..|apply broadcastImmediate_announces].
    + destruct (ws_send ws (pong ts now) σ1) as [σ'|] eqn:Hsend.
      * apply (Hmsg σ1); [done..|by eapply ws_send_announces].
      * apply (Hmsg σ1); [done..|by apply announces_quiet].
    + apply (Hmsg σ1); [done..|apply announces_refl].
  - simpl. apply (Hfrom (heartbeat ws σ)); [done..|apply announces_refl].
  - simpl. unfold on_close.
    apply (Hfrom (closed ws σ)); [done..|apply handleClientDisconnect_announces].
  - simpl. unfold on_error.
    match goal with |- context [console_write ?l σ] => apply (Hfrom (console_write l σ)) end;
      [done..|apply handleClientDisconnect_announces].
  - apply (Hfrom σ); [done..|apply heartbeatInterval_announces].
  - simpl. set (σt := set_timers (filter (λ t0, t0 ≠ t)) σ).
    apply (Hfrom σt (flushBatchedUpdates σt)); [done..|]. unfold flushBatchedUpdates.
    eapply announces_trans; [apply flush_loop_announces|]. by apply announces_quiet.
  - simpl. match goal with |- context [set_sockets ?f σ] =>
      apply (Hfrom (set_sockets f σ) (set_sockets f σ)) end; [done..|apply announces_refl].
Qed.

(** When an event takes a socket out of the registry, the sockets that are
    registered, open and take writes after it were sent the notice. *)
Lemma step_notifies e σ r d w :
  well_formed σ → enabled e σ →
  Map_get r (clients σ) = Some d → Map_get r (clients (step e σ)) = None →
  survivor w (step e σ) →
  ∃ rest, sent (step e σ) = sent σ ++ rest
          ∧ Text (player_left (ClientData.id d)) ∈ frames_to w rest.
Proof.
  intros Hwf Hen Hd Hgone Hw.
  destruct (step_announces e σ Hwf Hen) as (σ0 & pre & Hpre & Hid & Ha).
  eapply announces_notice; [exact Ha|exact Hpre|by apply Hid|done|done].
Qed.

Lemma run_sent es σ :
  reachable σ → enabled_all es σ → ∃ rest, sent (run es σ) = sent σ ++ rest.
Proof.
  revert σ. induction es as [|e es IH]; intros σ Hr Hen.
  { exists []. by rewrite app_nil_r. }
  destruct Hen as [Hen Hens].
  destruct (step_wire e σ) as (r1 & E1 & _);
    [by apply reachable_well_formed|by apply reachable_queues_ok|done|].
  destruct (IH (step e σ)) as (r2 & E2); [by constructor|done|].
  eexists. unfold run in *. simpl. rewrite E2, E1, <-!app_assoc. done.
Qed.

(** The event of a run at which a socket leaves the registry. *)
Lemma departure_event ws es σ d :
  reachable σ → enabled_all es σ →
  Map_get ws (clients σ) = Some d → Map_get ws (clients (run es σ)) = None →
  ∃ es1 e es2 d', es = es1 ++ e :: es2
    ∧ reachable (run es1 σ) ∧ enabled e (run es1 σ) ∧ enabled_all es2 (step e (run es1 σ))
    ∧ Map_get ws (clients (run es1 σ)) = Some d' ∧ ClientData.id d' = ClientData.id d
    ∧ Map_get ws (clients (step e (run es1 σ))) = None.
Proof.
  revert σ d. induction es as [|e es IH]; intros σ d Hr Hen Hd Hgone.
  { simpl in Hgone. congruence. }
  destruct Hen as [Hen Hens].
  destruct (Map_get ws (clients (step e σ))) as [d1|] eqn:Hd1.
  - destruct (IH (step e σ) d1) as (es1 & e' & es2 & d' & -> & Hr' & Hen' & Hens' & Hd' & Hid & Hg);
      [by constructor|done|done|done|].
    exists (e :: es1), e', es2, d'. split; [done|]. split_and!; try done.
    rewrite Hid. destruct (step_entry_id e σ ws d1 Hd1) as [(d0 & Hd0 & Heq)|(t1 & t2 & t3 & t4 & ->)];
      [congruence|].
    simpl in Hen. pose proof (well_formed_fresh ws σ (reachable_well_formed σ Hr) Hen). congruence.
  - exists [], e, es, d. split; [done|]. by split_and!.
Qed.

Lemma notices_to_elem_of id w rest :
  Text (player_left id) ∈ frames_to w rest → (1 ≤ notices_to id w rest)%nat.
Proof.
  intros Hin. unfold notices_to.
  assert (Text (player_left id) ∈ filter (λ f, f = Text (player_left id)) (frames_to w rest)) as H.
  { by apply list_elem_of_filter. }
  destruct (filter _ _); [by apply elem_of_nil in H|simpl; lia].
Qed.

(** ** LivenessMonitor: a connection that never answers *)

Lemma run_app es1 es2 σ : run (es1 ++ es2) σ = run es2 (run es1 σ).
Proof. unfold run. by rewrite foldl_app. Qed.

Lemma enabled_all_app es1 es2 σ :
  enabled_all es1 σ → enabled_all es2 (run es1 σ) → enabled_all (es1 ++ es2) σ.
Proof.
  revert σ. induction es1 as [|e es1 IH]; intros σ H1 H2; [done|].
  destruct H1 as [? ?]. split; [done|]. by apply IH.
Qed.

Lemma run_entry_id ws es σ d d' :
  reachable σ → enabled_all es σ →
  Map_get ws (clients σ) = Some d → Map_get ws (clients (run es σ)) = Some d' →
  ClientData.id d' = ClientData.id d.
Proof.
  revert σ d. induction es as [|e es IH]; intros σ d Hr Hen Hd Hd'.
  { simpl in Hd'. congruence. }
  destruct Hen as [Hen Hens].
  pose proof (reachable_well_formed σ Hr) as Hwf. pose proof Hwf as (_ & _ & _ & W4 & W5).
  assert (ws ∈ dom (sockets σ)) as Hdom by (apply W5, W4; by rewrite Hd).
  destruct (Map_get ws (clients (step e σ))) as [d1|] eqn:Hd1.
  - rewrite (IH (step e σ) d1); [|by constructor|done|done|done].
    destruct (step_entry_id e σ ws d1 Hd1) as [(d0 & Hd0 & Heq)|(t1 & t2 & t3 & t4 & ->)];
      [congruence|].
    simpl in Hen. pose proof (well_formed_fresh ws σ Hwf Hen). congruence.
  - assert (Map_get ws (clients (run es (step e σ))) = None) as Hnone.
    { apply run_gone; [by apply step_sockets_dom|done|done]. }
    unfold run in *. simpl in Hd'. congruence.
Qed.

(** C7. Take a registered socket in a state the server can be in, a sweep,
    then any events among which there is no pong on that socket, then a second
    sweep.  After the first sweep the socket is marked (and was pinged, if it
    was alive and open) unless it has already left the registry.  The second
    sweep, at the socket's turn, calls [handleClientDisconnect] (which, if the
    socket is still registered, is the [player_left] broadcast: every socket
    that is registered, open and takes writes when it returns was sent the
    notice) and [terminate]: after it the socket is not registered and not
    open.  The [close] event that follows termination changes neither the
    registry nor the queues nor the wire, and no later event registers the
    socket again.  Of the whole run, the [close] event included, exactly one
    event takes the socket out of the registry; it is the second sweep if the
    socket was still registered when it began.  During that event every
    socket that is registered, open and takes writes after it was sent
    [player_left] with the id of the one that left.  If no other client has
    or is given that id, then in the whole run no socket was sent that notice
    twice, and those sockets were sent it exactly once. *)
Theorem silent_connection_evicted ws σ es :
  reachable σ → is_Some (Map_get ws (clients σ)) →
  enabled_all es (step ev_heartbeat σ) → Forall (λ e, e ≠ ev_pong ws) es →
  let σ1 := step ev_heartbeat σ in
  let σ2 := run es σ1 in
  let σ3 := step ev_heartbeat σ2 in
  let σ4 := step (ev_close ws) σ3 in
  (Map_get ws (clients σ1) = None ∨ marked ws σ1)
  ∧ (∀ s, sockets σ !! ws = Some s → Socket.isAlive s = true → Socket.readyState s = OPEN →
          ∃ rest, sent σ1 = sent σ ++ rest ∧ (ws, PingFrame) ∈ rest)
  ∧ (is_Some (Map_get ws (clients σ2)) →
     ∃ pre post, wss_clients σ2 = pre ++ ws :: post ∧
       let σa := foldl (λ σ w, sweep_visit w σ) σ2 pre in
       marked ws σa
       ∧ σ3 = foldl (λ σ w, sweep_visit w σ) (ws_terminate ws (handleClientDisconnect ws σa)) post
       ∧ (∀ d, Map_get ws (clients σa) = Some d →
               handleClientDisconnect ws σa =
               broadcastImmediate (player_left (ClientData.id d)) None (forget_client ws d σa)
               ∧ ∃ rest, sent (handleClientDisconnect ws σa) = sent σa ++ rest
                   ∧ ∀ w, survivor w (handleClientDisconnect ws σa) →
                          Text (player_left (ClientData.id d)) ∈ frames_to w rest)
       ∧ is_OPEN ws σ3 = false)
  ∧ Map_get ws (clients σ3) = None
  ∧ (clients σ4 = clients σ3 ∧ pendingUpdates σ4 = pendingUpdates σ3 ∧ sent σ4 = sent σ3)
  ∧ departures ws (ev_heartbeat :: es ++ [ev_heartbeat; ev_close ws]) σ = 1%nat
  ∧ (∀ es', enabled_all es' σ3 → Map_get ws (clients (run es' σ3)) = None)
  ∧ (∀ d, Map_get ws (clients σ) = Some d →
     ∃ es1 e es2,
       ev_heartbeat :: es ++ [ev_heartbeat; ev_close ws] = es1 ++ e :: es2
       ∧ (is_Some (Map_get ws (clients σ2)) → es1 = ev_heartbeat :: es ∧ e = ev_heartbeat)
       ∧ is_Some (Map_get ws (clients (run es1 σ)))
       ∧ Map_get ws (clients (step e (run es1 σ))) = None
       ∧ ∃ before during after,
           sent (run es1 σ) = sent σ ++ before
           ∧ sent (step e (run es1 σ)) = sent σ ++ before ++ during
           ∧ sent σ4 = sent σ ++ before ++ during ++ after
           ∧ (∀ w, survivor w (step e (run es1 σ)) →
                   Text (player_left (ClientData.id d)) ∈ frames_to w during)
           ∧ (sole_bearer (ClientData.id d) ws σ →
              Forall (λ e, ¬ assigns (ClientData.id d) e) es →
              ∀ w, (notices_to (ClientData.id d) w (before ++ during ++ after) ≤ 1)%nat
                   ∧ (survivor w (step e (run es1 σ)) →
                      notices_to (ClientData.id d) w (before ++ during ++ after) = 1%nat))).
Proof.
  intros Hr Hreg Hen Hsilent σ1 σ2 σ3 σ4.
  pose proof (reachable_well_formed σ Hr) as (_ & _ & _ & W4 & W5).
  assert (ws ∈ wss_clients σ) as Hin by by apply W4.
  assert (ws ∈ dom (sockets σ)) as Hdom by by apply W5.
  assert (unanswered ws σ1) as Hu1.
  { split; [by apply step_sockets_dom|]. apply sweep_marks; auto. }
  assert (reachable σ1) as Hr1 by by constructor.
  assert (unanswered ws σ2) as Hu2 by by apply run_unanswered.
  assert (reachable σ2) as Hr2 by by apply run_reachable.
  pose proof (reachable_well_formed σ2 Hr2) as (_ & _ & W3' & W4' & _).
  assert (Map_get ws (clients σ3) = None) as Hgone3.
  { apply sweep_evicts. destruct Hu2 as [_ [?|Hm]]; [by left|].
    destruct (Map_get ws (clients σ2)) as [d|] eqn:Hd; [|by left].
    right. split; [done|]. apply W4'. by rewrite Hd. }
  assert (ws ∈ dom (sockets σ3)) as Hdom3.
  { apply step_sockets_dom. by destruct Hu2. }
  assert (enabled_all (ev_heartbeat :: es) σ) as Hen1 by done.
  assert (run (ev_heartbeat :: es) σ = σ2) as Hrun2 by done.
  assert (enabled_all [ev_heartbeat; ev_close ws] σ2) as Hen2.
  { split; [done|]. split; [|done]. simpl. by apply elem_of_dom. }
  assert (enabled_all (ev_heartbeat :: es ++ [ev_heartbeat; ev_close ws]) σ) as Hwhole.
  { apply (enabled_all_app (ev_heartbeat :: es)); [done|by rewrite Hrun2]. }
  assert (run (ev_heartbeat :: es ++ [ev_heartbeat; ev_close ws]) σ = σ4) as Hrun4.
  { exact (run_app (ev_heartbeat :: es) [ev_heartbeat; ev_close ws] σ). }
  assert (Map_get ws (clients σ4) = None) as Hgone4.
  { apply step_gone; [done|done|]. simpl. by apply elem_of_dom. }
  assert (departures ws (ev_heartbeat :: es ++ [ev_heartbeat; ev_close ws]) σ = 1%nat) as Hdep.
  { apply departures_once; [done|done|done|by rewrite Hrun4]. }
  split_and!.
  - by destruct Hu1.
  - intros s Hs Ha Ho. by eapply sweep_pings.
  - intros Hreg2. destruct Hu2 as [_ [Hnone|Hm]]; [rewrite Hnone in Hreg2; by destruct Hreg2|].
    destruct (list_elem_of_split _ _ (W4' _ Hreg2)) as (pre & post & Hsplit).
    exists pre, post. split; [done|]. cbv zeta.
    assert (ws ∉ pre) as Hpre.
    { rewrite Hsplit in W3'. apply NoDup_app in W3' as (_ & Hdisj & _).
      intros Hp. apply (Hdisj _ Hp). by left. }
    assert (∀ l σ0, ws ∉ l → sockets (foldl (λ σ w, sweep_visit w σ) σ0 l) !! ws = sockets σ0 !! ws)
      as Hkeep.
    { clear. induction l as [|w l IH]; intros σ0 Hl; simpl; [done|].
      apply not_elem_of_cons in Hl as [Hne Hl]. rewrite IH by done. by apply sweep_visit_other. }
    assert (marked ws (foldl (λ σ w, sweep_visit w σ) σ2 pre)) as Hma.
    { destruct Hm as (s & Hs & Ha). exists s. by rewrite Hkeep. }
    split; [done|].
    assert (σ3 = foldl (λ σ w, sweep_visit w σ)
                   (ws_terminate ws (handleClientDisconnect ws
                      (foldl (λ σ w, sweep_visit w σ) σ2 pre))) post) as Heq.
    { unfold σ3. simpl. unfold heartbeatInterval. rewrite Hsplit, foldl_app. simpl.
      by destruct (sweep_visit_marked ws _ Hma) as (-> & _). }
    split; [done|]. split.
    { intros d Hd. split; [by rewrite handleClientDisconnect_eq, Hd|].
      destruct (handleClientDisconnect_announces ws (foldl (λ σ w, sweep_visit w σ) σ2 pre))
        as [_ (rest & E & N)].
      exists rest. split; [done|]. intros w Hw.
      eapply N; [exact Hd|apply handleClientDisconnect_gone|done]. }
    unfold σ3. simpl. unfold heartbeatInterval.
    apply sweep_terminates. right. split; [done|]. by apply W4'.
  - done.
  - unfold σ4. simpl. unfold on_close. rewrite handleClientDisconnect_absent; done.
  - unfold σ4. simpl. unfold on_close. rewrite handleClientDisconnect_absent; done.
  - unfold σ4. simpl. unfold on_close. rewrite handleClientDisconnect_absent; done.
  - done.
  - intros es' Hen'. by apply run_gone.
  - intros d Hd.
    assert (∀ es1 e es2 d',
              ev_heartbeat :: es ++ [ev_heartbeat; ev_close ws] = es1 ++ e :: es2 →
              reachable (run es1 σ) → enabled e (run es1 σ) →
              enabled_all es2 (step e (run es1 σ)) →
              Map_get ws (clients (run es1 σ)) = Some d' →
              ClientData.id d' = ClientData.id d →
              Map_get ws (clients (step e (run es1 σ))) = None →
              enabled_all es1 σ →
              ∃ before during after,
                sent (run es1 σ) = sent σ ++ before
                ∧ sent (step e (run es1 σ)) = sent σ ++ before ++ during
                ∧ sent σ4 = sent σ ++ before ++ during ++ after
                ∧ (∀ w, survivor w (step e (run es1 σ)) →
                        Text (player_left (ClientData.id d)) ∈ frames_to w during)
                ∧ (sole_bearer (ClientData.id d) ws σ →
                   Forall (λ e, ¬ assigns (ClientData.id d) e) es →
                   ∀ w, (notices_to (ClientData.id d) w (before ++ during ++ after) ≤ 1)%nat
                        ∧ (survivor w (step e (run es1 σ)) →
                           notices_to (ClientData.id d) w (before ++ during ++ after) = 1%nat)))
      as Hfin.
    { intros es1 e es2 d' Hsplit Hrb Hene Hens2 Hd' Hid Hg Hen1'.
      destruct (run_sent es1 σ Hr Hen1') as (before & Eb).
      destruct (run_sent [e] (run es1 σ) Hrb) as (during & Ed); [by split|].
      destruct (run_sent es2 (step e (run es1 σ))) as (after & Ea); [by constructor|done|].
      change (run [e] (run es1 σ)) with (step e (run es1 σ)) in Ed.
      assert (run es2 (step e (run es1 σ)) = σ4) as Hrun.
      { rewrite <-Hrun4, Hsplit, run_app. done. }
      rewrite Hrun in Ea.
      assert (∀ w, survivor w (step e (run es1 σ)) →
                   Text (player_left (ClientData.id d)) ∈ frames_to w during) as Hdel.
      { intros w Hw.
        destruct (step_notifies e (run es1 σ) ws d' w) as (rest & E & Hin');
          [by apply reachable_well_formed|done..|].
        rewrite Ed in E. apply app_inv_head in E as <-. by rewrite <-Hid. }
      exists before, during, after. split_and!.
      - done.
      - by rewrite Ed, Eb, app_assoc.
      - by rewrite Ea, Ed, Eb, <-!app_assoc.
      - done.
      - intros Hsole Hno w.
        destruct (run_tallies (ClientData.id d) ws
                    (ev_heartbeat :: es ++ [ev_heartbeat; ev_close ws]) σ) as (rest & E & T);
          [done|done|done|done| |].
        { constructor; [by intros []|]. apply Forall_app. split; [done|].
          constructor; [by intros []|]. constructor; [by intros []|constructor]. }
        rewrite Hrun4, Ea, Ed, Eb, <-!app_assoc in E. apply app_inv_head in E as <-.
        specialize (T w). rewrite Hdep in T. split; [done|]. intros Hw.
        pose proof (notices_to_elem_of _ _ _ (Hdel w Hw)) as H1.
        rewrite !notices_to_app in *. lia. }
    destruct (Map_get ws (clients σ2)) as [d2|] eqn:Hd2.
    + exists (ev_heartbeat :: es), ev_heartbeat, [ev_close ws].
      split; [done|]. split; [done|]. rewrite Hrun2. split; [by rewrite Hd2|]. split; [done|].
      rewrite <-Hrun2. apply (Hfin (ev_heartbeat :: es) ev_heartbeat [ev_close ws] d2);
        rewrite ?Hrun2; try done.
      * split; [|done]. simpl. by apply elem_of_dom.
      * by apply (run_entry_id ws (ev_heartbeat :: es) σ).
    + destruct (departure_event ws (ev_heartbeat :: es) σ d)
        as (es1 & e & es2 & d' & Hsplit & Hrb & Hene & Hens2 & Hd' & Hid & Hg); [done..|].
      exists es1, e, (es2 ++ [ev_heartbeat; ev_close ws]).
      assert (ev_heartbeat :: es ++ [ev_heartbeat; ev_close ws]
              = es1 ++ e :: es2 ++ [ev_heartbeat; ev_close ws]) as Hsplit'.
      { change (ev_heartbeat :: es ++ [ev_heartbeat; ev_close ws])
          with ((ev_heartbeat :: es) ++ [ev_heartbeat; ev_close ws]).
        by rewrite Hsplit, <-app_assoc. }
      split; [done|]. split; [by intros [? [=]]|]. split; [by rewrite Hd'|]. split; [done|].
      assert (run (e :: es2) (run es1 σ) = σ2) as Hrun.
      { by rewrite <-run_app, <-Hsplit. }
      apply (Hfin es1 e (es2 ++ [ev_heartbeat; ev_close ws]) d'); try done.
      * apply enabled_all_app; [done|]. change (run es2 (step e (run es1 σ))) with
          (run (e :: es2) (run es1 σ)). by rewrite Hrun.
      * rewrite Hsplit in Hen1. clear -Hen1. revert σ Hen1.
        induction es1 as [|e1 es1 IH]; intros σ Hen1; [done|].
        destruct Hen1 as [? ?]. split; [done|]. by apply IH.
Qed.

Lemma silent_connection_evicted_witness :
  let es := [ev_message 1 (Some (in_ping (Some 7))) 300; ev_pong 2] in
  let σ3 := step ev_heartbeat (run es (step ev_heartbeat two_clients)) in
  Map_get 1 (clients two_clients) = Some (ClientData.mk "ia" (initialState 100) 100 100)
  ∧ Map_get 1 (clients σ3) = None
  ∧ sent (step (ev_close 1) σ3) = sent σ3
  ∧ ∃ rest, sent (step (ev_close 1) σ3) = sent two_clients ++ rest
            ∧ notices_to "ia" 2 rest = 1%nat.
Proof.
  intros es σ3.
  assert (Map_get 1 (clients two_clients) = Some (ClientData.mk "ia" (initialState 100) 100 100))
    as Hget by (vm_compute; reflexivity).
  assert (is_Some (Map_get 1 (clients two_clients))) as Hreg by (rewrite Hget; eauto).
  assert (enabled_all es (step ev_heartbeat two_clients)) as Hen.
  { split; [|split; [|exact I]]; vm_compute; eexists; reflexivity. }
  assert (Forall (λ e, e ≠ ev_pong 1) es) as Hsilent.
  { repeat constructor; simpl; congruence. }
  assert (sole_bearer "ia" 1 two_clients) as Hsole.
  { assert (clients two_clients
            = [(1%nat, ClientData.mk "ia" (initialState 100) 100 100);
               (2%nat, ClientData.mk "ib" (initialState 200) 200 200)]) as Hcl
      by (vm_compute; reflexivity).
    intros w d. rewrite Hcl. simpl. destruct (decide (1%nat = w)) as [<-|_]; [done|].
    destruct (decide (2%nat = w)) as [_|_]; [|done]. by intros [= <-]. }
  assert (Forall (λ e, ¬ assigns "ia" e) es) as Hno.
  { repeat constructor; by intros []. }
  assert (is_Some (Map_get 1 (clients (run es (step ev_heartbeat two_clients))))) as Hreg2.
  { vm_compute. eexists. reflexivity. }
  assert (survivor 2 (step ev_heartbeat (run (ev_heartbeat :: es) two_clients))) as Hsurv.
  { split_and!; [|vm_compute; reflexivity..]. vm_compute. eexists. reflexivity. }
  destruct (silent_connection_evicted 1 two_clients es two_clients_reachable Hreg Hen Hsilent)
    as (_ & _ & _ & Hgone & (_ & _ & Hsent) & _ & _ & Hwire).
  destruct (Hwire _ Hget) as (es1 & e & es2 & _ & Hmain & _ & _
                              & before & during & after & _ & _ & Eall & _ & Honce).
  destruct (Hmain Hreg2) as [-> ->].
  destruct (Honce Hsole Hno 2%nat) as [_ Hone].
  split; [exact Hget|]. split; [exact Hgone|]. split; [exact Hsent|].
  exists (before ++ during ++ after). split; [exact Eall|exact (Hone Hsurv)].
Defined.
